(** * Intelcobro: the file ingestion pipeline of [FileUploadMiddleware.ts]

    A shallow embedding of the upload middleware
    (src/infrastructure/web/middlewares/FileUploadMiddleware.ts) and of the
    route wiring that uses it, followed by the properties of the ingestion
    pipeline.

    Conventions of the embedding:
    - a JavaScript string is a [string] of 8-bit code units; [length] is the
      JavaScript [.length];
    - file contents and [Buffer]s are [list byte];
    - the file system is a finite map from paths to contents;
    - [async] functions run to completion one after the other, so they are
      state-passing functions over the file system and an event log;
    - a thrown value is the [Throw] result of the [M] monad, [try/catch] is
      [try_catch]. *)

From Stdlib Require Import String Ascii List ZArith NArith Lia Bool.
From Stdlib Require Import Strings.Byte.
From stdpp Require Import base option gmap strings list fin_maps.
Import ListNotations.

Local Open Scope string_scope.
Local Open Scope Z_scope.

(* ===================================================================== *)
(** ** JavaScript and Node primitives used by the middleware *)
(* ===================================================================== *)

Module JS.

Definition code (c : ascii) : N := N_of_ascii c.

(** [String.prototype.toLowerCase] on 8-bit code units: the ASCII letters
    and the Latin-1 capitals U+00C0..U+00DE (U+00D7 is the times sign). *)
Definition lowerChar (c : ascii) : ascii :=
  let n := code c in
  if ((65 <=? n) && (n <=? 90))%N then ascii_of_N (n + 32)
  else if ((192 <=? n) && (n <=? 222) && negb (n =? 215))%N then ascii_of_N (n + 32)
  else c.

Fixpoint toLowerCase (s : string) : string :=
  match s with
  | EmptyString => EmptyString
  | String c s' => String (lowerChar c) (toLowerCase s')
  end.

(** [Array.prototype.includes] on an array of strings. *)
Fixpoint includes (l : list string) (x : string) : bool :=
  match l with
  | [] => false
  | y :: l' => String.eqb y x || includes l' x
  end.

(** [String.prototype.startsWith]. *)
Definition startsWith (s p : string) : bool := String.prefix p s.

(** [String.prototype.includes]: [p] occurs somewhere in [s]. *)
Fixpoint str_includes (s p : string) : bool :=
  String.prefix p s ||
  match s with
  | EmptyString => false
  | String _ s' => str_includes s' p
  end.

(** [s.split(c)] for a one-character separator: never the empty array. *)
Fixpoint split_aux (sep : ascii) (s : string) (cur : string) : list string :=
  match s with
  | EmptyString => [cur]
  | String c s' =>
      if Ascii.eqb c sep then cur :: split_aux sep s' EmptyString
      else split_aux sep s' (cur +:+ String c EmptyString)
  end.

Definition split (sep : ascii) (s : string) : list string :=
  split_aux sep s EmptyString.

(** [Array.prototype.some]. *)
Definition some {A} (f : A -> bool) (l : list A) : bool := existsb f l.

(** Some character of [s] satisfies [f]: what [regex.test(s)] computes for
    a pattern that is a single character class. *)
Fixpoint test_class (f : ascii -> bool) (s : string) : bool :=
  match s with
  | EmptyString => false
  | String c s' => f c || test_class f s'
  end.

(** [Array.prototype.join]. *)
Fixpoint join (sep : string) (l : list string) : string :=
  match l with
  | [] => ""
  | [x] => x
  | x :: l' => x +:+ sep +:+ join sep l'
  end.

End JS.

(** Node's [path] module, POSIX flavour. *)
Module Path.

(** The scan state of [path.extname]: it walks the path from its last
    character to its first. *)
Record ext_state := {
  startDot : Z; startPart : Z; end_ : Z;
  matchedSlash : bool; preDotState : Z; stopped : bool }.

Definition ext_init : ext_state :=
  {| startDot := -1; startPart := 0; end_ := -1;
     matchedSlash := true; preDotState := 0; stopped := false |}.

(** One iteration of the loop of [extname], at index [i] with character
    code [c]. *)
Definition ext_step (st : ext_state) (i : Z) (c : N) : ext_state :=
  if stopped st then st
  else if (c =? 47)%N then
    if negb (matchedSlash st) then
      {| startDot := startDot st; startPart := i + 1; end_ := end_ st;
         matchedSlash := matchedSlash st; preDotState := preDotState st;
         stopped := true |}
    else st
  else
    let st1 :=
      if end_ st =? -1 then
        {| startDot := startDot st; startPart := startPart st; end_ := i + 1;
           matchedSlash := false; preDotState := preDotState st;
           stopped := false |}
      else st in
    if (c =? 46)%N then
      if startDot st1 =? -1 then
        {| startDot := i; startPart := startPart st1; end_ := end_ st1;
           matchedSlash := matchedSlash st1; preDotState := preDotState st1;
           stopped := false |}
      else if negb (preDotState st1 =? 1) then
        {| startDot := startDot st1; startPart := startPart st1; end_ := end_ st1;
           matchedSlash := matchedSlash st1; preDotState := 1;
           stopped := false |}
      else st1
    else if negb (startDot st1 =? -1) then
      {| startDot := startDot st1; startPart := startPart st1; end_ := end_ st1;
         matchedSlash := matchedSlash st1; preDotState := -1;
         stopped := false |}
    else st1.

(** The characters of [s] paired with their index, last one first. *)
Fixpoint indexed_rev (s : list ascii) (i : Z) (acc : list (Z * ascii)) : list (Z * ascii) :=
  match s with
  | [] => acc
  | c :: s' => indexed_rev s' (i + 1) ((i, c) :: acc)
  end.

Definition ext_scan (p : string) : ext_state :=
  fold_left (fun st ic => ext_step st (fst ic) (JS.code (snd ic)))
            (indexed_rev (list_ascii_of_string p) 0 []) ext_init.

(** [s.slice(a, b)] for [0 <= a <= b]. *)
Definition slice (s : string) (a b : Z) : string :=
  String.substring (Z.to_nat a) (Z.to_nat (b - a)) s.

Definition extname (p : string) : string :=
  let st := ext_scan p in
  if (startDot st =? -1) || (end_ st =? -1) || (preDotState st =? 0) ||
     ((preDotState st =? 1) && (startDot st =? end_ st - 1) &&
      (startDot st =? startPart st + 1))
  then ""
  else slice p (startDot st) (end_ st).

(** [path.join(a, b)] for the arguments the middleware passes: a
    normalised relative directory and one more segment. *)
Definition join (a b : string) : string := a +:+ "/" +:+ b.

End Path.

(** [crypto.createHash('sha256')] with [digest('hex')] (FIPS 180-4), on
    32-bit words kept in [N] with the wrap-around written out. *)
Module SHA256.
Local Open Scope N_scope.

Definition mask32 : N := 0xffffffff.
Definition add32 (a b : N) : N := N.land (a + b) mask32.
Definition rotr (n x : N) : N :=
  N.lor (N.shiftr x n) (N.land (N.shiftl x (32 - n)) mask32).
Definition not32 (x : N) : N := N.lxor x mask32.

Definition Ch (x y z : N) : N := N.lxor (N.land x y) (N.land (not32 x) z).
Definition Maj (x y z : N) : N :=
  N.lxor (N.lxor (N.land x y) (N.land x z)) (N.land y z).
Definition Sigma0 (x : N) : N := N.lxor (N.lxor (rotr 2 x) (rotr 13 x)) (rotr 22 x).
Definition Sigma1 (x : N) : N := N.lxor (N.lxor (rotr 6 x) (rotr 11 x)) (rotr 25 x).
Definition sigma0 (x : N) : N := N.lxor (N.lxor (rotr 7 x) (rotr 18 x)) (N.shiftr x 3).
Definition sigma1 (x : N) : N := N.lxor (N.lxor (rotr 17 x) (rotr 19 x)) (N.shiftr x 10).

(** The first 64 primes. *)
Definition primes : list N :=
  [ 2; 3; 5; 7; 11; 13; 17; 19; 23; 29; 31; 37; 41; 43; 47; 53; 59; 61; 67;
    71; 73; 79; 83; 89; 97; 101; 103; 107; 109; 113; 127; 131; 137; 139; 149;
    151; 157; 163; 167; 173; 179; 181; 191; 193; 197; 199; 211; 223; 227;
    229; 233; 239; 241; 251; 257; 263; 269; 271; 277; 281; 283; 293; 307;
    311 ].

(** The integer cube root, one bit at a time from bit [bits - 1] down. *)
Fixpoint cbrt_bits (bits : nat) (x r : N) : N :=
  match bits with
  | O => r
  | S b =>
      let c := r + N.shiftl 1 (N.of_nat b) in
      cbrt_bits b x (if c * c * c <=? x then c else r)
  end.

(** The round constants: the first 32 bits of the fractional parts of the
    cube roots of the primes. *)
Definition K : list N :=
  Eval vm_compute in
    map (fun p => N.land (cbrt_bits 40 (N.shiftl p 96) 0) mask32) primes.

(** The initial hash value: the same of the square roots of the first 8
    primes. *)
Definition H0 : list N :=
  Eval vm_compute in
    map (fun p => N.land (N.sqrt (N.shiftl p 64)) mask32) (firstn 8 primes).

(** Padding: the bit 1, zeros up to 56 mod 64, the bit length on 8 bytes. *)
Definition be_bytes (n : nat) (x : N) : list N :=
  map (fun i => N.land (N.shiftr x (8 * N.of_nat (n - 1 - i))) 0xff) (seq 0 n).

Definition pad (msg : list N) : list N :=
  let len := N.of_nat (length msg) in
  let zeros := (55 + 64 - len mod 64) mod 64 in
  msg ++ [0x80] ++ repeat 0 (N.to_nat zeros) ++ be_bytes 8 (8 * len).

Fixpoint words (fuel : nat) (bs : list N) : list N :=
  match fuel, bs with
  | S fuel', a :: b :: c :: d :: bs' =>
      (N.shiftl a 24 + N.shiftl b 16 + N.shiftl c 8 + d) :: words fuel' bs'
  | _, _ => []
  end.

Fixpoint blocks (fuel : nat) (ws : list N) : list (list N) :=
  match fuel, ws with
  | S fuel', _ :: _ => firstn 16 ws :: blocks fuel' (skipn 16 ws)
  | _, _ => []
  end.

(** The message schedule; [recent] holds W[t-1], W[t-2], ... *)
Fixpoint schedule (n : nat) (recent : list N) : list N :=
  match n with
  | O => rev recent
  | S n' =>
      let w := add32 (add32 (sigma1 (nth 1 recent 0)) (nth 6 recent 0))
                     (add32 (sigma0 (nth 14 recent 0)) (nth 15 recent 0)) in
      schedule n' (w :: recent)
  end.

Definition round (st : list N) (kw : N * N) : list N :=
  match st with
  | [a; b; c; d; e; f; g; h] =>
      let t1 := add32 (add32 (add32 h (Sigma1 e)) (add32 (Ch e f g) (fst kw))) (snd kw) in
      let t2 := add32 (Sigma0 a) (Maj a b c) in
      [add32 t1 t2; a; b; c; add32 d t1; e; f; g]
  | _ => st
  end.

Definition compress (h : list N) (block : list N) : list N :=
  let w := schedule 48 (rev block) in
  let st := fold_left round (combine K w) h in
  map (fun p => add32 (fst p) (snd p)) (combine h st).

Definition digest (msg : list N) : list N :=
  let p := pad msg in
  fold_left compress (blocks (length p) (words (length p) p)) H0.

Definition hexdigit (n : N) : ascii :=
  if n <? 10 then ascii_of_N (48 + n) else ascii_of_N (87 + n).

Definition hex32 (x : N) : string :=
  string_of_list_ascii
    (map (fun i => hexdigit (N.land (N.shiftr x (4 * N.of_nat (7 - i))) 0xf)) (seq 0 8)).

Definition sha256 (content : list byte) : string :=
  String.concat "" (map hex32 (digest (map Byte.to_N content))).

End SHA256.

(* ===================================================================== *)
(** ** Data model *)
(* ===================================================================== *)

(** [FileTypeConfig]. *)
Record FileTypeConfig := {
  extensions : list string;
  mimeTypes : list string;
  maxSize : Z;
  description : string }.

Definition MiB : Z := 1024 * 1024.

Definition resumeConfig : FileTypeConfig :=
  {| extensions := [".pdf"; ".doc"; ".docx"];
     mimeTypes := ["application/pdf"; "application/msword";
                   "application/vnd.openxmlformats-officedocument.wordprocessingml.document"];
     maxSize := 5 * 1024 * 1024;
     description := "CV/Resume (PDF, DOC, DOCX)" |}.

Definition imageConfig : FileTypeConfig :=
  {| extensions := [".jpg"; ".jpeg"; ".png"; ".gif"; ".webp"];
     mimeTypes := ["image/jpeg"; "image/png"; "image/gif"; "image/webp"];
     maxSize := 2 * 1024 * 1024;
     description := "Imagen (JPG, PNG, GIF, WEBP)" |}.

Definition audioConfig : FileTypeConfig :=
  {| extensions := [".mp3"; ".wav"; ".ogg"; ".webm"; ".m4a"];
     mimeTypes := ["audio/mpeg"; "audio/wav"; "audio/ogg"; "audio/webm"; "audio/mp4"];
     maxSize := 10 * 1024 * 1024;
     description := "Audio (MP3, WAV, OGG, WEBM, M4A)" |}.

Definition documentConfig : FileTypeConfig :=
  {| extensions := [".pdf"; ".doc"; ".docx"; ".txt"; ".rtf"];
     mimeTypes := ["application/pdf"; "application/msword";
                   "application/vnd.openxmlformats-officedocument.wordprocessingml.document";
                   "text/plain"; "application/rtf"];
     maxSize := 10 * 1024 * 1024;
     description := "Documento (PDF, DOC, DOCX, TXT, RTF)" |}.

(** [FILE_CONFIGS], in the order of the object literal. *)
Definition FILE_CONFIGS : list (string * FileTypeConfig) :=
  [ ("resume", resumeConfig); ("image", imageConfig);
    ("audio", audioConfig); ("document", documentConfig) ].

(** [obj[key]] on an object literal given as its own entries. *)
Fixpoint assoc {A} (l : list (string * A)) (key : string) : option A :=
  match l with
  | [] => None
  | (k, v) :: l' => if String.eqb k key then Some v else assoc l' key
  end.

(** [Express.Multer.File], with the two fields that [processUploadedFiles]
    attaches to it. [file_size] is [None] while the property is still
    undefined: the storage engine sets it once the file is written. *)
Record File := {
  fieldname : string;
  originalname : string;
  mimetype : string;
  file_size : option Z;
  path : string;
  hash : option string;
  finalPath : option string }.

Definition set_hash (h : string) (f : File) : File :=
  {| fieldname := fieldname f; originalname := originalname f;
     mimetype := mimetype f; file_size := file_size f; path := path f;
     hash := Some h; finalPath := finalPath f |}.

Definition set_finalPath (p : string) (f : File) : File :=
  {| fieldname := fieldname f; originalname := originalname f;
     mimetype := mimetype f; file_size := file_size f; path := path f;
     hash := hash f; finalPath := Some p |}.

(** The errors [performSecurityChecks] can push, in source order. *)
Inductive SecurityError :=
| DangerousChars        (* 'Nombre de archivo contiene caracteres no permitidos' *)
| NameTooLong           (* 'Nombre de archivo demasiado largo' *)
| ExecutableExtension   (* 'Archivo con extension ejecutable no permitido' *)
| EmptyFile.            (* 'El archivo esta vacio' *)

Inductive MulterCode :=
| LIMIT_FILE_SIZE | LIMIT_FILE_COUNT | LIMIT_FIELD_KEY
| LIMIT_FIELD_VALUE | LIMIT_FIELD_COUNT | LIMIT_UNEXPECTED_FILE
| LIMIT_PART_COUNT.

(** The messages the middleware builds, one constructor per template. *)
Inductive Message :=
| MsgExtensionNotAllowed (allowed : list string)
| MsgMimeNotAllowed (descr : string)
| MsgSecurity (errors : list SecurityError)
| MsgFieldNotAllowed (field : string)
| MsgConfigNotFound (type : string)
| MsgInvalidContent (name : string)
| MsgTotalSizeExceeded (limit : Z)
| MsgUploadFailed (inner : Message)      (* 'Error subiendo archivo: ...' *)
| MsgFileTooLarge                        (* 'Archivo demasiado grande. ...' *)
| MsgTooManyFiles
| MsgFieldNameTooLong
| MsgFieldValueTooLong
| MsgTooManyFields
| MsgUnexpectedField (field : string)
| MsgUploadError (inner : Message)       (* 'Error de subida: ...' *)
| MsgMulter (code : MulterCode)
| MsgNoSuchFile (p : string)
| MsgNotAFunction
| MsgCommandFailed                       (* the error [exec] reports *)
| MsgDiskParse.                          (* 'Could not parse/extract ...' *)

(** Thrown values. *)
Inductive Exn :=
| Error (m : Message)
| MulterError (code : MulterCode) (field : string)
| ValidationException (m : Message)
| FsError (p : string)
| TypeError.

Definition message (e : Exn) : Message :=
  match e with
  | Error m => m
  | MulterError c _ => MsgMulter c
  | ValidationException m => m
  | FsError p => MsgNoSuchFile p
  | TypeError => MsgNotAFunction
  end.

Inductive Res (A : Type) :=
| Ok (a : A)
| Throw (e : Exn).
Arguments Ok {A} a.
Arguments Throw {A} e.

(* ===================================================================== *)
(** ** Filename checks and the type filter *)
(* ===================================================================== *)

(** The character class of [dangerousChars]: less-than, greater-than,
    colon, double quote, slash, backslash, bar, question mark, star, and
    the code units 0x00 to 0x1f. *)
Definition dangerousChar (c : ascii) : bool :=
  let n := JS.code c in
  ((n =? 60) || (n =? 62) || (n =? 58) || (n =? 34) || (n =? 47) ||
   (n =? 92) || (n =? 124) || (n =? 63) || (n =? 42) || (n <=? 31))%N.

Definition suspiciousExtensions : list string :=
  [".exe"; ".bat"; ".cmd"; ".scr"; ".pif"; ".com"].

Record SecurityCheck := { isValid : bool; errors : list SecurityError }.

Definition nameErrors (filename : string) : list SecurityError :=
  (if JS.test_class dangerousChar filename then [DangerousChars] else []) ++
  (if (255 <? Z.of_nat (String.length filename)) then [NameTooLong] else []) ++
  (let parts := JS.split "." filename in
   if (2 <? Z.of_nat (length parts)) then
     if JS.some (fun part => JS.includes suspiciousExtensions
                               ("." +:+ JS.toLowerCase part)) parts
     then [ExecutableExtension] else []
   else []).

Definition performSecurityChecks (file : File) : SecurityCheck :=
  let errs :=
    (nameErrors (originalname file) ++
     match file_size file with
     | Some 0 => [EmptyFile]
     | _ => []
     end)%list in
  {| isValid := (Z.of_nat (length errs) =? 0); errors := errs |}.

Inductive FilterResult :=
| Accept                   (* cb(null, true) *)
| Reject (e : Exn).        (* cb(error) *)

Definition createFileFilter (allowedConfig : FileTypeConfig) (file : File) : FilterResult :=
  let extension := JS.toLowerCase (Path.extname (originalname file)) in
  let mimetype_ := JS.toLowerCase (mimetype file) in
  if negb (JS.includes (extensions allowedConfig) extension) then
    Reject (Error (MsgExtensionNotAllowed (extensions allowedConfig)))
  else if negb (JS.includes (mimeTypes allowedConfig) mimetype_) then
    Reject (Error (MsgMimeNotAllowed (description allowedConfig)))
  else
    let securityCheck := performSecurityChecks file in
    if negb (isValid securityCheck) then
      Reject (Error (MsgSecurity (errors securityCheck)))
    else Accept.

(** The field table of [uploadMultiple]. *)
Record FieldSpec := { fs_name : string; maxCount : Z; fs_type : string }.

(** The [fileFilter] closure of [uploadMultiple]. *)
Definition multipleFileFilter (fieldNames : list FieldSpec) (file : File) : FilterResult :=
  match find (fun f => String.eqb (fs_name f) (fieldname file)) fieldNames with
  | None => Reject (Error (MsgFieldNotAllowed (fieldname file)))
  | Some fieldConfig =>
      match assoc FILE_CONFIGS (fs_type fieldConfig) with
      | None => Reject (Error (MsgConfigNotFound (fs_type fieldConfig)))
      | Some config => createFileFilter config file
      end
  end.

(* ===================================================================== *)
(** ** Content inspection: magic bytes and the scanner *)
(* ===================================================================== *)

(** The file system: the regular files, by path. *)
Abbreviation FileSystem := (gmap string (list byte)).

Definition byte_eqb (a b : byte) : bool := Byte.eqb a b.

(** [Buffer.prototype.equals]. *)
Fixpoint buffer_equals (a b : list byte) : bool :=
  match a, b with
  | [], [] => true
  | x :: a', y :: b' => byte_eqb x y && buffer_equals a' b'
  | _, _ => false
  end.

(** [buffer.subarray(0, n)]. *)
Definition subarray (buffer : list byte) (n : nat) : list byte := firstn n buffer.

(** [Buffer.alloc(n)] then [fs.readSync(fd, buffer, 0, n, 0)]: the first
    [n] bytes of the file, the rest of the buffer stays zero. *)
Definition read_buffer (n : nat) (content : list byte) : list byte :=
  (firstn n content ++ repeat x00 (n - length content))%list.

(** [fs.openSync(path, 'r')], [readSync], [closeSync]: opening a path that
    is not there throws. *)
Definition readHead (n : nat) (fs : FileSystem) (p : string) : Res (list byte) :=
  match fs !! p with
  | Some content => Ok (read_buffer n content)
  | None => Throw (FsError p)
  end.

(** The [magicBytes] table of [validateFileContent]. *)
Definition magicBytes : list (string * list (list byte)) :=
  [ ("application/pdf", [[x25; x50; x44; x46]]);
    ("image/jpeg", [[xff; xd8; xff; xe0]; [xff; xd8; xff; xe1]]);
    ("image/png", [[x89; x50; x4e; x47; x0d; x0a; x1a; x0a]]);
    ("audio/mpeg", [[xff; xfb]; [x49; x44; x33]]);
    ("audio/wav", [[x52; x49; x46; x46]]) ].

(** The property names every object literal inherits from
    [Object.prototype]; their values are truthy and none is an array. *)
Definition objectPrototypeKeys : list string :=
  [ "constructor"; "__proto__"; "hasOwnProperty"; "isPrototypeOf";
    "propertyIsEnumerable"; "toLocaleString"; "toString"; "valueOf";
    "__defineGetter__"; "__defineSetter__"; "__lookupGetter__";
    "__lookupSetter__" ].

Inductive Property (A : Type) :=
| Own (a : A)
| Inherited
| Undefined.
Arguments Own {A} a.
Arguments Inherited {A}.
Arguments Undefined {A}.

(** [magicBytes[file.mimetype]]. *)
Definition magicBytes_get (key : string) : Property (list (list byte)) :=
  match assoc magicBytes key with
  | Some sigs => Own sigs
  | None => if JS.includes objectPrototypeKeys key then Inherited else Undefined
  end.

(** The [try] block of [validateFileContent]. *)
Definition validateFileContent_try (fs : FileSystem) (file : File) : Res bool :=
  match readHead 32 fs (path file) with
  | Throw e => Throw e
  | Ok buffer =>
      match magicBytes_get (mimetype file) with
      | Undefined => Ok true
      | Inherited => Throw TypeError      (* [.some] is not a function *)
      | Own expectedMagicBytes =>
          Ok (JS.some (fun magic =>
                buffer_equals (subarray buffer (length magic)) magic)
              expectedMagicBytes)
      end
  end.

Definition validateFileContent (fs : FileSystem) (file : File) : bool :=
  match validateFileContent_try fs file with
  | Ok b => b
  | Throw _ => false
  end.

(** [Buffer.from(s)] for an ASCII string. *)
Definition buffer_from (s : string) : list byte := list_byte_of_string s.

(** [buffer.indexOf(pattern) !== -1]. *)
Fixpoint is_prefix (p l : list byte) : bool :=
  match p, l with
  | [], _ => true
  | x :: p', y :: l' => byte_eqb x y && is_prefix p' l'
  | _ :: _, [] => false
  end.

Fixpoint buffer_contains (buffer pattern : list byte) : bool :=
  is_prefix pattern buffer ||
  match buffer with
  | [] => false
  | _ :: buffer' => buffer_contains buffer' pattern
  end.

Definition maliciousPatterns : list (list byte) :=
  [ buffer_from "X5O!P%@AP[4\PZX54(P^)7CC)7}$EICAR"; buffer_from "MZ" ].

Definition performAntivirusScan_try (fs : FileSystem) (file : File) : Res bool :=
  match readHead 1024 fs (path file) with
  | Throw e => Throw e
  | Ok buffer =>
      let hasMaliciousPattern :=
        JS.some (fun pattern => buffer_contains buffer pattern) maliciousPatterns in
      Ok (negb hasMaliciousPattern)
  end.

Definition performAntivirusScan (fs : FileSystem) (file : File) : bool :=
  match performAntivirusScan_try fs file with
  | Ok b => b
  | Throw _ => false
  end.

(* ===================================================================== *)
(** ** The effects: file system, event log, exceptions *)
(* ===================================================================== *)

(** The event log records which stage touched which file, in order. *)
Inductive Event :=
| EvFiltered (name : string) (accepted : bool)  (* the fileFilter ran *)
| EvStored (name p : string)                    (* multer hands over [name], stored at [p] *)
| EvHashed (p : string)                         (* [generateFileHash] read [p] *)
| EvContentChecked (p : string) (ok : bool)     (* [validateFileContent] *)
| EvRenamed (src dst : string)                  (* [fs.renameSync] *)
| EvUnlinked (p : string)                       (* [fs.unlinkSync] *)
| EvScanned (p : string) (safe : bool).         (* [performAntivirusScan] *)

Record State := { st_fs : FileSystem; st_log : list Event }.

Definition M (A : Type) : Type := State -> Res A * State.

Definition ret {A} (a : A) : M A := fun st => (Ok a, st).

Definition bind {A B} (m : M A) (k : A -> M B) : M B :=
  fun st =>
    match m st with
    | (Ok a, st') => k a st'
    | (Throw e, st') => (Throw e, st')
    end.

Definition throw {A} (e : Exn) : M A := fun st => (Throw e, st).

(** [try { m } catch (e) { h e }]: the effects of [m] up to the throw stay. *)
Definition try_catch {A} (m : M A) (h : Exn -> M A) : M A :=
  fun st =>
    match m st with
    | (Ok a, st') => (Ok a, st')
    | (Throw e, st') => h e st'
    end.

Definition get_fs : M FileSystem := fun st => (Ok (st_fs st), st).

Definition put_fs (fs : FileSystem) : M unit :=
  fun st => (Ok tt, {| st_fs := fs; st_log := st_log st |}).

Definition emit (e : Event) : M unit :=
  fun st => (Ok tt, {| st_fs := st_fs st; st_log := (st_log st ++ [e])%list |}).

Notation "'do' x <- c1 ; c2" := (bind c1 (fun x => c2))
  (at level 10, x name, c1 at level 100, c2 at level 200).
Notation "'exec' c1 ; c2" := (bind c1 (fun _ => c2))
  (at level 10, c1 at level 100, c2 at level 200).

(** [fs.existsSync]. *)
Definition existsSync (p : string) : M bool :=
  do fs <- get_fs ; ret (bool_decide (is_Some (fs !! p))).

(** [fs.unlinkSync]: throws when the path is not there. *)
Definition unlinkSync (p : string) : M unit :=
  do fs <- get_fs ;
  match fs !! p with
  | Some _ => exec put_fs (delete p fs) ; emit (EvUnlinked p)
  | None => throw (FsError p)
  end.

(** [fs.renameSync]: throws when the source is not there, replaces the
    destination otherwise. *)
Definition renameSync (src dst : string) : M unit :=
  do fs <- get_fs ;
  match fs !! src with
  | Some content => 
      exec put_fs (<[dst := content]> (delete src fs)) ; emit (EvRenamed src dst)
  | None => throw (FsError src)
  end.

(* ===================================================================== *)
(** ** Hashing, placement and the per-request processing *)
(* ===================================================================== *)

Definition uploadDir : string := "uploads".

(** [generateFileHash]: the read stream errors on a missing file. *)
Definition generateFileHash (filePath : string) : M string :=
  do fs <- get_fs ;
  match fs !! filePath with
  | Some content => exec emit (EvHashed filePath) ; ret (SHA256.sha256 content)
  | None => throw (FsError filePath)
  end.

(** The subdirectory rule of [moveFileToFinalLocation]. *)
Definition subdirOf (mimetype_ : string) : string :=
  if JS.startsWith mimetype_ "image/" then "images"
  else if JS.startsWith mimetype_ "audio/" then "audio"
  else if String.eqb mimetype_ "application/pdf" || JS.str_includes mimetype_ "word"
  then "resumes"
  else "documents".

(** The template literal [`${hash}`] on a property that may be undefined. *)
Definition hash_text (file : File) : string :=
  match hash file with
  | Some h => h
  | None => "undefined"
  end.

Definition finalPathOf (file : File) : string :=
  let extension := Path.extname (originalname file) in
  let finalFilename := hash_text file +:+ extension in
  let finalDir := Path.join uploadDir (subdirOf (mimetype file)) in
  Path.join finalDir finalFilename.

Definition moveFileToFinalLocation (file : File) : M string :=
  let finalPath_ := finalPathOf file in
  do present <- existsSync finalPath_ ;
  exec (if negb present then renameSync (path file) finalPath_
        else unlinkSync (path file)) ;
  ret finalPath_.

(** [validateFileContent] as a step of the pipeline. *)
Definition validateFileContentM (file : File) : M bool :=
  do fs <- get_fs ;
  let ok := validateFileContent fs file in
  exec emit (EvContentChecked (path file) ok) ; ret ok.

(** The body of the [for] loop of [processUploadedFiles]; the files come
    back with [hash] and [finalPath] attached. *)
Fixpoint processFiles (files : list File) : M (list File) :=
  match files with
  | [] => ret []
  | file :: rest =>
      do h <- generateFileHash (path file) ;
      let file1 := set_hash h file in
      do isValidContent <- validateFileContentM file1 ;
      if negb isValidContent then
        throw (ValidationException (MsgInvalidContent (originalname file1)))
      else
        do newPath <- moveFileToFinalLocation file1 ;
        let file2 := set_finalPath newPath file1 in
        do rest' <- processFiles rest ;
        ret (file2 :: rest')
  end.

(** [req.files]: an array, or an object from field names to arrays (listed
    in the order of [Object.values]). *)
Inductive ReqFiles :=
| FilesArray (l : list File)
| FilesByField (m : list (string * list File)).

Record FileMetadata := {
  md_originalName : string;
  md_path : string;
  md_size : option Z;
  md_mimetype : string;
  md_extension : string;
  md_hash : string }.

Record Request := {
  req_file : option File;
  req_files : option ReqFiles;
  fileMetadata : option (list FileMetadata) }.

Definition getAllFiles (req : Request) : list File :=
  ((match req_file req with Some f => [f] | None => [] end) ++
   (match req_files req with
    | Some (FilesArray l) => l
    | Some (FilesByField m) => concat (map snd m)
    | None => []
    end))%list.

Definition processUploadedFiles (req : Request) : M (list File) :=
  processFiles (getAllFiles req).

(** The file objects are shared between [req] and the array
    [getAllFiles] returns: what the loop attaches shows in [req]. This puts
    the processed files back where [getAllFiles] read them. *)
Fixpoint regroup (m : list (string * list File)) (files : list File)
    : list (string * list File) :=
  match m with
  | [] => []
  | (k, l) :: m' => (k, firstn (length l) files) :: regroup m' (skipn (length l) files)
  end.

Definition withFiles (req : Request) (files : list File) : Request :=
  let rest := match req_file req with Some _ => tail files | None => files end in
  {| req_file := match req_file req with Some _ => head files | None => None end;
     req_files := match req_files req with
                  | Some (FilesArray _) => Some (FilesArray rest)
                  | Some (FilesByField m) => Some (FilesByField (regroup m rest))
                  | None => None
                  end;
     fileMetadata := fileMetadata req |}.

(** A JavaScript number that is an integer, or NaN ([None]). *)
Definition js_add (a b : option Z) : option Z :=
  match a, b with
  | Some x, Some y => Some (x + y)
  | _, _ => None
  end.

Definition js_gt (a : option Z) (b : Z) : bool :=
  match a with
  | Some x => b <? x
  | None => false
  end.

Definition sum_sizes (init : option Z) (l : list File) : option Z :=
  fold_left (fun sum file => js_add sum (file_size file)) l init.

Definition calculateTotalSize (files : ReqFiles) : option Z :=
  match files with
  | FilesArray l => sum_sizes (Some 0) l
  | FilesByField m =>
      fold_left (fun totalSize fileArray =>
                   js_add totalSize (sum_sizes (Some 0) fileArray))
                (map snd m) (Some 0)
  end.

Definition extractFileMetadata (files : list File) : list FileMetadata :=
  map (fun file =>
         {| md_originalName := originalname file;
            md_path := match finalPath file with
                       | Some p => if String.eqb p "" then path file else p
                       | None => path file
                       end;
            md_size := file_size file;
            md_mimetype := mimetype file;
            md_extension := JS.toLowerCase (Path.extname (originalname file));
            md_hash := match hash file with Some h => h | None => "" end |})
      files.

(** The loop of [cleanupTempFiles]. *)
Fixpoint cleanupFiles (files : list File) : M unit :=
  match files with
  | [] => ret tt
  | file :: rest =>
      exec try_catch
             (do present <- existsSync (path file) ;
              if present then unlinkSync (path file) else ret tt)
             (fun _ => ret tt) ;
      cleanupFiles rest
  end.

Definition cleanupTempFiles (req : Request) : M unit :=
  cleanupFiles (getAllFiles req).

Definition handleMulterError (code : MulterCode) (field : string) : Exn :=
  match code with
  | LIMIT_FILE_SIZE => ValidationException MsgFileTooLarge
  | LIMIT_FILE_COUNT => ValidationException MsgTooManyFiles
  | LIMIT_FIELD_KEY => ValidationException MsgFieldNameTooLong
  | LIMIT_FIELD_VALUE => ValidationException MsgFieldValueTooLong
  | LIMIT_FIELD_COUNT => ValidationException MsgTooManyFields
  | LIMIT_UNEXPECTED_FILE => ValidationException (MsgUnexpectedField field)
  | _ => ValidationException (MsgUploadError (MsgMulter code))
  end.

(** How a middleware ends: [next()], [next(error)], or a response sent. *)
Inductive Outcome :=
| Next (req : Request)
| NextError (e : Exn)
| Response (status : Z).

(** A number used as a condition: [undefined] and [0] are falsy. *)
Definition truthy (n : option Z) : bool :=
  match n with
  | Some x => negb (x =? 0)
  | None => false
  end.

(** The callback [wrapMulter] hands to multer: [error] is what multer
    reports, [req] is the request as multer left it. *)
Definition wrapMulter_callback (maxTotalSize : option Z) (error : option Exn)
    (req : Request) : M Outcome :=
  match error with
  | Some err =>
      exec cleanupTempFiles req ;
      match err with
      | MulterError code field => ret (NextError (handleMulterError code field))
      | _ => ret (NextError (ValidationException (MsgUploadFailed (message err))))
      end
  | None =>
      try_catch
        (let oversize :=
           match maxTotalSize, req_files req with
           | Some limit, Some files =>
               truthy maxTotalSize && js_gt (calculateTotalSize files) limit
           | _, _ => false
           end in
         if oversize then
           exec cleanupTempFiles req ;
           ret (NextError (ValidationException
                  (MsgTotalSizeExceeded (match maxTotalSize with Some l => l | None => 0 end))))
         else
           do files <- processUploadedFiles req ;
           let req' := withFiles req files in
           ret (Next {| req_file := req_file req'; req_files := req_files req';
                        fileMetadata := Some (extractFileMetadata (getAllFiles req')) |}))
        (fun processingError =>
           exec cleanupTempFiles req ; ret (NextError processingError))
  end.

(** The loop of [antivirusScan]. *)
Fixpoint scanFiles (req : Request) (files : list File) : M Outcome :=
  match files with
  | [] => ret (Next req)
  | file :: rest =>
      do fs <- get_fs ;
      let isSafe := performAntivirusScan fs file in
      exec emit (EvScanned (path file) isSafe) ;
      if negb isSafe then
        exec cleanupTempFiles req ; ret (Response 400)
      else scanFiles req rest
  end.

Definition antivirusScan (req : Request) : M Outcome :=
  try_catch (scanFiles req (getAllFiles req))
            (fun error => exec cleanupTempFiles req ; ret (NextError error)).

(* ===================================================================== *)
(** ** multer, as the middleware configures it *)
(* ===================================================================== *)

(** The multer library and its multipart parser, busboy, are not part of
    the repository; this section models the contract the middleware relies
    on.

    busboy hands multer the file parts of the body one after the other,
    each with its field name, the base name of the filename the client sent
    and the media type of the part in lower case. It counts every file
    part, also one without a name, against [limits.files]. multer then
    skips a part without filename, checks the per-field count of the upload
    strategy, and calls [fileFilter] on the part's declared data (at that
    point the file object has [fieldname], [originalname] and [mimetype]
    only). An accepted file goes to the storage engine, which writes the
    content under [destination/filename] and sets [path] and [size], unless
    the content is longer than [limits.fileSize]. On the first error multer
    waits for the writes under way, removes the files it has stored and
    reports that error to its callback; the model stops reading there, as
    nothing multer still receives afterwards stays on disk or reaches the
    pipeline.

    The writes are asynchronous: when a file is on disk relative to the
    filter runs of later parts is not determined, and nothing of the
    pipeline can observe it before multer calls back. The model writes each
    file at once; the log records the filter runs, and for a body received
    without error the files multer hands over when it calls back. *)

(** One part of the body that busboy takes for a file: the field name, the
    filename the client sent (the value of the [filename] parameter of the
    part's [Content-Disposition], empty when busboy finds none), the media
    type it declared (type and subtype of the part's [Content-Type],
    [text/plain] when busboy finds none), and the content. A body with a part header
    busboy cannot parse, one with a raw control character for instance,
    makes busboy fail before any filter runs and is not a list of parts.
    [part_timestamp] and [part_random] are the [Date.now()] and
    [crypto.randomBytes(6)] (in hex) the storage engine draws when it names
    the file. *)
Record Part := {
  part_fieldname : string;
  part_filename : string;
  part_mimetype : string;
  part_content : list byte;
  part_timestamp : string;
  part_random : string }.

Record Limits := { fileSize : Z; files : Z }.

Record MulterOptions := {
  storage : string;                       (* [createStorage(subdir)] *)
  fileFilter : File -> FilterResult;
  limits : Limits }.

Definition isSeparator (c : ascii) : bool := Ascii.eqb c "/" || Ascii.eqb c "\".

(** What follows the last slash or backslash of [s], after [cur]. *)
Fixpoint lastSegment (s cur : string) : string :=
  match s with
  | EmptyString => cur
  | String c s' =>
      if isSeparator c then lastSegment s' EmptyString
      else lastSegment s' (cur +:+ String c EmptyString)
  end.

(** busboy's [basename]: what follows the last slash or backslash, and
    nothing when that is a dot or two dots. *)
Definition basename (p : string) : string :=
  let name := lastSegment p EmptyString in
  if String.eqb name ".." || String.eqb name "." then "" else name.

(** The [filename] and [mimeType] of busboy's [file] event, which become
    [file.originalname] and [file.mimetype]. *)
Definition deliveredName (part : Part) : string := basename (part_filename part).
Definition deliveredType (part : Part) : string := JS.toLowerCase (part_mimetype part).

(** [createStorage]: [destination] joined with [filename]. *)
Definition storagePath (subdir : string) (part : Part) : string :=
  let extension := JS.toLowerCase (Path.extname (deliveredName part)) in
  let filename := part_timestamp part +:+ "_" +:+ part_random part +:+ extension in
  Path.join (Path.join uploadDir subdir) filename.

(** The file object the filter is called with. *)
Definition fileInfo (part : Part) : File :=
  {| fieldname := part_fieldname part; originalname := deliveredName part;
     mimetype := deliveredType part; file_size := None; path := "";
     hash := None; finalPath := None |}.

(** The file object once the storage engine is done. *)
Definition storedFile (subdir : string) (part : Part) : File :=
  {| fieldname := part_fieldname part; originalname := deliveredName part;
     mimetype := deliveredType part;
     file_size := Some (Z.of_nat (length (part_content part)));
     path := storagePath subdir part; hash := None; finalPath := None |}.

Fixpoint removeUploadedFiles (stored : list File) : M unit :=
  match stored with
  | [] => ret tt
  | f :: rest =>
      do fs <- get_fs ;
      exec put_fs (delete (path f) fs) ;
      removeUploadedFiles rest
  end.

Fixpoint decrement (filesLeft : list (string * Z)) (field : string) : list (string * Z) :=
  match filesLeft with
  | [] => []
  | (k, n) :: l =>
      if String.eqb k field then (k, n - 1) :: l else (k, n) :: decrement l field
  end.

(** [seen] is busboy's count of the file parts so far, [stored] the files
    written so far. *)
Fixpoint multer_receive (opts : MulterOptions) (filesLeft : list (string * Z))
    (seen : Z) (stored : list File) (parts : list Part) : M (option Exn * list File) :=
  let abort e := exec removeUploadedFiles stored ; ret (Some e, stored) in
  match parts with
  | [] => ret (None, stored)
  | part :: rest =>
      if seen =? files (limits opts) then
        abort (MulterError LIMIT_FILE_COUNT "")
      else if String.eqb (deliveredName part) "" then
        multer_receive opts filesLeft (seen + 1) stored rest
      else if negb (0 <? match assoc filesLeft (part_fieldname part) with
                         | Some n => n
                         | None => 0
                         end) then
        abort (MulterError LIMIT_UNEXPECTED_FILE (part_fieldname part))
      else
        match fileFilter opts (fileInfo part) with
        | Reject e =>
            exec emit (EvFiltered (deliveredName part) false) ; abort e
        | Accept =>
            exec emit (EvFiltered (deliveredName part) true) ;
            if fileSize (limits opts) <? Z.of_nat (length (part_content part)) then
              abort (MulterError LIMIT_FILE_SIZE (part_fieldname part))
            else
              let file := storedFile (storage opts) part in
              do fs <- get_fs ;
              exec put_fs (<[path file := part_content part]> fs) ;
              multer_receive opts (decrement filesLeft (part_fieldname part))
                             (seen + 1) (stored ++ [file])%list rest
        end
  end.

(** multer calls back: without error, the files are stored and attached to
    the request. *)
Fixpoint handOver (files : list File) : M unit :=
  match files with
  | [] => ret tt
  | f :: rest => exec emit (EvStored (originalname f) (path f)) ; handOver rest
  end.

Definition multer_done (r : option Exn * list File) : M unit :=
  match fst r with
  | None => handOver (snd r)
  | Some _ => ret tt
  end.

(** [req.files] of the [fields] strategy: the files by field name, in
    order of first appearance. *)
Fixpoint appendFile (m : list (string * list File)) (f : File) : list (string * list File) :=
  match m with
  | [] => [(fieldname f, [f])]
  | (k, l) :: m' =>
      if String.eqb k (fieldname f) then (k, (l ++ [f])%list) :: m'
      else (k, l) :: appendFile m' f
  end.

Definition emptyRequest : Request :=
  {| req_file := None; req_files := None; fileMetadata := None |}.

(** [multer(opts).single(name)]. *)
Definition multer_single (opts : MulterOptions) (name : string) (parts : list Part)
    : M (option Exn * Request) :=
  do r <- multer_receive opts [(name, 1)] 0 [] parts ;
  exec multer_done r ;
  ret (fst r, {| req_file := head (snd r); req_files := None; fileMetadata := None |}).

(** The counts of [fields]: [filesLeft[field.name] = field.maxCount] for
    each field in turn, so the last entry of a name is the one that counts. *)
Fixpoint setCount (filesLeft : list (string * Z)) (field : string) (n : Z)
    : list (string * Z) :=
  match filesLeft with
  | [] => [(field, n)]
  | (k, m) :: l =>
      if String.eqb k field then (k, n) :: l else (k, m) :: setCount l field n
  end.

Definition fieldCounts (fields : list (string * Z)) : list (string * Z) :=
  fold_left (fun filesLeft field => setCount filesLeft (fst field) (snd field)) fields [].

(** [multer(opts).fields(fields)]. *)
Definition multer_fields (opts : MulterOptions) (fields : list (string * Z))
    (parts : list Part) : M (option Exn * Request) :=
  do r <- multer_receive opts (fieldCounts fields) 0 [] parts ;
  exec multer_done r ;
  ret (fst r, {| req_file := None;
                 req_files := Some (FilesByField (fold_left appendFile (snd r) []));
                 fileMetadata := None |}).

(* ===================================================================== *)
(** ** The upload middlewares *)
(* ===================================================================== *)

Definition wrapMulter (upload : list Part -> M (option Exn * Request))
    (maxTotalSize : option Z) (parts : list Part) : M Outcome :=
  try_catch
    (do r <- upload parts ; wrapMulter_callback maxTotalSize (fst r) (snd r))
    (fun error => ret (NextError error)).

Definition singleOptions (subdir : string) (config : FileTypeConfig) : MulterOptions :=
  {| storage := subdir;
     fileFilter := createFileFilter config;
     limits := {| fileSize := maxSize config; files := 1 |} |}.

Definition uploadResume : list Part -> M Outcome :=
  wrapMulter (multer_single (singleOptions "resumes" resumeConfig) "resume") None.


Definition uploadAudio : list Part -> M Outcome :=
  wrapMulter (multer_single (singleOptions "audio" audioConfig) "audio") None.

(** [Math.max(...l)] for a non-empty [l]. *)
Definition Math_max (l : list Z) : Z :=
  match l with
  | [] => 0
  | x :: l' => fold_left Z.max l' x
  end.

Definition multipleOptions (fieldNames : list FieldSpec) : MulterOptions :=
  {| storage := "temp";
     fileFilter := multipleFileFilter fieldNames;
     limits := {| fileSize := Math_max (map (fun c => maxSize (snd c)) FILE_CONFIGS);
                  files := fold_left (fun sum field => sum + maxCount field) fieldNames 0 |} |}.


Definition uploadMultiple (fieldNames : list FieldSpec) (maxTotalSize : Z)
    : list Part -> M Outcome :=
  wrapMulter
    (multer_fields (multipleOptions fieldNames)
                   (map (fun field => (fs_name field, maxCount field)) fieldNames))
    (Some maxTotalSize).

(* ===================================================================== *)
(** ** The disk capacity guard *)
(* ===================================================================== *)

(** The white space of [\s] and of [parseInt], among 8-bit code units. *)
Definition isWhiteSpace (c : ascii) : bool :=
  let n := JS.code c in
  (((9 <=? n) && (n <=? 13)) || (n =? 32) || (n =? 160))%N.

Definition isDigit (c : ascii) : bool :=
  let n := JS.code c in ((48 <=? n) && (n <=? 57))%N.

(** The value of a digit in the given radix. *)
Definition digitValue (radix : Z) (c : ascii) : option Z :=
  let n := Z.of_N (JS.code c) in
  let v := if (48 <=? n) && (n <=? 57) then n - 48
           else if (97 <=? n) && (n <=? 122) then n - 87
           else if (65 <=? n) && (n <=? 90) then n - 55
           else 99 in
  if v <? radix then Some v else None.

Fixpoint skipWhiteSpace (s : string) : string :=
  match s with
  | String c s' => if isWhiteSpace c then skipWhiteSpace s' else s
  | EmptyString => s
  end.

(** The longest prefix of digits, as a number; [None] when it is empty. *)
Fixpoint parseDigits (radix : Z) (s : string) (acc : option Z) : option Z :=
  match s with
  | String c s' =>
      match digitValue radix c with
      | Some v => parseDigits radix s' (Some (radix * (match acc with Some a => a | None => 0 end) + v))
      | None => acc
      end
  | EmptyString => acc
  end.

(** [parseInt(s)] without a radix; [None] is NaN. *)
Definition parseInt (s : string) : option Z :=
  let s1 := skipWhiteSpace s in
  let '(sign, s2) :=
    match s1 with
    | String "-" r => (-1, r)
    | String "+" r => (1, r)
    | _ => (1, s1)
    end in
  let '(radix, s3) :=
    match s2 with
    | String "0" (String "x" r) => (16, r)
    | String "0" (String "X" r) => (16, r)
    | _ => (10, s2)
    end in
  match parseDigits radix s3 None with
  | Some n => Some (sign * n)
  | None => None
  end.

(** [s.split(/\s+/)]. *)
Fixpoint splitWhite_aux (s : string) (cur : string) (inGap : bool) : list string :=
  match s with
  | EmptyString => [cur]
  | String c s' =>
      if isWhiteSpace c then
        if inGap then splitWhite_aux s' cur true
        else cur :: splitWhite_aux s' EmptyString true
      else splitWhite_aux s' (cur +:+ String c EmptyString) false
  end.

Definition splitWhite (s : string) : list string := splitWhite_aux s EmptyString false.

(** [s.match(/(\d+)/g)]: the maximal runs of digits; [None] is [null]. *)
Fixpoint digitRuns (s : string) (cur : string) : list string :=
  match s with
  | EmptyString => if String.eqb cur "" then [] else [cur]
  | String c s' =>
      if isDigit c then digitRuns s' (cur +:+ String c EmptyString)
      else if String.eqb cur "" then digitRuns s' ""
      else cur :: digitRuns s' ""
  end.

Definition matchDigits (s : string) : option (list string) :=
  match digitRuns s "" with
  | [] => None
  | l => Some l
  end.

(** A string used as a condition: [undefined] and the empty string are
    falsy. *)
Definition truthyString (s : option string) : bool :=
  match s with
  | Some x => negb (String.eqb x "")
  | None => false
  end.

Definition newline : ascii := ascii_of_N 10.

(** What [child_process.exec] hands to its callback. *)
Inductive ExecResult :=
| ExecError
| ExecOutput (stdout : string).

(** [getFreeDiskSpace]: [Ok] is the resolved number ([None] for NaN),
    [Throw] the rejection. Numbers are exact integers here; the code
    computes in double precision, which is exact as long as the integers
    read and the threshold in gigabytes are safe integers (below 2^53 in
    absolute value): the products by 1024 only shift the exponent. *)
Definition getFreeDiskSpace (isWindows : bool) (r : ExecResult) : Res (option Z) :=
  match r with
  | ExecError => Throw (Error MsgCommandFailed)
  | ExecOutput stdout =>
      if isWindows then
        let lines := JS.split newline stdout in
        let lastLine :=
          if 2 <=? Z.of_nat (length lines) then nth_error lines (length lines - 2)
          else None in
        if negb (truthyString lastLine) then Throw (Error MsgDiskParse)
        else
          match matchDigits (match lastLine with Some l => l | None => "" end) with
          | None => Throw (Error MsgDiskParse)
          | Some matches =>
              if (Z.of_nat (length matches) <? 3) || negb (truthyString (nth_error matches 2))
              then Throw (Error MsgDiskParse)
              else Ok (parseInt (match nth_error matches 2 with Some m => m | None => "" end))
          end
      else
        let lines := JS.split newline stdout in
        let dataLine := nth_error lines 1 in
        if negb (truthyString dataLine) then Throw (Error MsgDiskParse)
        else
          let parts := splitWhite (match dataLine with Some l => l | None => "" end) in
          if (Z.of_nat (length parts) <? 4) || negb (truthyString (nth_error parts 3))
          then Throw (Error MsgDiskParse)
          else
            Ok (match parseInt (match nth_error parts 3 with Some m => m | None => "" end) with
                | Some kb => Some (kb * 1024)
                | None => None
                end)
  end.

(** What the guard sees of the host: whether [fs.statSync(uploadDir)]
    succeeds, the platform, and the outcome of the [df] or [dir] command. *)
Record Host := {
  uploadDirExists : bool;
  isWindows : bool;
  execResult : ExecResult }.

(** [free < minFreeSpaceBytes]: false when [free] is NaN. *)
Definition js_lt (a : option Z) (b : Z) : bool :=
  match a with
  | Some x => x <? b
  | None => false
  end.

(** The [try] block of [checkDiskSpace]. *)
Definition checkDiskSpace_try (minFreeSpaceGB : Z) (host : Host) (req : Request) : Res Outcome :=
  if negb (uploadDirExists host) then Throw (FsError uploadDir)
  else
    match getFreeDiskSpace (isWindows host) (execResult host) with
    | Throw e => Throw e
    | Ok free =>
        let minFreeSpaceBytes := minFreeSpaceGB * 1024 * 1024 * 1024 in
        if js_lt free minFreeSpaceBytes then Ok (Response 507)
        else Ok (Next req)
    end.

Definition checkDiskSpace (minFreeSpaceGB : Z) (host : Host) (req : Request) : Outcome :=
  match checkDiskSpace_try minFreeSpaceGB host req with
  | Ok o => o
  | Throw _ => Next req
  end.

(* ===================================================================== *)
(** ** The job application route *)
(* ===================================================================== *)

(** The middlewares of the [ValidationMiddleware] class in the chain look
    at the fields of the body only: they read and replace [req.body], which
    the pipeline does not use, and touch neither the files of the request
    nor the disk. Each one ends in [next()], in [next(error)], or in a
    response of its own: 429 for [rateLimitByField], 400 for [validateXSS].
    What the body makes of them is a parameter of the route. *)
Inductive BodyCheck :=
| BodyPass                       (* next() *)
| BodyError (e : Exn)            (* next(error) *)
| BodyResponse (status : Z).     (* res.status(status).json(...) *)

Record Body := {
  rateLimit : BodyCheck;         (* [rateLimitByField('email', 3, 3600000)] *)
  validation : BodyCheck;        (* [validate(FormValidator.jobApplicationSchema, 'body')] *)
  xss : BodyCheck;               (* [validateXSS()] *)
  sanitization : BodyCheck }.    (* [sanitize('body')] *)

Definition bodyCheck (check : BodyCheck) (next : M Outcome) : M Outcome :=
  match check with
  | BodyPass => next
  | BodyError e => ret (NextError e)
  | BodyResponse status => ret (Response status)
  end.

(** The handlers of [router.post('/job-application', ...)], in the order
    of [createFormRoutes]: [rateLimitByField], [uploadResume], [validate],
    [validateXSS], [sanitize], [checkDiskSpace(2)], [antivirusScan]; [Next]
    is the call of the controller. The router mounts
    [asyncHandler(() => {})] in front of all its routes, a layer that never
    calls [next()]: this is the chain as [router.post] lists it, from its
    first handler on. *)
Definition jobApplication (body : Body) (host : Host) (parts : list Part) : M Outcome :=
  bodyCheck (rateLimit body)
    (do r <- uploadResume parts ;
     match r with
     | Next req =>
         bodyCheck (validation body)
           (bodyCheck (xss body)
              (bodyCheck (sanitization body)
                 (match checkDiskSpace 2 host req with
                  | Next req' => antivirusScan req'
                  | o => ret o
                  end)))
     | o => ret o
     end).

(** [POST /message/voice]: [uploadAudio] is the only file middleware. *)
Definition voiceMessage (parts : list Part) : M Outcome := uploadAudio parts.

Definition initialState (fs : FileSystem) : State := {| st_fs := fs; st_log := [] |}.

(* ===================================================================== *)
(** ** The sweep of old temporary files *)
(* ===================================================================== *)

Definition tempDir : string := Path.join uploadDir "temp".

(** What [cleanupOldFiles] sees of its surroundings: whether
    [Math.random() > 0.1] came out true, [Date.now()], whether the temporary
    directory exists, what [fs.readdirSync] lists in it, and the modification
    time [fs.statSync] reports for a path ([None]: it throws). Times are in
    milliseconds. *)
Record Sweep := {
  drawSkips : bool;
  now : Z;
  tempDirExists : bool;
  entries : list string;
  mtime : string -> option Z }.

(** The loop over the directory listing. *)
Fixpoint sweepFiles (now_ maxAge : Z) (mtime_ : string -> option Z) (files : list string)
    : M unit :=
  match files with
  | [] => ret tt
  | file :: rest =>
      let filePath := Path.join tempDir file in
      match mtime_ filePath with
      | None => throw (FsError filePath)
      | Some modified =>
          exec (if maxAge <? now_ - modified
                then try_catch (unlinkSync filePath) (fun _ => ret tt)
                else ret tt) ;
          sweepFiles now_ maxAge mtime_ rest
      end
  end.

(** [cleanupOldFiles(maxAgeHours)]: nine requests in ten skip the sweep; a
    failing [unlinkSync] is ignored, a failing [statSync] ends the loop in
    the outer [catch], which logs and calls [next()] as well. *)
Definition cleanupOldFiles (maxAgeHours : Z) (env : Sweep) (req : Request) : M Outcome :=
  try_catch
    (if drawSkips env then ret (Next req)
     else
       let maxAge := maxAgeHours * 60 * 60 * 1000 in
       exec (if tempDirExists env
             then sweepFiles (now env) maxAge (mtime env) (entries env)
             else ret tt) ;
       ret (Next req))
    (fun _ => ret (Next req)).

(* ===================================================================== *)
(** ** Vocabulary of the properties, and sample inputs *)
(* ===================================================================== *)

Definition sample_pdf : File :=
  {| fieldname := "resume"; originalname := "cv.pdf"; mimetype := "application/pdf";
     file_size := Some 5; path := "uploads/resumes/1700000000000_a1b2c3d4e5f6.pdf";
     hash := None; finalPath := None |}.

Definition sample_pdf_fs : FileSystem :=
  {[ "uploads/resumes/1700000000000_a1b2c3d4e5f6.pdf" := [x25; x50; x44; x46; x2d] ]}.

(** The characters the pattern of [dangerousChars] lists: the code units
    0x00 to 0x1f, and less-than, greater-than, colon, double quote, slash,
    backslash, bar, question mark and star. DEL (0x7f) and the code units
    0x80 to 0x9f are not among them. *)
Definition listedChar (c : ascii) : Prop :=
  (JS.code c <= 31)%N \/
  In c ["<"; ">"; ":"; ascii_of_N 34; "/"; "\"; "|"; "?"; "*"]%char.

Definition hasListedChar (name : string) : Prop :=
  exists c, In c (list_ascii_of_string name) /\ listedChar c.

(** The name has more than one dot-delimited suffix and one of them,
    compared without case, is on the executable denylist. *)
Definition hasExecutableSuffix (name : string) : Prop :=
  let suffixes := tail (JS.split "." name) in
  (1 < length suffixes)%nat /\
  exists suffix, In suffix suffixes /\
                 In ("." +:+ JS.toLowerCase suffix) suspiciousExtensions.

Definition unsafeName (name : string) : Prop :=
  hasListedChar name \/ (255 < String.length name)%nat \/ hasExecutableSuffix name.

(** The errors of [performSecurityChecks] that come from the name. *)
Definition isNameError (e : SecurityError) : Prop :=
  e = DangerousChars \/ e = NameTooLong \/ e = ExecutableExtension.

Definition sample_unsafe : File :=
  {| fieldname := "resume"; originalname := "invoice.exe.pdf";
     mimetype := "application/pdf"; file_size := None; path := "";
     hash := None; finalPath := None |}.

Definition sample_missing : File :=
  {| fieldname := "resume"; originalname := "cv.pdf"; mimetype := "application/pdf";
     file_size := Some 5; path := "uploads/resumes/1700000000001_000000000000.pdf";
     hash := None; finalPath := None |}.

Definition sample_df_output : string :=
  "Filesystem     1K-blocks     Used Available Use% Mounted on" +:+ String newline
  ("/dev/sda1       41151808 40575904    462524  99% /" +:+ String newline "").

Definition sample_low_disk : Host :=
  {| uploadDirExists := true; isWindows := false;
     execResult := ExecOutput sample_df_output |}.

Definition sample_garbled_probe : Host :=
  {| uploadDirExists := true; isWindows := false;
     execResult := ExecOutput "df: uploads: No such file or directory" |}.

Definition sample_dir_output : string :=
  " Directory of C:\app\uploads" +:+ String newline
  ("               3 File(s)         18432 bytes" +:+ String newline
  ("               2 Dir(s)    536870912 bytes free" +:+ String newline "")).

Definition sample_windows : Host :=
  {| uploadDirExists := true; isWindows := true;
     execResult := ExecOutput sample_dir_output |}.

(** The file system after deleting the given paths, one after the other. *)
Definition deleteAll (paths : list string) (fs : FileSystem) : FileSystem :=
  fold_left (fun m p => delete p m) paths fs.

(** The middleware did not hand the request on. *)
Definition rejected (o : Outcome) : Prop :=
  match o with
  | Next _ => False
  | _ => True
  end.

(** The sum of the sizes of the files the request carries. *)
Definition totalOf (req : Request) : option Z :=
  match req_files req with
  | Some files => calculateTotalSize files
  | None => None
  end.

Definition sample_txt (name p : string) (size : Z) : File :=
  {| fieldname := "attachment"; originalname := name; mimetype := "text/plain";
     file_size := Some size; path := p; hash := None; finalPath := None |}.

Definition sample_batch : Request :=
  {| req_file := None;
     req_files := Some (FilesByField
       [("attachment", [sample_txt "a.txt" "uploads/temp/1_aa.txt" 3;
                        sample_txt "b.txt" "uploads/temp/2_bb.txt" 4])]);
     fileMetadata := None |}.

Definition sample_batch_state : State :=
  initialState (<["uploads/temp/1_aa.txt" := [x61; x62; x63]]>
               (<["uploads/temp/2_bb.txt" := [x61; x62; x63; x64]]> ∅)).

Definition sample_part (field name mime : string) (content : list byte) (random : string) : Part :=
  {| part_fieldname := field; part_filename := name; part_mimetype := mime;
     part_content := content; part_timestamp := "1700000000000"; part_random := random |}.

Definition sample_fields : list FieldSpec :=
  [ {| fs_name := "attachment"; maxCount := 2; fs_type := "document" |} ].

Definition sample_parts : list Part :=
  [ sample_part "attachment" "a.txt" "text/plain" [x61; x62; x63] "aaaaaaaaaaaa";
    sample_part "attachment" "b.txt" "text/plain" [x61; x62; x63; x64] "bbbbbbbbbbbb" ].

(** Where [moveFileToFinalLocation] puts a file of the given declared type
    and name whose content is [content]: the category directory joined
    with the content hash followed by the extension of the original name. *)
Definition contentAddress (mimetype_ name : string) (content : list byte) : string :=
  Path.join (Path.join uploadDir (subdirOf mimetype_))
            (SHA256.sha256 content +:+ Path.extname name).

Definition sample_doc_content : list byte := [xd0; xcf; x11; xe0; xa1; xb1; x1a; xe1].

Definition sample_doc (name random : string) : Part :=
  sample_part "resume" name "application/msword" sample_doc_content random.

Definition sample_temp (p : string) : File :=
  {| fieldname := "resume"; originalname := "cv.doc"; mimetype := "application/msword";
     file_size := Some 8; path := p; hash := None; finalPath := None |}.

Definition sample_two_temps : State :=
  initialState (<["uploads/resumes/1_aa.doc" := sample_doc_content]>
               (<["uploads/resumes/2_bb.doc" := sample_doc_content]> ∅)).

(** What has to come directly before an event in the log: a content check
    directly follows the hash of the same file. *)
Definition follows (prev : option Event) (e : Event) : Prop :=
  match e with
  | EvContentChecked p _ => prev = Some (EvHashed p)
  | _ => True
  end.

Fixpoint chained (prev : option Event) (log : list Event) : Prop :=
  match log with
  | [] => True
  | e :: rest => follows prev e /\ chained (Some e) rest
  end.

(** The runs of the file filter. *)
Definition filterEvent (e : Event) : Prop :=
  match e with
  | EvFiltered _ _ => True
  | _ => False
  end.

(** What multer reports when it calls back with [files]. *)
Definition handOverLog (files : list File) : list Event :=
  map (fun f => EvStored (originalname f) (path f)) files.

(** The events of the multer stage. *)
Definition multerEvent (e : Event) : Prop :=
  match e with
  | EvFiltered _ _ | EvStored _ _ => True
  | _ => False
  end.

(** The events of the processing of the files under [paths]. *)
Definition processingEvent (paths : list string) (e : Event) : Prop :=
  match e with
  | EvHashed p => In p paths
  | EvContentChecked _ _ | EvRenamed _ _ | EvUnlinked _ => True
  | _ => False
  end.

(** The events of the cleanup. *)
Definition cleanupEvent (e : Event) : Prop :=
  match e with
  | EvUnlinked _ => True
  | _ => False
  end.

(** Every file multer hands over was accepted by the file filter before. *)
Definition handedOverAccepted (new : list Event) : Prop :=
  forall l1 name p l2, new = (l1 ++ EvStored name p :: l2)%list ->
    In (EvFiltered name true) l1.

(** The order of the stages in the events of one request: a file is
    hashed only after multer has handed it over, stored; a file multer
    hands over was accepted by the file filter before; the content check of
    a file directly follows its hash; and once the filter has rejected a
    file, nothing is hashed. *)
Definition hashOrdering (new : list Event) : Prop :=
  (forall l1 p l2, new = (l1 ++ EvHashed p :: l2)%list ->
     exists name, In (EvStored name p) l1) /\
  handedOverAccepted new /\
  (forall l1 p ok l2, new = (l1 ++ EvContentChecked p ok :: l2)%list ->
     exists l0, l1 = (l0 ++ [EvHashed p])%list) /\
  (forall name, In (EvFiltered name false) new -> forall p, ~ In (EvHashed p) new).

(** The scanner runs on a file after its hash, and nothing is hashed once
    the scanner has started. *)
Definition scanAfterHash (new : list Event) : Prop :=
  forall l1 p safe l2, new = (l1 ++ EvScanned p safe :: l2)%list ->
    In (EvHashed p) l1 /\ forall q, ~ In (EvHashed q) l2.

(** The events a computation appends to the log satisfy [G]. *)
Definition emits {A} (G : list Event -> Prop) (m : M A) : Prop :=
  forall st, exists new,
    st_log (snd (m st)) = (st_log st ++ new)%list /\ G new.

Definition multerLog (new : list Event) : Prop :=
  chained None new /\ Forall multerEvent new.

Definition processingLog (paths : list string) (new : list Event) : Prop :=
  chained None new /\ Forall (processingEvent paths) new.

Definition cleanupLog (new : list Event) : Prop := Forall cleanupEvent new.

(** The part is longer than the limit allows. *)
Definition oversize (limit : Z) (part : Part) : Prop :=
  deliveredName part <> "" /\ limit < Z.of_nat (length (part_content part)).

Definition multerStage (limit : Z) (upload : list Part -> M (option Exn * Request)) : Prop :=
  forall parts st,
  exists err req st1 new,
    upload parts st = (Ok (err, req), st1) /\
    st_log st1 = (st_log st ++ new)%list /\
    multerLog new /\
    handedOverAccepted new /\
    (err = None ->
     forall f, In f (getAllFiles req) -> In (EvStored (originalname f) (path f)) new) /\
    (forall name, In (EvFiltered name false) new -> err <> None) /\
    ((exists part, In part parts /\ oversize limit part) -> err <> None).

Definition scanEventOf (paths : list string) (e : Event) : Prop :=
  match e with
  | EvScanned p _ => In p paths
  | EvUnlinked _ => True
  | _ => False
  end.

Definition scanLogOf (paths : list string) (new : list Event) : Prop :=
  Forall (scanEventOf paths) new.

Definition notHashed (e : Event) : Prop :=
  match e with
  | EvHashed _ => False
  | _ => True
  end.









(** A name with DEL in it, and a filename with a directory in front. *)
Definition sample_del : File :=
  {| fieldname := "resume"; originalname := "cv" +:+ String (ascii_of_N 127) ".pdf";
     mimetype := "application/pdf"; file_size := None; path := "";
     hash := None; finalPath := None |}.

Definition sample_nested : Part :=
  sample_part "resume" "dir/cv.pdf" "application/pdf" [x25; x50; x44; x46; x2d] "999999999999".

(** The default of the body: every body middleware calls [next()]. *)
Definition bodyPasses : Body :=
  {| rateLimit := BodyPass; validation := BodyPass; xss := BodyPass;
     sanitization := BodyPass |}.

(** How a body middleware that does not pass ends the request. *)
Definition verdictOf (check : BodyCheck) (o : Outcome) : Prop :=
  match check with
  | BodyPass => False
  | BodyError e => o = NextError e
  | BodyResponse status => o = Response status
  end.



(** [Number.isSafeInteger], on integers. *)
Definition safeInteger (n : Z) : Prop := - 9007199254740992 < n < 9007199254740992.


Definition sample_empty_ogg : Part :=
  sample_part "audio" "voice.ogg" "audio/ogg" [] "dddddddddddd".

Definition sample_fake_pdf : Part :=
  sample_part "resume" "cv.pdf" "application/pdf" [x4d; x5a; x90; x00] "eeeeeeeeeeee".

Definition sample_real_pdf : Part :=
  sample_part "resume" "cv.pdf" "application/pdf" [x25; x50; x44; x46; x2d] "ffffffffffff".

Definition sample_host : Host :=
  {| uploadDirExists := true; isWindows := false;
     execResult := ExecOutput
       ("Filesystem     1K-blocks     Used Available Use% Mounted on" +:+ String newline
        ("/dev/sda1       41151808 20575904  18462524  53% /" +:+ String newline "")) |}.


(** A lower-case hexadecimal digit. *)
Definition hexChar (c : ascii) : bool :=
  let n := JS.code c in
  (((48 <=? n) && (n <=? 57)) || ((97 <=? n) && (n <=? 102)))%N.


Definition chars (s : string) : list ascii := list_ascii_of_string s.


(** The files of [req.files], whichever shape it has. *)
Definition flatten (files : ReqFiles) : list File :=
  match files with
  | FilesArray l => l
  | FilesByField m => concat (map snd m)
  end.

(** The sum of the sizes, NaN as soon as one is missing. *)
Definition sizeSum (l : list File) : option Z :=
  foldr Z.add 0 <$> mapM file_size l.

(** The aggregate guard of [wrapMulter] lets the request through. *)
Definition withinTotal (maxTotalSize : option Z) (req : Request) : Prop :=
  forall limit, maxTotalSize = Some limit -> js_gt (totalOf req) limit = false.

(** The single-file middlewares with the directory their storage writes to. *)
Definition singleUploads : list (FileTypeConfig * string) :=
  [(resumeConfig, "resumes"); (imageConfig, "images"); (audioConfig, "audio")].

Definition sample_lost : File :=
  {| fieldname := "attachment"; originalname := "lost.txt"; mimetype := "text/plain";
     file_size := Some 3; path := "uploads/temp/9_zz.txt"; hash := None; finalPath := None |}.

Definition sample_pair : Request :=
  {| req_file := None;
     req_files := Some (FilesArray [sample_txt "a.txt" "uploads/temp/1_aa.txt" 3; sample_lost]);
     fileMetadata := None |}.

Definition sample_in_place : File :=
  {| fieldname := "attachment"; originalname := "notes.txt"; mimetype := "text/plain";
     file_size := Some 1; path := "uploads/documents/0a.txt"; hash := Some "0a";
     finalPath := None |}.

(** [file] is an entry of the listing whose age is over [maxAgeHours]. *)
Definition expired (maxAgeHours : Z) (env : Sweep) (p : string) : Prop :=
  exists file modified,
    In file (entries env) /\ p = Path.join tempDir file /\
    mtime env p = Some modified /\
    maxAgeHours * 60 * 60 * 1000 < now env - modified.

Definition expiredb (maxAgeHours : Z) (env : Sweep) (file : string) : bool :=
  match mtime env (Path.join tempDir file) with
  | Some modified => maxAgeHours * 60 * 60 * 1000 <? now env - modified
  | None => false
  end.

Definition withEntries (env : Sweep) (files : list string) : Sweep :=
  {| drawSkips := drawSkips env; now := now env; tempDirExists := tempDirExists env;
     entries := files; mtime := mtime env |}.

Definition sample_sweep : Sweep :=
  {| drawSkips := false; now := 200000000; tempDirExists := true;
     entries := ["1_aa.txt"; "2_bb.txt"];
     mtime := fun p => if String.eqb p "uploads/temp/1_aa.txt" then Some 0
                       else if String.eqb p "uploads/temp/2_bb.txt" then Some 199999000
                       else None |}.

(** No character of [s] satisfies [f]; every character of [s] does. *)
Definition noneOf (f : ascii -> bool) (s : string) : Prop := JS.test_class f s = false.
Definition allOf (f : ascii -> bool) (s : string) : Prop :=
  JS.test_class (fun c => negb (f c)) s = false.

Definition isNewline (c : ascii) : bool := Ascii.eqb c newline.

(** A column of the report: not empty, no white space. *)
Definition column (s : string) : Prop := s <> "" /\ noneOf isWhiteSpace s.

(** The blanks between two columns. *)
Definition blanks (s : string) : Prop :=
  s <> "" /\ allOf isWhiteSpace s /\ noneOf isNewline s.

(** The rest of a line or of the output: empty, or led by [f]. *)
Definition ledBy (f : ascii -> bool) (s : string) : Prop :=
  match s with
  | EmptyString => True
  | String c _ => f c = true
  end.

(** Decimal digits as text and as a number. *)
Definition digitsString (ds : list Z) : string :=
  string_of_list_ascii (map (fun d => ascii_of_N (Z.to_N (48 + d))) ds).

Definition decimal (ds : list Z) : Z := fold_left (fun a d => 10 * a + d) ds 0.

Definition isDecimal (ds : list Z) : Prop :=
  ds <> [] /\ Forall (fun d => 0 <= d <= 9) ds.

(** What [df -k] prints: a header line, then a line of columns of which
    the fourth, [Available], is the decimal number [ds]. *)
Definition dfReport (stdout : string) (ds : list Z) : Prop :=
  exists header c0 b0 c1 b1 c2 b2 tail more,
    stdout = header +:+ String newline
               ((c0 +:+ b0 +:+ c1 +:+ b1 +:+ c2 +:+ b2 +:+ digitsString ds +:+ tail) +:+ more) /\
    noneOf isNewline header /\
    column c0 /\ blanks b0 /\ column c1 /\ blanks b1 /\ column c2 /\ blanks b2 /\
    isDecimal ds /\
    ledBy isWhiteSpace tail /\ noneOf isNewline tail /\
    ledBy isNewline more.

Definition isDot (c : ascii) : bool := Ascii.eqb c ".".

Definition sample_plain_exe : File :=
  {| fieldname := "resume"; originalname := "payload.exe";
     mimetype := "application/pdf"; file_size := None; path := "";
     hash := None; finalPath := None |}.

Definition sample_dotted : File :=
  {| fieldname := "resume"; originalname := "com.acme.cv.pdf";
     mimetype := "application/pdf"; file_size := None; path := "";
     hash := None; finalPath := None |}.

(* ===================================================================== *)
(** * Properties *)
(* ===================================================================== *)

(** ** Basic facts about the primitives *)

Lemma includes_In (l : list string) (x : string) :
  JS.includes l x = true <-> In x l.
Proof.
  induction l as [|y l IH]; simpl.
  - split; [discriminate | tauto].
  - rewrite orb_true_iff, IH, String.eqb_eq. tauto.
Qed.

Lemma assoc_In {A} (l : list (string * A)) k v :
  assoc l k = Some v -> In v (map snd l).
Proof.
  induction l as [|[k' v'] l IH]; simpl; [discriminate|].
  destruct (String.eqb k' k); [intros [= ->]; now left | right; auto].
Qed.

Lemma buffer_equals_eq (a b : list byte) :
  buffer_equals a b = true <-> a = b.
Proof.
  revert b; induction a as [|x a IH]; intros [|y b]; simpl;
    try (split; [discriminate | congruence]); [tauto|].
  rewrite andb_true_iff, IH. unfold byte_eqb. split.
  - intros [H ->]. apply Byte.byte_dec_bl in H. now subst.
  - intros [= -> ->]. split; [now apply Byte.byte_dec_lb | reflexivity].
Qed.

Lemma firstn_repeat_min {A} (x : A) (a b : nat) :
  firstn a (repeat x b) = repeat x (Nat.min a b).
Proof.
  revert b; induction a as [|a IH]; intros [|b]; simpl; try reflexivity.
  now rewrite IH.
Qed.

(** The first [k] bytes of a zero-filled buffer of [n >= k] bytes after the
    read. *)
Lemma firstn_read_buffer (k n : nat) (content : list byte) :
  (k <= n)%nat ->
  firstn k (read_buffer n content)
  = (firstn k content ++ repeat x00 (k - length content))%list.
Proof.
  intros Hk. unfold read_buffer.
  rewrite firstn_app, firstn_firstn, firstn_repeat_min, length_firstn.
  replace (Nat.min k n) with k by lia.
  f_equal. f_equal. lia.
Qed.

(** Zero padding cannot complete a signature that has no zero byte. *)
Lemma padded_prefix_iff (magic content : list byte) :
  ~ In x00 magic ->
  (firstn (length magic) content ++ repeat x00 (length magic - length content))%list = magic
  <-> firstn (length magic) content = magic.
Proof.
  intros Hz. destruct (Nat.le_gt_cases (length magic) (length content)) as [Hle|Hgt].
  - replace (length magic - length content)%nat with 0%nat by lia.
    simpl. now rewrite app_nil_r.
  - split; intros H.
    + exfalso. apply Hz. rewrite <- H. apply in_or_app. right.
      destruct (length magic - length content)%nat eqn:E; [lia | now left].
    + apply (f_equal (@length byte)) in H. rewrite length_firstn in H. lia.
Qed.

Lemma magicBytes_wellformed :
  Forall (Forall (fun magic => (length magic <= 32)%nat /\ ~ In x00 magic))
         (map snd magicBytes).
Proof.
  repeat constructor; simpl; try lia;
    intros H; repeat (destruct H as [H|H]; [discriminate H|]); exact H.
Qed.


Lemma validateFileContent_own fs file content sigs :
  fs !! path file = Some content ->
  assoc magicBytes (mimetype file) = Some sigs ->
  validateFileContent fs file = true
  <-> exists magic, In magic sigs /\ firstn (length magic) content = magic.
Proof.
  intros Hfs Hsigs.
  unfold validateFileContent, validateFileContent_try, readHead, magicBytes_get.
  rewrite Hfs, Hsigs. unfold JS.some, subarray. rewrite existsb_exists.
  pose proof magicBytes_wellformed as Hwf.
  rewrite List.Forall_forall in Hwf. specialize (Hwf sigs (assoc_In _ _ _ Hsigs)).
  rewrite List.Forall_forall in Hwf.
  split; intros [magic [Hin H]]; exists magic; (split; [exact Hin|]);
    destruct (Hwf magic Hin) as [Hlen Hz].
  - apply buffer_equals_eq in H. rewrite firstn_read_buffer in H by exact Hlen.
    now apply padded_prefix_iff in H.
  - apply buffer_equals_eq. rewrite firstn_read_buffer by exact Hlen.
    now apply padded_prefix_iff.
Qed.

Lemma validateFileContent_unreadable fs file e :
  readHead 32 fs (path file) = Throw e -> validateFileContent fs file = false.
Proof.
  intros H. unfold validateFileContent, validateFileContent_try. now rewrite H.
Qed.

Lemma performAntivirusScan_unreadable fs file e :
  readHead 1024 fs (path file) = Throw e -> performAntivirusScan fs file = false.
Proof.
  intros H. unfold performAntivirusScan, performAntivirusScan_try. now rewrite H.
Qed.

(** ** Magic-byte verification *)



(** C10. Both content-inspection stages fail closed when the read throws:
    [validateFileContent] returns false (invalid content) and
    [performAntivirusScan] returns false (treated as malicious). *)
Theorem content_inspection_fails_closed (fs : FileSystem) (file : File) (n : nat) (e : Exn) :
  readHead n fs (path file) = Throw e ->
  validateFileContent fs file = false /\ performAntivirusScan fs file = false.
Proof.
  unfold readHead. destruct (fs !! path file) eqn:E; [discriminate|]. intros _.
  split.
  - apply (validateFileContent_unreadable fs file (FsError (path file))).
    unfold readHead. now rewrite E.
  - apply (performAntivirusScan_unreadable fs file (FsError (path file))).
    unfold readHead. now rewrite E.
Qed.

Lemma content_inspection_fails_closed_witness :
  readHead 32 sample_pdf_fs (path sample_missing) = Throw (FsError (path sample_missing)) /\
  validateFileContent sample_pdf_fs sample_missing = false /\
  performAntivirusScan sample_pdf_fs sample_missing = false.
Proof.
  assert (H : readHead 32 sample_pdf_fs (path sample_missing)
              = Throw (FsError (path sample_missing))) by reflexivity.
  split; [exact H|].
  exact (content_inspection_fails_closed sample_pdf_fs sample_missing 32 _ H).
Defined.

(** ** Filename safety *)

Lemma test_class_In (f : ascii -> bool) (s : string) :
  JS.test_class f s = true <-> exists c, In c (list_ascii_of_string s) /\ f c = true.
Proof.
  induction s as [|a s IH]; simpl.
  - split; [discriminate | intros [c [H _]]; destruct H].
  - rewrite orb_true_iff, IH. split.
    + intros [H|[c [Hin H]]]; [exists a; auto | exists c; auto].
    + intros [c [[->|Hin] H]]; [now left | right; now exists c].
Qed.

Lemma listedChar_dangerous (c : ascii) : listedChar c <-> dangerousChar c = true.
Proof.
  unfold listedChar, dangerousChar. cbv zeta. split.
  - intros [H|H].
    + apply N.leb_le in H. rewrite H. now rewrite !orb_true_r.
    + cbn [In] in H.
      repeat (destruct H as [<- | H]; [reflexivity|]). destruct H.
  - rewrite !orb_true_iff, !N.eqb_eq, N.leb_le. unfold JS.code.
    intros H. repeat (destruct H as [H | H]); [.. | now left];
      right; apply (f_equal ascii_of_N) in H; rewrite ascii_N_embedding in H;
      subst c; cbn; auto 10.
Qed.

(** The base name busboy delivers has no slash and no backslash. *)
Lemma lastSegment_no_separator (s cur : string) :
  JS.test_class isSeparator cur = false ->
  JS.test_class isSeparator (lastSegment s cur) = false.
Proof.
  revert cur. induction s as [|c s IH]; intros cur Hcur; cbn [lastSegment]; [exact Hcur|].
  destruct (isSeparator c) eqn:Hc; [now apply IH|].
  apply IH. clear IH. induction cur as [|d cur IHc].
  - change ("" +:+ String c "") with (String c ""). cbn [JS.test_class]. now rewrite Hc.
  - cbn [JS.test_class] in Hcur. apply orb_false_elim in Hcur as [Hd Hrest].
    change (String d cur +:+ String c "") with (String d (cur +:+ String c "")).
    cbn [JS.test_class]. rewrite Hd. now apply IHc.
Qed.

Lemma basename_no_separator (p : string) : JS.test_class isSeparator (basename p) = false.
Proof.
  unfold basename. destruct (_ || _); [reflexivity|].
  now apply lastSegment_no_separator.
Qed.

Lemma nameErrors_unsafe (name : string) :
  unsafeName name -> exists e, In e (nameErrors name) /\ isNameError e.
Proof.
  unfold unsafeName, nameErrors, isNameError. intros [H|[H|H]].
  - exists DangerousChars. split; [|now left].
    apply in_or_app. left.
    replace (JS.test_class dangerousChar name) with true; [now left|].
    symmetry. apply test_class_In. destruct H as [c [Hin Hc]].
    exists c. split; [exact Hin | now apply listedChar_dangerous].
  - exists NameTooLong. split; [|right; now left].
    apply in_or_app. right. apply in_or_app. left.
    replace (255 <? Z.of_nat (String.length name)) with true; [now left|].
    symmetry. apply Z.ltb_lt. lia.
  - exists ExecutableExtension. split; [|right; now right].
    apply in_or_app. right. apply in_or_app. right.
    destruct H as [Hlen [suffix [Hin Hdeny]]].
    destruct (JS.split "." name) as [|base suffixes] eqn:E;
      cbn [tail length] in Hlen, Hin; [lia|].
    assert (Hl : (2 <? Z.of_nat (length (base :: suffixes))) = true)
      by (apply Z.ltb_lt; cbn [length]; lia).
    rewrite Hl.
    match goal with
    | |- context [JS.some ?f ?l] => assert (Hs : JS.some f l = true)
    end.
    { unfold JS.some. apply existsb_exists.
      exists suffix. split; [now right | now apply includes_In]. }
    rewrite Hs. now left.
Qed.

Lemma performSecurityChecks_invalid (file : File) (e : SecurityError) :
  In e (errors (performSecurityChecks file)) ->
  isValid (performSecurityChecks file) = false.
Proof.
  unfold performSecurityChecks; simpl.
  destruct (nameErrors (originalname file) ++ _)%list; [intros []|].
  intros _. reflexivity.
Qed.

(** C6, as the code has it. A name that contains one of the characters
    the pattern lists (the code units 0x00 to 0x1f and nine punctuation
    characters, slash and backslash among them), or is longer than 255, or
    has more than one dot-delimited suffix one of which is on the executable
    denylist, fails [performSecurityChecks] with a filename error, whatever
    the declared type and size; the file filter of every category rejects
    the file, with the security errors as its message whenever extension and
    declared type are allowed; and the verdict is the same for every file of
    that name. The name of an upload is the base name of the filename the
    client sent: it never has a slash or a backslash in it. *)
Theorem unsafe_filename_rejected (file : File) :
  unsafeName (originalname file) ->
  isValid (performSecurityChecks file) = false /\
  (exists e, In e (errors (performSecurityChecks file)) /\ isNameError e) /\
  (forall cfg, exists e, createFileFilter cfg file = Reject e) /\
  (forall cfg,
     JS.includes (extensions cfg) (JS.toLowerCase (Path.extname (originalname file))) = true ->
     JS.includes (mimeTypes cfg) (JS.toLowerCase (mimetype file)) = true ->
     createFileFilter cfg file
     = Reject (Error (MsgSecurity (errors (performSecurityChecks file))))) /\
  (forall file', originalname file' = originalname file ->
     isValid (performSecurityChecks file') = false /\
     forall cfg, exists e, createFileFilter cfg file' = Reject e) /\
  (forall part subdir,
     originalname (fileInfo part) = basename (part_filename part) /\
     originalname (storedFile subdir part) = basename (part_filename part) /\
     forall c, In c (list_ascii_of_string (basename (part_filename part))) ->
               c <> "/"%char /\ c <> "\"%char).
Proof.
  assert (Hall : forall f, unsafeName (originalname f) ->
            (exists e, In e (errors (performSecurityChecks f)) /\ isNameError e) /\
            isValid (performSecurityChecks f) = false /\
            forall cfg, exists e, createFileFilter cfg f = Reject e).
  { intros f Hf. destruct (nameErrors_unsafe _ Hf) as [e [Hin He]].
    assert (Hin' : In e (errors (performSecurityChecks f)))
      by (simpl; apply in_or_app; now left).
    pose proof (performSecurityChecks_invalid f e Hin') as Hv.
    split; [now exists e|]. split; [exact Hv|].
    intros cfg. unfold createFileFilter.
    destruct (negb (JS.includes (extensions cfg) _)); [eauto|].
    destruct (negb (JS.includes (mimeTypes cfg) _)); [eauto|].
    rewrite Hv. simpl. eauto. }
  intros H. destruct (Hall file H) as [Herr [Hv Hrej]].
  split; [exact Hv|]. split; [exact Herr|]. split; [exact Hrej|]. split; [|split].
  - intros cfg Hext Hmime. unfold createFileFilter.
    rewrite Hext, Hmime, Hv. reflexivity.
  - intros file' Hname. rewrite <- Hname in H.
    destruct (Hall file' H) as [_ [Hv' Hrej']]. now split.
  - intros part subdir. split; [reflexivity|]. split; [reflexivity|].
    intros c Hin.
    pose proof (basename_no_separator (part_filename part)) as Hsep.
    destruct (isSeparator c) eqn:Hc.
    + exfalso. assert (Ht : JS.test_class isSeparator (basename (part_filename part)) = true)
        by (apply test_class_In; eauto).
      congruence.
    + unfold isSeparator in Hc. apply orb_false_elim in Hc as [H1 H2].
      split; intros ->; discriminate.
Qed.

Lemma unsafe_filename_rejected_witness :
  unsafeName (originalname sample_unsafe) /\
  isValid (performSecurityChecks sample_unsafe) = false /\
  createFileFilter resumeConfig sample_unsafe
  = Reject (Error (MsgSecurity [ExecutableExtension])).
Proof.
  assert (H : unsafeName (originalname sample_unsafe)).
  { right. right. split; [simpl; lia|].
    exists "exe". split; [simpl; now left | simpl; now left]. }
  split; [exact H|].
  destruct (unsafe_filename_rejected sample_unsafe H) as [Hv [_ [_ [Hmsg _]]]].
  split; [exact Hv|].
  exact (Hmsg resumeConfig eq_refl eq_refl).
Defined.

(** ** The disk capacity guard *)

Lemma checkDiskSpace_cases (gb : Z) (host : Host) (req : Request) :
  checkDiskSpace gb host req = Response 507 \/ checkDiskSpace gb host req = Next req.
Proof.
  unfold checkDiskSpace, checkDiskSpace_try.
  destruct (uploadDirExists host); simpl; [|now right].
  destruct (getFreeDiskSpace _ _) as [free|e]; [|now right].
  destruct (js_lt free _); [now left | now right].
Qed.

(** C9. The guard answers 507 exactly when the upload directory can be
    examined, the free-space probe resolves to a number, and that number is
    strictly below the threshold; in every other case the request goes on to
    the next middleware, in particular when the command fails, when its
    output cannot be parsed (the probe rejects, or yields NaN), or when the
    directory cannot be examined. *)
Theorem disk_guard_fail_open (minFreeSpaceGB : Z) (host : Host) (req : Request) :
  (checkDiskSpace minFreeSpaceGB host req = Response 507
   <-> uploadDirExists host = true /\
       exists free,
         getFreeDiskSpace (isWindows host) (execResult host) = Ok (Some free) /\
         free < minFreeSpaceGB * 1024 * 1024 * 1024) /\
  (checkDiskSpace minFreeSpaceGB host req <> Response 507 ->
   checkDiskSpace minFreeSpaceGB host req = Next req) /\
  (execResult host = ExecError -> checkDiskSpace minFreeSpaceGB host req = Next req) /\
  (forall e, getFreeDiskSpace (isWindows host) (execResult host) = Throw e ->
     checkDiskSpace minFreeSpaceGB host req = Next req) /\
  (getFreeDiskSpace (isWindows host) (execResult host) = Ok None ->
     checkDiskSpace minFreeSpaceGB host req = Next req) /\
  (uploadDirExists host = false -> checkDiskSpace minFreeSpaceGB host req = Next req).
Proof.
  assert (Hthrow : forall e, getFreeDiskSpace (isWindows host) (execResult host) = Throw e ->
                     checkDiskSpace minFreeSpaceGB host req = Next req).
  { intros e H. unfold checkDiskSpace, checkDiskSpace_try. rewrite H.
    now destruct (uploadDirExists host). }
  split; [|split; [|split; [|split; [|split]]]].
  - unfold checkDiskSpace, checkDiskSpace_try. split.
    + destruct (uploadDirExists host); simpl; [|discriminate].
      destruct (getFreeDiskSpace _ _) as [[free|]|e]; simpl; try discriminate.
      destruct (free <? _) eqn:E; [|discriminate]. intros _.
      split; [reflexivity|]. exists free. split; [reflexivity | now apply Z.ltb_lt].
    + intros [Hdir [free [Hprobe Hlt]]]. rewrite Hdir, Hprobe. simpl.
      apply Z.ltb_lt in Hlt. now rewrite Hlt.
  - intros H. destruct (checkDiskSpace_cases minFreeSpaceGB host req); [contradiction | assumption].
  - intros H. apply (Hthrow (Error MsgCommandFailed)). now rewrite H.
  - exact Hthrow.
  - intros H. unfold checkDiskSpace, checkDiskSpace_try. rewrite H.
    now destruct (uploadDirExists host).
  - intros H. unfold checkDiskSpace, checkDiskSpace_try. now rewrite H.
Qed.

(** The guard on sample probe outputs: about 450 MB free against 2 GB
    blocks the request; an error message instead of the table lets it
    through; so does a [dir] summary line, which has two numbers where the
    parser asks for a third. *)
Example disk_guard_blocks_when_low :
  checkDiskSpace 2 sample_low_disk emptyRequest = Response 507.
Proof. reflexivity. Qed.

Example disk_guard_open_on_garbled_output :
  getFreeDiskSpace false (execResult sample_garbled_probe) = Throw (Error MsgDiskParse) /\
  checkDiskSpace 2 sample_garbled_probe emptyRequest = Next emptyRequest.
Proof. split; reflexivity. Qed.

Example disk_guard_open_on_dir_summary :
  getFreeDiskSpace true (execResult sample_windows) = Throw (Error MsgDiskParse) /\
  checkDiskSpace 2 sample_windows emptyRequest = Next emptyRequest.
Proof. split; reflexivity. Qed.

(** ** Cleanup of temporary files *)

Lemma lookup_deleteAll_in (paths : list string) (fs : FileSystem) (p : string) :
  In p paths -> deleteAll paths fs !! p = None.
Proof.
  unfold deleteAll. revert fs. induction paths as [|q paths IH]; intros fs; [intros []|].
  simpl. destruct (in_dec String.string_dec p paths) as [Hin|Hnin].
  - intros _. now apply IH.
  - intros [->|Hin]; [|contradiction].
    clear IH. revert fs. induction paths as [|q paths IH]; intros fs; simpl.
    + apply lookup_delete_eq.
    + rewrite delete_delete. apply IH. intros H. apply Hnin. now right.
Qed.

Lemma lookup_deleteAll_notin (paths : list string) (fs : FileSystem) (p : string) :
  ~ In p paths -> deleteAll paths fs !! p = fs !! p.
Proof.
  unfold deleteAll. revert fs. induction paths as [|q paths IH]; intros fs Hnin; simpl.
  - reflexivity.
  - rewrite IH by (intros H; apply Hnin; now right).
    apply lookup_delete_ne. intros ->. apply Hnin. now left.
Qed.


(** [cleanupTempFiles] never throws and leaves exactly the file system
    without the paths of the request's files. *)
Lemma cleanupFiles_run (files : list File) (st : State) :
  exists log', cleanupFiles files st
    = (Ok tt, {| st_fs := deleteAll (map path files) (st_fs st); st_log := log' |}).
Proof.
  revert st. induction files as [|f files IH]; intros [fs log]; simpl.
  - now exists log.
  - unfold bind, try_catch, existsSync, unlinkSync, get_fs, put_fs, emit, ret, bind; simpl.
    destruct (fs !! path f) as [c|] eqn:E; simpl.
    + rewrite ?E. simpl.
      destruct (IH {| st_fs := delete (path f) fs;
                      st_log := (log ++ [EvUnlinked (path f)])%list |}) as [log' H].
      simpl in H. exists log'. exact H.
    + destruct (IH {| st_fs := fs; st_log := log |}) as [log' H]. simpl in H.
      exists log'. rewrite H. unfold deleteAll; simpl.
      now rewrite (delete_id fs (path f) E).
Qed.

Lemma cleanupTempFiles_run (req : Request) (st : State) :
  exists log', cleanupTempFiles req st
    = (Ok tt, {| st_fs := deleteAll (map path (getAllFiles req)) (st_fs st);
                 st_log := log' |}).
Proof. apply cleanupFiles_run. Qed.


Lemma scanFiles_total (req : Request) (files : list File) (st : State) :
  exists o st', scanFiles req files st = (Ok o, st').
Proof.
  revert st. induction files as [|f files IH]; intros [fs log]; simpl.
  - unfold ret. eauto.
  - unfold bind, get_fs, emit; simpl.
    destruct (performAntivirusScan fs f); simpl.
    + apply IH.
    + destruct (cleanupTempFiles_run req {| st_fs := fs; st_log := (log ++ [EvScanned (path f) false])%list |})
        as [log' Hc].
      unfold bind. rewrite Hc. unfold ret. eauto.
Qed.


Lemma wrapMulter_callback_total maxTotalSize error req (st : State) :
  exists o st', wrapMulter_callback maxTotalSize error req st = (Ok o, st').
Proof.
  unfold wrapMulter_callback. destruct error as [err|].
  - destruct (cleanupTempFiles_run req st) as [log' Hc].
    unfold bind. rewrite Hc. destruct err; unfold ret; eauto.
  - unfold try_catch.
    match goal with |- context [if ?b then _ else _] => destruct b end.
    + destruct (cleanupTempFiles_run req st) as [log' Hc].
      unfold bind. rewrite Hc. unfold ret. eauto.
    + unfold bind, processUploadedFiles.
      destruct (processFiles (getAllFiles req) st) as [[files|e] st1].
      * unfold ret. eauto.
      * destruct (cleanupTempFiles_run req st1) as [log' Hc].
        rewrite Hc. unfold ret. eauto.
Qed.



(** ** The aggregate size guard *)



(** The same batch through [uploadMultiple] with a ceiling of 5 bytes: the
    request is rejected and the disk is empty again. *)
Example aggregate_guard_rejects_batch :
  uploadMultiple sample_fields 5 sample_parts (initialState ∅)
  = (Ok (NextError (ValidationException (MsgTotalSizeExceeded 5))),
     {| st_fs := ∅;
        st_log := [ EvFiltered "a.txt" true;
                    EvFiltered "b.txt" true;
                    EvStored "a.txt" "uploads/temp/1700000000000_aaaaaaaaaaaa.txt";
                    EvStored "b.txt" "uploads/temp/1700000000000_bbbbbbbbbbbb.txt";
                    EvUnlinked "uploads/temp/1700000000000_aaaaaaaaaaaa.txt";
                    EvUnlinked "uploads/temp/1700000000000_bbbbbbbbbbbb.txt" ] |}).
Proof. vm_compute. reflexivity. Qed.


(** ** Content-addressed storage *)

Lemma validateFileContent_ext (fs1 fs2 : FileSystem) (f1 f2 : File) :
  fs1 !! path f1 = fs2 !! path f2 ->
  mimetype f1 = mimetype f2 ->
  validateFileContent fs1 f1 = validateFileContent fs2 f2.
Proof.
  intros Hp Hm.
  unfold validateFileContent, validateFileContent_try, readHead.
  rewrite Hp, Hm. destruct (fs2 !! path f2); reflexivity.
Qed.

(** The file system after [moveFileToFinalLocation] moved the temporary
    file [tmp] with content [c] to [dst]. *)
Lemma moveFile_run (file : File) (c : list byte) (st : State) :
  st_fs st !! path file = Some c ->
  exists log',
    moveFileToFinalLocation file st
    = (Ok (finalPathOf file),
       {| st_fs := match st_fs st !! finalPathOf file with
                   | Some _ => delete (path file) (st_fs st)
                   | None => <[finalPathOf file := c]> (delete (path file) (st_fs st))
                   end;
          st_log := log' |}).
Proof.
  destruct st as [fs log]. simpl. intros Hc.
  unfold moveFileToFinalLocation, bind, existsSync, renameSync, unlinkSync,
    get_fs, put_fs, emit, ret, bind. simpl.
  destruct (fs !! finalPathOf file) as [existing|] eqn:E; simpl;
    rewrite ?Hc; simpl; eauto.
Qed.

(** One file through the loop body of [processUploadedFiles]. *)
Lemma processFiles_single (file : File) (c : list byte) (st : State) :
  st_fs st !! path file = Some c ->
  validateFileContent (st_fs st) file = true ->
  let dst := contentAddress (mimetype file) (originalname file) c in
  exists log',
    processFiles [file] st
    = (Ok [set_finalPath dst (set_hash (SHA256.sha256 c) file)],
       {| st_fs := match st_fs st !! dst with
                   | Some _ => delete (path file) (st_fs st)
                   | None => <[dst := c]> (delete (path file) (st_fs st))
                   end;
          st_log := log' |}).
Proof.
  destruct st as [fs log]. simpl. intros Hc Hv.
  unfold bind at 1. unfold generateFileHash, bind, get_fs, emit, ret. simpl.
  rewrite Hc. simpl.
  unfold validateFileContentM, bind, get_fs, emit, ret. simpl.
  rewrite (validateFileContent_ext fs fs (set_hash (SHA256.sha256 c) file) file eq_refl eq_refl).
  rewrite Hv. simpl.
  destruct (moveFile_run (set_hash (SHA256.sha256 c) file) c
              {| st_fs := fs;
                 st_log := ((log ++ [EvHashed (path file)]) ++
                            [EvContentChecked (path file) true])%list |} Hc)
    as [log' Hm].
  simpl in Hm. rewrite Hm. simpl. eauto.
Qed.

(** C2, as the code has it. An accepted file goes to the category
    directory joined with its content hash followed by the extension of its
    original name. If that path is taken, the temporary file is deleted and
    what is there stays; otherwise the temporary file is renamed into place.
    So two uploads of the same bytes whose names have the same extension and
    whose declared types select the same directory end at the same
    [finalPath], and leave one file there and none of the two temporary
    files. *)
Theorem content_addressed_store (f1 f2 : File) (c : list byte) (st : State) :
  let dst := contentAddress (mimetype f1) (originalname f1) c in
  st_fs st !! path f1 = Some c ->
  st_fs st !! path f2 = Some c ->
  path f1 <> path f2 -> path f1 <> dst -> path f2 <> dst ->
  validateFileContent (st_fs st) f1 = true ->
  validateFileContent (st_fs st) f2 = true ->
  Path.extname (originalname f2) = Path.extname (originalname f1) ->
  subdirOf (mimetype f2) = subdirOf (mimetype f1) ->
  exists g1 g2 st1 st2,
    processFiles [f1] st = (Ok [g1], st1) /\
    processFiles [f2] st1 = (Ok [g2], st2) /\
    finalPath g1 = Some dst /\ finalPath g2 = Some dst /\
    hash g1 = Some (SHA256.sha256 c) /\ hash g2 = Some (SHA256.sha256 c) /\
    st_fs st1 = match st_fs st !! dst with
                | Some _ => delete (path f1) (st_fs st)
                | None => <[dst := c]> (delete (path f1) (st_fs st))
                end /\
    st_fs st2 = delete (path f2) (st_fs st1) /\
    st_fs st2 !! dst = Some (match st_fs st !! dst with
                             | Some existing => existing
                             | None => c
                             end) /\
    st_fs st2 !! path f1 = None /\ st_fs st2 !! path f2 = None /\
    (forall p, p <> dst -> p <> path f1 -> p <> path f2 ->
               st_fs st2 !! p = st_fs st !! p).
Proof.
  intros dst H1 H2 Hne H1d H2d Hv1 Hv2 Hext Hsub.
  destruct (processFiles_single f1 c st H1 Hv1) as [log1 Hp1].
  fold dst in Hp1.
  set (fs1 := match st_fs st !! dst with
              | Some _ => delete (path f1) (st_fs st)
              | None => <[dst := c]> (delete (path f1) (st_fs st))
              end) in *.
  set (st1 := {| st_fs := fs1; st_log := log1 |}) in *.
  assert (Hother : forall p, p <> dst -> p <> path f1 -> fs1 !! p = st_fs st !! p).
  { intros p Hpd Hp1'. subst fs1. destruct (st_fs st !! dst).
    - now rewrite lookup_delete_ne.
    - rewrite lookup_insert_ne by congruence. now rewrite lookup_delete_ne. }
  assert (Hdst1 : fs1 !! dst = Some (match st_fs st !! dst with
                                     | Some existing => existing
                                     | None => c
                                     end)).
  { subst fs1. destruct (st_fs st !! dst) eqn:E.
    - rewrite lookup_delete_ne by congruence. exact E.
    - apply lookup_insert_eq. }
  assert (H2' : st_fs st1 !! path f2 = Some c).
  { simpl. rewrite Hother by congruence. exact H2. }
  assert (Hv2' : validateFileContent (st_fs st1) f2 = true).
  { rewrite <- Hv2. apply validateFileContent_ext; [|reflexivity].
    simpl. apply Hother; congruence. }
  destruct (processFiles_single f2 c st1 H2' Hv2') as [log2 Hp2].
  assert (Hdst2 : contentAddress (mimetype f2) (originalname f2) c = dst).
  { unfold dst, contentAddress. now rewrite Hext, Hsub. }
  rewrite Hdst2 in Hp2. simpl st_fs in Hp2. rewrite Hdst1 in Hp2.
  eexists. eexists. exists st1. eexists.
  split; [exact Hp1|]. split; [exact Hp2|].
  simpl. repeat split.
  - rewrite lookup_delete_ne by congruence. exact Hdst1.
  - rewrite lookup_delete_ne by congruence.
    subst fs1. destruct (st_fs st !! dst).
    + apply lookup_delete_eq.
    + rewrite lookup_insert_ne by congruence. apply lookup_delete_eq.
  - apply lookup_delete_eq.
  - intros p Hpd Hp1' Hp2'. rewrite lookup_delete_ne by congruence. now apply Hother.
Qed.

Lemma content_addressed_store_witness :
  exists g1 g2 st1 st2,
    processFiles [sample_temp "uploads/resumes/1_aa.doc"] sample_two_temps = (Ok [g1], st1) /\
    processFiles [sample_temp "uploads/resumes/2_bb.doc"] st1 = (Ok [g2], st2) /\
    finalPath g1 = finalPath g2 /\
    st_fs st2 !! "uploads/resumes/1_aa.doc" = None /\
    st_fs st2 !! "uploads/resumes/2_bb.doc" = None.
Proof.
  destruct (content_addressed_store
              (sample_temp "uploads/resumes/1_aa.doc")
              (sample_temp "uploads/resumes/2_bb.doc")
              sample_doc_content sample_two_temps)
    as (g1 & g2 & st1 & st2 & Hp1 & Hp2 & Hf1 & Hf2 & _ & _ & _ & _ & _ & Ht1 & Ht2 & _).
  - reflexivity.
  - reflexivity.
  - discriminate.
  - vm_compute. discriminate.
  - vm_compute. discriminate.
  - reflexivity.
  - reflexivity.
  - reflexivity.
  - reflexivity.
  - exists g1, g2, st1, st2.
    split; [exact Hp1|]. split; [exact Hp2|].
    split; [now rewrite Hf1, Hf2|]. split; [exact Ht1 | exact Ht2].
Defined.

(** C2 fails as stated: the same bytes uploaded twice as a resume, once as
    [cv.doc] and once as [cv.docx], end under two different final paths, and
    both files are on disk. *)
Lemma same_content_two_extensions :
  exists req1 st1 req2 st2,
    uploadResume [sample_doc "cv.doc" "aaaaaaaaaaaa"] (initialState ∅) = (Ok (Next req1), st1) /\
    uploadResume [sample_doc "cv.docx" "bbbbbbbbbbbb"] st1 = (Ok (Next req2), st2) /\
    option_map (map md_path) (fileMetadata req1)
    = Some ["uploads/resumes/6dda1524c96123bdeaba431bb8bcf4eaae977606559d411919ffdda50edf3efe.doc"] /\
    option_map (map md_path) (fileMetadata req2)
    = Some ["uploads/resumes/6dda1524c96123bdeaba431bb8bcf4eaae977606559d411919ffdda50edf3efe.docx"] /\
    size (st_fs st2) = 2%nat.
Proof.
  eexists. eexists. eexists. eexists.
  split; [vm_compute; reflexivity|].
  split; [vm_compute; reflexivity|].
  split; [vm_compute; reflexivity|].
  split; vm_compute; reflexivity.
Qed.

(** ** The event log of a request *)

Section Emits.

(** A property of event lists that holds of the empty list and is kept
    by concatenation. *)
Variable G : list Event -> Prop.
Hypothesis G_nil : G [].
Hypothesis G_app : forall a b, G a -> G b -> G (a ++ b)%list.

Lemma emits_ret {A} (a : A) : emits G (ret a).
Proof. intros st. exists []. simpl. now rewrite app_nil_r. Qed.

Lemma emits_throw {A} (e : Exn) : emits G (@throw A e).
Proof. intros st. exists []. simpl. now rewrite app_nil_r. Qed.

Lemma emits_get_fs : emits G get_fs.
Proof. intros st. exists []. simpl. now rewrite app_nil_r. Qed.

Lemma emits_put_fs fs : emits G (put_fs fs).
Proof. intros st. exists []. simpl. now rewrite app_nil_r. Qed.

Lemma emits_emit e : G [e] -> emits G (emit e).
Proof. intros He st. exists [e]. simpl. auto. Qed.

Lemma emits_bind {A B} (m : M A) (k : A -> M B) :
  emits G m -> (forall a, emits G (k a)) -> emits G (bind m k).
Proof.
  intros Hm Hk st. unfold bind.
  destruct (Hm st) as [new1 [H1 G1]].
  destruct (m st) as [[a|e] st1]; simpl in H1.
  - destruct (Hk a st1) as [new2 [H2 G2]].
    exists (new1 ++ new2)%list. rewrite H2, H1, app_assoc. auto.
  - exists new1. simpl. auto.
Qed.

Lemma emits_try_catch {A} (m : M A) (h : Exn -> M A) :
  emits G m -> (forall e, emits G (h e)) -> emits G (try_catch m h).
Proof.
  intros Hm Hh st. unfold try_catch.
  destruct (Hm st) as [new1 [H1 G1]].
  destruct (m st) as [[a|e] st1]; simpl in H1.
  - exists new1. simpl. auto.
  - destruct (Hh e st1) as [new2 [H2 G2]].
    exists (new1 ++ new2)%list. rewrite H2, H1, app_assoc. auto.
Qed.

Lemma emits_existsSync p : emits G (existsSync p).
Proof. apply emits_bind; [apply emits_get_fs | intros; apply emits_ret]. Qed.

Lemma emits_unlinkSync p : G [EvUnlinked p] -> emits G (unlinkSync p).
Proof.
  intros He. apply emits_bind; [apply emits_get_fs|]. intros fs.
  destruct (fs !! p); [|apply emits_throw].
  apply emits_bind; [apply emits_put_fs | intros; now apply emits_emit].
Qed.

Lemma emits_renameSync src dst : G [EvRenamed src dst] -> emits G (renameSync src dst).
Proof.
  intros He. apply emits_bind; [apply emits_get_fs|]. intros fs.
  destruct (fs !! src); [|apply emits_throw].
  apply emits_bind; [apply emits_put_fs | intros; now apply emits_emit].
Qed.

Lemma emits_cleanupFiles files :
  (forall p, G [EvUnlinked p]) -> emits G (cleanupFiles files).
Proof.
  intros He. induction files as [|f files IH]; simpl; [apply emits_ret|].
  apply emits_bind; [|intros; exact IH].
  apply emits_try_catch; [|intros; apply emits_ret].
  apply emits_bind; [apply emits_existsSync|]. intros [|]; [|apply emits_ret].
  now apply emits_unlinkSync.
Qed.

Lemma emits_moveFile file :
  (forall p, G [EvUnlinked p]) -> (forall s d, G [EvRenamed s d]) ->
  emits G (moveFileToFinalLocation file).
Proof.
  intros Hu Hr. unfold moveFileToFinalLocation.
  apply emits_bind; [apply emits_existsSync|]. intros present.
  apply emits_bind; [|intros; apply emits_ret].
  destruct (negb present); [now apply emits_renameSync | now apply emits_unlinkSync].
Qed.

Lemma emits_removeUploadedFiles stored : emits G (removeUploadedFiles stored).
Proof.
  induction stored as [|f stored IH]; simpl; [apply emits_ret|].
  apply emits_bind; [apply emits_get_fs|]. intros fs.
  apply emits_bind; [apply emits_put_fs | intros; exact IH].
Qed.

End Emits.

Lemma chained_weaken (prev : option Event) (l : list Event) :
  chained None l -> chained prev l.
Proof.
  destruct l as [|e l]; simpl; [auto|]. intros [H Hl]. split; [|exact Hl].
  destruct e; simpl in *; try exact I; try discriminate.
Qed.

Lemma chained_app (prev : option Event) (a b : list Event) :
  chained prev a -> chained None b -> chained prev (a ++ b)%list.
Proof.
  revert prev. induction a as [|e a IH]; intros prev Ha Hb; simpl.
  - now apply chained_weaken.
  - destruct Ha as [He Ha]. split; [exact He | now apply IH].
Qed.

Lemma chained_split (prev : option Event) (l1 l2 : list Event) (e : Event) :
  chained prev (l1 ++ e :: l2)%list ->
  (l1 = [] /\ follows prev e) \/
  (exists l0 x, l1 = (l0 ++ [x])%list /\ follows (Some x) e).
Proof.
  revert prev. induction l1 as [|y l1 IH]; intros prev; simpl.
  - intros [H _]. now left.
  - intros [_ H]. right. destruct (IH _ H) as [[-> Hf]|[l0 [x [-> Hf]]]].
    + now exists [], y.
    + now exists (y :: l0), x.
Qed.

Lemma cleanupLog_processingLog (paths : list string) (new : list Event) :
  cleanupLog new -> processingLog paths new.
Proof.
  unfold cleanupLog, processingLog. induction new as [|e new IH]; intros H.
  - split; [exact I | constructor].
  - inversion H as [|? ? He Hnew]; subst. destruct (IH Hnew) as [Hc Hf].
    destruct e; simpl in He; try contradiction.
    split; [split; [exact I | now apply chained_weaken] | constructor; [exact I | exact Hf]].
Qed.

Lemma processingLog_nil paths : processingLog paths [].
Proof. split; [exact I | constructor]. Qed.

Lemma processingLog_app paths a b :
  processingLog paths a -> processingLog paths b -> processingLog paths (a ++ b)%list.
Proof.
  intros [Ha Fa] [Hb Fb]. split; [now apply chained_app | apply Forall_app; now split].
Qed.

Lemma processingLog_mono paths paths' new :
  (forall p, In p paths -> In p paths') ->
  processingLog paths new -> processingLog paths' new.
Proof.
  intros Hsub [Hc Hf]. split; [exact Hc|].
  eapply List.Forall_impl; [|exact Hf]. intros e He. destruct e; simpl in *; auto.
Qed.

Lemma cleanupLog_nil : cleanupLog [].
Proof. constructor. Qed.

Lemma cleanupLog_app a b : cleanupLog a -> cleanupLog b -> cleanupLog (a ++ b)%list.
Proof. intros Ha Hb. apply Forall_app. now split. Qed.

Lemma cleanupTempFiles_emits (req : Request) : emits cleanupLog (cleanupTempFiles req).
Proof.
  apply emits_cleanupFiles; [apply cleanupLog_nil | apply cleanupLog_app|].
  intros p. constructor; [exact I | constructor].
Qed.

Lemma moveFile_emits (paths : list string) (file : File) :
  emits (processingLog paths) (moveFileToFinalLocation file).
Proof.
  apply emits_moveFile; [apply processingLog_nil | apply processingLog_app | |];
    intros; (split; [split; exact I | constructor; [exact I | constructor]]).
Qed.

(** Running the monad, one step at a time. *)
Lemma bind_ok {A B} (m : M A) (k : A -> M B) (st st' : State) (a : A) :
  m st = (Ok a, st') -> bind m k st = k a st'.
Proof. intros H. unfold bind. now rewrite H. Qed.

Lemma bind_throw {A B} (m : M A) (k : A -> M B) (st st' : State) (e : Exn) :
  m st = (Throw e, st') -> bind m k st = (Throw e, st').
Proof. intros H. unfold bind. now rewrite H. Qed.

Lemma generateFileHash_run (p : string) (st : State) :
  generateFileHash p st
  = match st_fs st !! p with
    | Some c => (Ok (SHA256.sha256 c),
                 {| st_fs := st_fs st; st_log := (st_log st ++ [EvHashed p])%list |})
    | None => (Throw (FsError p), st)
    end.
Proof.
  unfold generateFileHash, bind, get_fs. simpl. now destruct (st_fs st !! p).
Qed.

Lemma validateFileContentM_run (file : File) (st : State) :
  validateFileContentM file st
  = (Ok (validateFileContent (st_fs st) file),
     {| st_fs := st_fs st;
        st_log := (st_log st ++
                   [EvContentChecked (path file) (validateFileContent (st_fs st) file)])%list |}).
Proof. reflexivity. Qed.

Lemma processFiles_cons (file : File) (rest : list File) :
  processFiles (file :: rest)
  = (do h <- generateFileHash (path file) ;
     let file1 := set_hash h file in
     do isValidContent <- validateFileContentM file1 ;
     if negb isValidContent then
       throw (ValidationException (MsgInvalidContent (originalname file1)))
     else
       do newPath <- moveFileToFinalLocation file1 ;
       let file2 := set_finalPath newPath file1 in
       do rest' <- processFiles rest ;
       ret (file2 :: rest')).
Proof. reflexivity. Qed.

(** The events of [processUploadedFiles]: for each file its hash, directly
    followed by its content check, then its move; when the loop completes,
    every file was hashed, and the files come back under their paths. *)
Lemma processFiles_log (files : list File) (st : State) :
  exists new,
    st_log (snd (processFiles files st)) = (st_log st ++ new)%list /\
    processingLog (map path files) new /\
    (forall files', fst (processFiles files st) = Ok files' ->
       map path files' = map path files /\
       forall f, In f files -> In (EvHashed (path f)) new).
Proof.
  revert st. induction files as [|f files IH]; intros st.
  - exists []. simpl. rewrite app_nil_r. split; [reflexivity|].
    split; [apply processingLog_nil|]. intros files' [= <-]. split; [reflexivity | intros ? []].
  - rewrite processFiles_cons.
    pose proof (generateFileHash_run (path f) st) as Hh.
    destruct (st_fs st !! path f) as [c|] eqn:E.
    2:{ rewrite (bind_throw _ _ _ _ _ Hh). exists []. simpl. rewrite app_nil_r.
        split; [reflexivity|]. split; [apply processingLog_nil | discriminate]. }
    rewrite (bind_ok _ _ _ _ _ Hh). cbv zeta.
    set (file1 := set_hash (SHA256.sha256 c) f).
    rewrite (bind_ok _ _ _ _ _ (validateFileContentM_run file1 _)).
    cbn [st_fs st_log].
    set (ok := validateFileContent (st_fs st) file1).
    assert (Hpair : processingLog (map path (f :: files))
                      [EvHashed (path f); EvContentChecked (path f) ok]).
    { split; [simpl; auto|]. repeat constructor. }
    destruct ok eqn:Hok; cbn [negb].
    2:{ exists [EvHashed (path f); EvContentChecked (path f) false].
        unfold throw. cbn [fst snd st_log]. rewrite <- app_assoc.
        split; [reflexivity|]. split; [exact Hpair | discriminate]. }
    match goal with
    | |- context [bind (moveFileToFinalLocation file1) ?k ?s] =>
        destruct (moveFile_emits (map path (f :: files)) file1 s) as [newm [Hm Gm]];
        destruct (moveFileToFinalLocation file1 s) as [[newPath|e] st3] eqn:Hmove;
        [rewrite (bind_ok _ _ _ _ _ Hmove) | rewrite (bind_throw _ _ _ _ _ Hmove)]
    end; cbn [snd st_log] in Hm.
    2:{ exists ([EvHashed (path f); EvContentChecked (path f) true] ++ newm)%list.
        cbn [snd fst]. rewrite Hm, <- !app_assoc. split; [reflexivity|].
        split; [now apply processingLog_app | discriminate]. }
    cbv zeta.
    destruct (IH st3) as [newr [Hr [Gr Hall]]].
    assert (Gall : processingLog (map path (f :: files))
                     ([EvHashed (path f); EvContentChecked (path f) true] ++ newm ++ newr)%list).
    { apply processingLog_app; [exact Hpair|].
      apply processingLog_app; [exact Gm|].
      eapply processingLog_mono; [|exact Gr]. intros p Hp. now right. }
    exists ([EvHashed (path f); EvContentChecked (path f) true] ++ newm ++ newr)%list.
    destruct (processFiles files st3) as [[rest'|e] st4] eqn:Hrest;
      [rewrite (bind_ok _ _ _ _ _ Hrest) | rewrite (bind_throw _ _ _ _ _ Hrest)];
      cbn [fst snd] in Hr, Hall |- *; unfold ret; cbn [fst snd];
      rewrite Hr, Hm, <- !app_assoc; (split; [reflexivity|]); (split; [exact Gall|]);
      [|discriminate].
    intros files' [= <-]. destruct (Hall rest' eq_refl) as [Hpaths Hin].
    split; [cbn; now rewrite Hpaths|].
    intros g [<-|Hg]; [now left|].
    apply (in_or_app [EvHashed (path f); EvContentChecked (path f) true]). right.
    apply (in_or_app newm newr). right. exact (Hin g Hg).
Qed.

Lemma removeUploadedFiles_run (stored : list File) (st : State) :
  removeUploadedFiles stored st
  = (Ok tt, {| st_fs := deleteAll (map path stored) (st_fs st); st_log := st_log st |}).
Proof.
  revert st. induction stored as [|f stored IH]; intros [fs log]; [reflexivity|].
  cbn [removeUploadedFiles]. unfold bind at 1, get_fs. cbn [st_fs].
  unfold bind at 1, put_fs. cbn [st_fs st_log]. rewrite IH. reflexivity.
Qed.

Lemma multer_receive_cons opts filesLeft seen stored part rest :
  multer_receive opts filesLeft seen stored (part :: rest)
  = (let abort e := exec removeUploadedFiles stored ; ret (Some e, stored) in
     if seen =? files (limits opts) then
       abort (MulterError LIMIT_FILE_COUNT "")
     else if String.eqb (deliveredName part) "" then
       multer_receive opts filesLeft (seen + 1) stored rest
     else if negb (0 <? match assoc filesLeft (part_fieldname part) with
                        | Some n => n
                        | None => 0
                        end) then
       abort (MulterError LIMIT_UNEXPECTED_FILE (part_fieldname part))
     else
       match fileFilter opts (fileInfo part) with
       | Reject e =>
           exec emit (EvFiltered (deliveredName part) false) ; abort e
       | Accept =>
           exec emit (EvFiltered (deliveredName part) true) ;
           if fileSize (limits opts) <? Z.of_nat (length (part_content part)) then
             abort (MulterError LIMIT_FILE_SIZE (part_fieldname part))
           else
             let file := storedFile (storage opts) part in
             do fs <- get_fs ;
             exec put_fs (<[path file := part_content part]> fs) ;
             multer_receive opts (decrement filesLeft (part_fieldname part))
                            (seen + 1) (stored ++ [file])%list rest
       end).
Proof. reflexivity. Qed.

Lemma abort_run (stored : list File) (e : Exn) (st : State) :
  (exec removeUploadedFiles stored ; ret (Some e, stored)) st
  = (Ok (Some e, stored),
     {| st_fs := deleteAll (map path stored) (st_fs st); st_log := st_log st |}).
Proof. unfold bind. now rewrite removeUploadedFiles_run. Qed.

Lemma emit_bind_run {A} (e : Event) (k : M A) (st : State) :
  (exec emit e ; k) st = k {| st_fs := st_fs st; st_log := (st_log st ++ [e])%list |}.
Proof. reflexivity. Qed.

Lemma store_run {A} (p : string) (c : list byte) (k : M A) (st : State) :
  (do fs <- get_fs ; exec put_fs (<[p := c]> fs) ; k) st
  = k {| st_fs := <[p := c]> (st_fs st); st_log := st_log st |}.
Proof. reflexivity. Qed.

Lemma handOver_run (files : list File) (st : State) :
  handOver files st
  = (Ok tt, {| st_fs := st_fs st; st_log := (st_log st ++ handOverLog files)%list |}).
Proof.
  revert st. induction files as [|f files IH]; intros st; cbn [handOver handOverLog map].
  - rewrite app_nil_r. now destruct st.
  - rewrite emit_bind_run, IH. cbn [st_fs st_log]. unfold handOverLog.
    now rewrite <- app_assoc.
Qed.

Lemma multer_done_run (err : option Exn) (stored : list File) (st : State) :
  multer_done (err, stored) st
  = (Ok tt, {| st_fs := st_fs st;
               st_log := (st_log st ++ match err with
                                       | None => handOverLog stored
                                       | Some _ => []
                                       end)%list |}).
Proof.
  unfold multer_done. cbn [fst snd]. destruct err.
  - rewrite app_nil_r. now destruct st.
  - apply handOver_run.
Qed.

Lemma multerLog_events (l : list Event) : Forall multerEvent l -> multerLog l.
Proof.
  intros H. split; [|exact H]. generalize (@None Event).
  induction H as [|e l He _ IH]; intros prev; [exact I|].
  split; [|apply IH]. now destruct e.
Qed.

(** The body as multer reads it: the runs of the file filter, in the
    order of the parts; each stored file was accepted by the filter; a
    rejecting run and a part over the size limit end in an error. *)
Lemma multer_receive_spec (opts : MulterOptions) (parts : list Part) :
  forall filesLeft seen stored st,
  exists err stored' st' new,
    multer_receive opts filesLeft seen stored parts st = (Ok (err, stored'), st') /\
    st_log st' = (st_log st ++ new)%list /\
    Forall filterEvent new /\
    (forall f, In f stored' -> In f stored \/ In (EvFiltered (originalname f) true) new) /\
    (forall name, In (EvFiltered name false) new -> err <> None) /\
    ((exists part, In part parts /\ oversize (fileSize (limits opts)) part) -> err <> None).
Proof.
  induction parts as [|part rest IH]; intros filesLeft seen stored st.
  - exists None, stored, st, []. simpl. rewrite app_nil_r.
    split; [reflexivity|]. split; [reflexivity|]. split; [constructor|].
    split; [auto|]. split; [intros name []|]. intros [part [[] _]].
  - rewrite multer_receive_cons. cbv zeta.
    destruct (seen =? files (limits opts)).
    { rewrite abort_run. exists (Some (MulterError LIMIT_FILE_COUNT "")), stored. eexists. exists [].
      split; [reflexivity|]. cbn [st_log]. rewrite app_nil_r.
      split; [reflexivity|]. split; [constructor|]. split; [auto|].
      split; [intros name []|]. discriminate. }
    destruct (String.eqb (deliveredName part) "") eqn:Hname.
    { destruct (IH filesLeft (seen + 1) stored st)
        as (err & stored' & st' & new & Hrun & Hlog & Hm & Hst & Hrej & Hover).
      exists err, stored', st', new.
      split; [exact Hrun|]. split; [exact Hlog|]. split; [exact Hm|].
      split; [exact Hst|]. split; [exact Hrej|].
      intros [p [[<-|Hin] [Hne Hsz]]].
      - apply String.eqb_eq in Hname. contradiction.
      - apply Hover. exists p. now split. }
    destruct (negb _).
    { rewrite abort_run.
      exists (Some (MulterError LIMIT_UNEXPECTED_FILE (part_fieldname part))), stored.
      eexists. exists [].
      split; [reflexivity|]. cbn [st_log]. rewrite app_nil_r.
      split; [reflexivity|]. split; [constructor|]. split; [auto|].
      split; [intros name []|]. discriminate. }
    destruct (fileFilter opts (fileInfo part)) as [|e].
    + rewrite emit_bind_run.
      destruct (fileSize (limits opts) <? Z.of_nat (length (part_content part))) eqn:Hsz.
      { rewrite abort_run.
        exists (Some (MulterError LIMIT_FILE_SIZE (part_fieldname part))), stored.
        eexists. exists [EvFiltered (deliveredName part) true].
        split; [reflexivity|]. split; [reflexivity|].
        split; [repeat constructor|]. split; [auto|].
        split; discriminate. }
      cbv zeta. rewrite store_run.
      match goal with
      | |- context [multer_receive opts ?l ?n ?s rest ?st0] =>
          destruct (IH l n s st0)
            as (err & stored' & st' & new & Hrun & Hlog & Hm & Hst & Hrej & Hover)
      end.
      cbn [st_log] in Hlog.
      exists err, stored', st', (EvFiltered (deliveredName part) true :: new).
      split; [exact Hrun|].
      split; [rewrite Hlog, <- app_assoc; reflexivity|].
      split; [|split; [|split]].
      * constructor; [exact I | exact Hm].
      * intros f Hf. destruct (Hst f Hf) as [Hin|Hin].
        -- apply in_app_or in Hin. destruct Hin as [Hin|[<-|[]]]; [now left|].
           right. now left.
        -- right. now right.
      * intros name [H|H]; [discriminate H | now apply (Hrej name)].
      * intros [p [[<-|Hin] [Hne Hlt]]].
        -- apply Z.ltb_ge in Hsz. lia.
        -- apply Hover. exists p. now split.
    + rewrite emit_bind_run. rewrite abort_run.
      exists (Some e), stored. eexists. exists [EvFiltered (deliveredName part) false].
      split; [reflexivity|]. split; [reflexivity|].
      split; [repeat constructor|]. split; [auto|].
      split; discriminate.
Qed.

Lemma appendFile_In (m : list (string * list File)) (g f : File) :
  In f (concat (map snd (appendFile m g))) <-> f = g \/ In f (concat (map snd m)).
Proof.
  induction m as [|[k l] m IH]; simpl.
  - intuition congruence.
  - destruct (String.eqb k (fieldname g)); simpl.
    + rewrite !in_app_iff. simpl. intuition congruence.
    + rewrite !in_app_iff, IH. intuition congruence.
Qed.

Lemma fold_appendFile_In (l : list File) (m : list (string * list File)) (f : File) :
  In f (concat (map snd (fold_left appendFile l m)))
  <-> In f l \/ In f (concat (map snd m)).
Proof.
  revert m. induction l as [|g l IH]; intros m; simpl.
  - intuition.
  - rewrite IH, appendFile_In. intuition.
Qed.

Lemma split_app {A} (l1 l2 a b : list A) (e : A) :
  (l1 ++ e :: l2 = a ++ b)%list ->
  (exists l, a = (l1 ++ e :: l)%list /\ l2 = (l ++ b)%list) \/
  (exists l, l1 = (a ++ l)%list /\ b = (l ++ e :: l2)%list).
Proof.
  revert a. induction l1 as [|x l1 IH]; intros [|y a]; simpl; intros H.
  - right. exists []. auto.
  - injection H as <- ->. left. exists a. auto.
  - right. exists (x :: l1). auto.
  - injection H as <- H. destruct (IH a H) as [[l [-> ->]]|[l [-> ->]]].
    + left. exists l. auto.
    + right. exists l. auto.
Qed.

(** The multer stage of a strategy that attaches stored files to the
    request: the filter runs, then, without error, the files handed over. *)
Lemma multer_stage (opts : MulterOptions) (filesLeft : list (string * Z))
    (attach : list File -> Request) :
  (forall stored f, In f (getAllFiles (attach stored)) -> In f stored) ->
  multerStage (fileSize (limits opts))
    (fun parts =>
       do r <- multer_receive opts filesLeft 0 [] parts ;
       exec multer_done r ;
       ret (fst r, attach (snd r))).
Proof.
  intros Hattach parts st.
  destruct (multer_receive_spec opts parts filesLeft 0 [] st)
    as (err & stored' & st' & flog & Hrun & Hlog & Hm & Hst & Hrej & Hover).
  rewrite (bind_ok _ _ _ _ _ Hrun).
  rewrite (bind_ok _ _ _ _ _ (multer_done_run err stored' st')). unfold ret. cbn [fst snd].
  set (dlog := match err with None => handOverLog stored' | Some _ => [] end).
  assert (Hd : Forall multerEvent dlog).
  { unfold dlog, handOverLog. destruct err; [constructor|].
    apply List.Forall_forall. intros e He. apply in_map_iff in He as (f & <- & _). exact I. }
  assert (Hnf : forall name p, ~ In (EvStored name p) flog).
  { intros name p Hin. rewrite List.Forall_forall in Hm. exact (Hm _ Hin). }
  assert (Hdf : forall name ok, ~ In (EvFiltered name ok) dlog).
  { intros name ok Hin. unfold dlog, handOverLog in Hin. destruct err; [destruct Hin|].
    apply in_map_iff in Hin as (f & Hf & _). discriminate. }
  do 3 eexists. exists (flog ++ dlog)%list.
  split; [reflexivity|]. cbn [st_log].
  split; [rewrite Hlog, app_assoc; reflexivity|].
  split; [|split; [|split; [|split]]].
  - apply multerLog_events, Forall_app. split; [|exact Hd].
    eapply List.Forall_impl; [|exact Hm]. intros e He. now destruct e.
  - intros l1 name p l2 H. symmetry in H. apply split_app in H.
    destruct H as [[l [Hf _]]|[l [-> Hdl]]].
    + exfalso. apply (Hnf name p). rewrite Hf. apply in_or_app. right. now left.
    + apply in_or_app. left.
      assert (Hin : In (EvStored name p) dlog)
        by (rewrite Hdl; apply in_or_app; right; now left).
      unfold dlog, handOverLog in Hin. destruct err; [destruct Hin|].
      apply in_map_iff in Hin as (f & [= <- <-] & Hf).
      destruct (Hst f Hf) as [[]|Hacc]. exact Hacc.
  - intros -> f Hf. apply in_or_app. right. unfold dlog, handOverLog.
    apply in_map_iff. exists f. split; [reflexivity|]. now apply (Hattach stored').
  - intros name Hin. apply in_app_or in Hin. destruct Hin as [Hin|Hin].
    + now apply (Hrej name).
    + destruct (Hdf _ _ Hin).
  - exact Hover.
Qed.

Lemma multer_single_stage (opts : MulterOptions) (name : string) :
  multerStage (fileSize (limits opts)) (multer_single opts name).
Proof.
  apply (multer_stage opts [(name, 1)]
           (fun stored => {| req_file := head stored; req_files := None;
                             fileMetadata := None |})).
  intros stored f Hf. unfold getAllFiles in Hf. cbn [req_file req_files] in Hf.
  rewrite app_nil_r in Hf. destruct stored as [|g stored]; cbn in Hf; [destruct Hf|].
  destruct Hf as [<-|[]]. now left.
Qed.

Lemma multer_fields_stage (opts : MulterOptions) (fields : list (string * Z)) :
  multerStage (fileSize (limits opts)) (multer_fields opts fields).
Proof.
  apply (multer_stage opts (fieldCounts fields)
           (fun stored => {| req_file := None;
                             req_files := Some (FilesByField (fold_left appendFile stored []));
                             fileMetadata := None |})).
  intros stored f Hf. unfold getAllFiles in Hf. cbn [req_file req_files app] in Hf.
  apply fold_appendFile_In in Hf. destruct Hf as [Hf|[]]. exact Hf.
Qed.

Lemma emits_mono {A} (G G' : list Event -> Prop) (m : M A) :
  (forall l, G l -> G' l) -> emits G m -> emits G' m.
Proof.
  intros HG Hm st. destruct (Hm st) as [new [H1 H2]]. exists new. auto.
Qed.

Lemma processFiles_emits (files : list File) :
  emits (processingLog (map path files)) (processFiles files).
Proof.
  intros st. destruct (processFiles_log files st) as [new [H1 [H2 _]]]. eauto.
Qed.

(** The events of the callback: those of the processing of the request's
    files; only cleanup when multer reported an error. *)
Lemma wrapMulter_callback_emits maxTotalSize error (req : Request) :
  emits (processingLog (map path (getAllFiles req)))
        (wrapMulter_callback maxTotalSize error req) /\
  (error <> None -> emits cleanupLog (wrapMulter_callback maxTotalSize error req)).
Proof.
  set (paths := map path (getAllFiles req)).
  assert (Hclean : emits (processingLog paths) (cleanupTempFiles req)).
  { eapply emits_mono; [apply cleanupLog_processingLog | apply cleanupTempFiles_emits]. }
  unfold wrapMulter_callback. split.
  - destruct error as [err|].
    + apply emits_bind; [apply processingLog_app | exact Hclean |].
      intros _. destruct err; apply emits_ret; apply processingLog_nil.
    + apply emits_try_catch; [apply processingLog_app | |].
      * match goal with |- context [if ?b then _ else _] => destruct b end.
        -- apply emits_bind; [apply processingLog_app | exact Hclean |].
           intros _. apply emits_ret, processingLog_nil.
        -- apply emits_bind; [apply processingLog_app | |].
           ++ apply processFiles_emits.
           ++ intros files. apply emits_ret, processingLog_nil.
      * intros e. apply emits_bind; [apply processingLog_app | exact Hclean |].
        intros _. apply emits_ret, processingLog_nil.
  - destruct error as [err|]; [intros _ | congruence].
    apply emits_bind; [apply cleanupLog_app | apply cleanupTempFiles_emits |].
    intros _. destruct err; apply emits_ret; apply cleanupLog_nil.
Qed.

Lemma hashOrdering_of_stages (mlog clog : list Event) (paths : list string) :
  multerLog mlog ->
  handedOverAccepted mlog ->
  processingLog paths clog ->
  (forall p, In p paths -> exists name, In (EvStored name p) mlog) \/ cleanupLog clog ->
  ((exists name, In (EvFiltered name false) mlog) -> cleanupLog clog) ->
  hashOrdering (mlog ++ clog)%list.
Proof.
  intros [Hmc Hmf] Hacc [Hcc Hcf] Hstored Hrej.
  rewrite List.Forall_forall in Hmf, Hcf.
  unfold hashOrdering. split; [|split; [|split]].
  - intros l1 p l2 H. symmetry in H. apply split_app in H.
    destruct H as [[l [-> ->]]|[l [-> ->]]].
    + specialize (Hmf (EvHashed p)). simpl in Hmf. exfalso. apply Hmf.
      apply in_or_app. right. now left.
    + assert (Hin : In (EvHashed p) (l ++ EvHashed p :: l2)%list)
        by (apply in_or_app; right; now left).
      destruct Hstored as [Hstored|Hcl].
      * destruct (Hstored p (Hcf _ Hin)) as [name Hn].
        exists name. apply in_or_app. now left.
      * unfold cleanupLog in Hcl. rewrite List.Forall_forall in Hcl.
        destruct (Hcl _ Hin).
  - intros l1 name p l2 H. symmetry in H. apply split_app in H.
    destruct H as [[l [Hm _]]|[l [-> Hc]]].
    + now apply (Hacc l1 name p l).
    + exfalso. apply (Hcf (EvStored name p)). rewrite Hc.
      apply in_or_app. right. now left.
  - intros l1 p ok l2 H. symmetry in H. apply split_app in H.
    destruct H as [[l [-> ->]]|[l [-> ->]]].
    + exfalso. apply (Hmf (EvContentChecked p ok)). apply in_or_app. right. now left.
    + apply chained_split in Hcc.
      destruct Hcc as [[_ Hn]|[l0 [x [-> Hn]]]]; [discriminate|].
      simpl in Hn. injection Hn as ->. exists (mlog ++ l0)%list. now rewrite app_assoc.
  - intros name Hin p Hp. apply in_app_or in Hin. apply in_app_or in Hp.
    destruct Hin as [Hin|Hin]; [|exact (Hcf _ Hin)].
    destruct Hp as [Hp|Hp]; [exact (Hmf _ Hp)|].
    assert (Hcl : cleanupLog clog) by (apply Hrej; eauto).
    unfold cleanupLog in Hcl. rewrite List.Forall_forall in Hcl. exact (Hcl _ Hp).
Qed.

Lemma wrapMulter_run upload maxTotalSize parts (st st1 : State) err req :
  upload parts st = (Ok (err, req), st1) ->
  wrapMulter upload maxTotalSize parts st = wrapMulter_callback maxTotalSize err req st1.
Proof.
  intros H. unfold wrapMulter, try_catch. rewrite (bind_ok _ _ _ _ _ H). cbn [fst snd].
  destruct (wrapMulter_callback_total maxTotalSize err req st1) as [o [st' ->]].
  reflexivity.
Qed.

Lemma regroup_concat (m : list (string * list File)) (files : list File) :
  length files = length (concat (map snd m)) ->
  concat (map snd (regroup m files)) = files.
Proof.
  revert files. induction m as [|[k l] m IH]; intros files Hlen; simpl in *.
  - destruct files; [reflexivity | discriminate].
  - rewrite length_app in Hlen. rewrite IH.
    + apply firstn_skipn.
    + rewrite length_skipn. lia.
Qed.

Lemma getAllFiles_withFiles (req : Request) (files : list File) :
  length files = length (getAllFiles req) ->
  getAllFiles (withFiles req files) = files.
Proof.
  unfold getAllFiles, withFiles. cbn [req_file req_files].
  destruct (req_file req) as [f0|]; destruct (req_files req) as [[l|m]|];
    cbn [app length]; intros Hlen.
  - destruct files as [|g rest]; [discriminate|]. reflexivity.
  - destruct files as [|g rest]; [discriminate|]. cbn [head tail app].
    f_equal. apply regroup_concat. simpl in Hlen. lia.
  - destruct files as [|g [|? ?]]; try discriminate. reflexivity.
  - reflexivity.
  - apply regroup_concat. exact Hlen.
  - destruct files; [reflexivity | discriminate].
Qed.

Lemma wrapMulter_callback_next maxTotalSize error (req req' : Request) (st st' : State) :
  wrapMulter_callback maxTotalSize error req st = (Ok (Next req'), st') ->
  error = None /\
  exists files', fst (processFiles (getAllFiles req) st) = Ok files' /\
                 getAllFiles req' = getAllFiles (withFiles req files').
Proof.
  unfold wrapMulter_callback. destruct error as [err|].
  - destruct (cleanupTempFiles_run req st) as [log' Hc].
    rewrite (bind_ok _ _ _ _ _ Hc). destruct err; discriminate.
  - intros H. split; [reflexivity|]. unfold try_catch in H.
    match type of H with context [if ?b then _ else _] => destruct b end.
    + destruct (cleanupTempFiles_run req st) as [log' Hc].
      rewrite (bind_ok _ _ _ _ _ Hc) in H. discriminate.
    + unfold processUploadedFiles in H.
      destruct (processFiles (getAllFiles req) st) as [[files'|e] st1] eqn:Hp.
      * rewrite (bind_ok _ _ _ _ _ Hp) in H. unfold ret in H. injection H as <- _.
        exists files'. split; reflexivity.
      * rewrite (bind_throw _ _ _ _ _ Hp) in H.
        destruct (cleanupTempFiles_run req st1) as [log' Hc].
        rewrite (bind_ok _ _ _ _ _ Hc) in H. discriminate.
Qed.

Lemma wrapMulter_callback_error maxTotalSize err (req : Request) (st : State) :
  exists st', wrapMulter_callback maxTotalSize (Some err) req st
  = (Ok (NextError match err with
                   | MulterError code field => handleMulterError code field
                   | _ => ValidationException (MsgUploadFailed (message err))
                   end), st').
Proof.
  unfold wrapMulter_callback.
  destruct (cleanupTempFiles_run req st) as [log' Hc].
  rewrite (bind_ok _ _ _ _ _ Hc). destruct err; unfold ret; eauto.
Qed.

(** The events of one run of an upload middleware. *)
Lemma wrapMulter_log (limit : Z) upload maxTotalSize (parts : list Part) (st : State) :
  multerStage limit upload ->
  exists new,
    st_log (snd (wrapMulter upload maxTotalSize parts st)) = (st_log st ++ new)%list /\
    hashOrdering new /\
    (forall p safe, ~ In (EvScanned p safe) new) /\
    (forall req', fst (wrapMulter upload maxTotalSize parts st) = Ok (Next req') ->
       forall f, In f (getAllFiles req') -> In (EvHashed (path f)) new) /\
    (forall e req st1, upload parts st = (Ok (Some e, req), st1) ->
       Forall notHashed new /\
       exists e', fst (wrapMulter upload maxTotalSize parts st) = Ok (NextError e')) /\
    ((exists part, In part parts /\ oversize limit part) ->
       Forall notHashed new /\
       exists e, fst (wrapMulter upload maxTotalSize parts st) = Ok (NextError e)).
Proof.
  intros Hstage.
  destruct (Hstage parts st)
    as (err & req & st1 & mlog & Hrun & Hlog & Hm & Hacc & Hst & Hrej & Hover).
  rewrite (wrapMulter_run _ _ _ _ _ _ _ Hrun).
  destruct (wrapMulter_callback_emits maxTotalSize err req) as [Hproc Hclean].
  destruct (Hproc st1) as [clog [Hclog Gc]].
  exists (mlog ++ clog)%list. rewrite Hclog, Hlog, app_assoc.
  split; [reflexivity|].
  assert (Hcl : err <> None -> cleanupLog clog).
  { intros Hne. destruct (Hclean Hne st1) as [clog' [Hclog' Gc']].
    rewrite Hclog in Hclog'. apply app_inv_head in Hclog'. now subst. }
  assert (Herr : err <> None ->
            Forall notHashed (mlog ++ clog)%list /\
            exists e, fst (wrapMulter_callback maxTotalSize err req st1) = Ok (NextError e)).
  { intros Hne. destruct err as [err|]; [|congruence]. split.
    - apply Forall_app. split.
      + destruct Hm as [_ Hm]. eapply List.Forall_impl; [|exact Hm].
        intros e He. now destruct e.
      + eapply List.Forall_impl; [|exact (Hcl Hne)]. intros e He. now destruct e.
    - destruct (wrapMulter_callback_error maxTotalSize err req st1) as [st' ->]. eauto. }
  split; [|split; [|split; [|split]]].
  - apply (hashOrdering_of_stages mlog clog (map path (getAllFiles req))); auto.
    + destruct err as [err|].
      * right. apply Hcl. discriminate.
      * left. intros p Hp. apply in_map_iff in Hp. destruct Hp as [f [<- Hf]].
        exists (originalname f). now apply Hst.
    + intros [name Hn]. apply Hcl. now apply (Hrej name).
  - intros p safe Hin. apply in_app_or in Hin. destruct Hin as [Hin|Hin].
    + destruct Hm as [_ Hm]. rewrite List.Forall_forall in Hm. exact (Hm _ Hin).
    + destruct Gc as [_ Gc]. rewrite List.Forall_forall in Gc. exact (Gc _ Hin).
  - intros req' Hnext.
    destruct (wrapMulter_callback maxTotalSize err req st1) as [r st2] eqn:Hcb.
    cbn [fst] in Hnext. subst r.
    destruct (wrapMulter_callback_next _ _ _ _ _ _ Hcb) as [-> [files' [Hp Hreq']]].
    destruct (processFiles_log (getAllFiles req) st1) as [plog [Hplog [_ Hall]]].
    destruct (Hall files' Hp) as [Hpaths Hhashed].
    assert (Hplog' : plog = clog).
    { unfold wrapMulter_callback, try_catch in Hcb.
      match type of Hcb with context [if ?b then _ else _] => destruct b end.
      - destruct (cleanupTempFiles_run req st1) as [log' Hc].
        rewrite (bind_ok _ _ _ _ _ Hc) in Hcb. discriminate.
      - unfold processUploadedFiles in Hcb.
        destruct (processFiles (getAllFiles req) st1) as [[fl|e] st3] eqn:Hpf.
        + rewrite (bind_ok _ _ _ _ _ Hpf) in Hcb. unfold ret in Hcb.
          injection Hcb as _ <-. cbn [snd] in Hplog, Hclog.
          rewrite Hplog in Hclog. now apply app_inv_head in Hclog.
        + discriminate Hp. }
    subst plog. intros f Hf. apply in_or_app. right.
    rewrite Hreq', getAllFiles_withFiles in Hf
      by (rewrite <- (length_map path files'), Hpaths; apply length_map).
    assert (Hpf : In (path f) (map path (getAllFiles req)))
      by (rewrite <- Hpaths; now apply in_map).
    apply in_map_iff in Hpf. destruct Hpf as [g [Hg Hgin]].
    rewrite <- Hg. now apply Hhashed.
  - intros e req0 st0 Hrun'. rewrite Hrun in Hrun'. injection Hrun' as -> _ _.
    apply Herr. discriminate.
  - intros Hex. apply Herr. now apply Hover.
Qed.

Lemma scanLogOf_nil paths : scanLogOf paths [].
Proof. constructor. Qed.

Lemma scanLogOf_app paths a b :
  scanLogOf paths a -> scanLogOf paths b -> scanLogOf paths (a ++ b)%list.
Proof. intros Ha Hb. apply Forall_app. now split. Qed.

Lemma cleanupLog_scanLogOf paths new : cleanupLog new -> scanLogOf paths new.
Proof.
  intros H. eapply List.Forall_impl; [|exact H]. intros e He. now destruct e.
Qed.

Lemma scanFiles_emits (req : Request) (paths : list string) (files : list File) :
  (forall f, In f files -> In (path f) paths) ->
  emits (scanLogOf paths) (scanFiles req files).
Proof.
  induction files as [|f files IH]; intros Hsub; cbn [scanFiles].
  - apply emits_ret, scanLogOf_nil.
  - apply emits_bind; [apply scanLogOf_app | apply emits_get_fs, scanLogOf_nil |].
    intros fs. apply emits_bind; [apply scanLogOf_app | |].
    + apply emits_emit. constructor; [|constructor]. apply Hsub. now left.
    + intros _. destruct (negb _).
      * apply emits_bind; [apply scanLogOf_app | |].
        -- eapply emits_mono; [apply cleanupLog_scanLogOf | apply cleanupTempFiles_emits].
        -- intros _. apply emits_ret, scanLogOf_nil.
      * apply IH. intros g Hg. apply Hsub. now right.
Qed.

Lemma antivirusScan_emits (req : Request) :
  emits (scanLogOf (map path (getAllFiles req))) (antivirusScan req).
Proof.
  unfold antivirusScan. apply emits_try_catch; [apply scanLogOf_app | |].
  - apply scanFiles_emits. intros f Hf. now apply in_map.
  - intros e. apply emits_bind; [apply scanLogOf_app | |].
    + eapply emits_mono; [apply cleanupLog_scanLogOf | apply cleanupTempFiles_emits].
    + intros _. apply emits_ret, scanLogOf_nil.
Qed.

Lemma hashOrdering_scan (up sc : list Event) (paths : list string) :
  hashOrdering up -> scanLogOf paths sc -> hashOrdering (up ++ sc)%list.
Proof.
  intros (H1 & H2 & H3 & H4) Hsc. unfold scanLogOf in Hsc.
  rewrite List.Forall_forall in Hsc.
  split; [|split; [|split]].
  - intros l1 p l2 H. symmetry in H. apply split_app in H.
    destruct H as [[l [-> ->]]|[l [-> ->]]].
    + destruct (H1 l1 p l eq_refl) as [name Hn]. now exists name.
    + exfalso. apply (Hsc (EvHashed p)). apply in_or_app. right. now left.
  - intros l1 name p l2 H. symmetry in H. apply split_app in H.
    destruct H as [[l [-> ->]]|[l [-> ->]]].
    + now apply (H2 l1 name p l).
    + exfalso. apply (Hsc (EvStored name p)). apply in_or_app. right. now left.
  - intros l1 p ok l2 H. symmetry in H. apply split_app in H.
    destruct H as [[l [-> ->]]|[l [-> ->]]].
    + now apply (H3 l1 p ok l).
    + exfalso. apply (Hsc (EvContentChecked p ok)). apply in_or_app. right. now left.
  - intros name Hin p Hp. apply in_app_or in Hin. apply in_app_or in Hp.
    destruct Hin as [Hin|Hin]; [|exact (Hsc _ Hin)].
    destruct Hp as [Hp|Hp]; [exact (H4 name Hin p Hp) | exact (Hsc _ Hp)].
Qed.

Lemma scanAfterHash_none (up : list Event) :
  (forall p safe, ~ In (EvScanned p safe) up) -> scanAfterHash up.
Proof.
  intros Hno l1 p safe l2 ->. exfalso. apply (Hno p safe).
  apply in_or_app. right. now left.
Qed.

Lemma scanAfterHash_scan (up sc : list Event) (paths : list string) :
  (forall p safe, ~ In (EvScanned p safe) up) ->
  (forall p, In p paths -> In (EvHashed p) up) ->
  scanLogOf paths sc ->
  scanAfterHash (up ++ sc)%list.
Proof.
  intros Hno Hhashed Hsc l1 p safe l2 H. unfold scanLogOf in Hsc.
  rewrite List.Forall_forall in Hsc.
  symmetry in H. apply split_app in H. destruct H as [[l [-> ->]]|[l [-> ->]]].
  - exfalso. apply (Hno p safe). apply in_or_app. right. now left.
  - split.
    + apply in_or_app. left. apply Hhashed.
      apply (Hsc (EvScanned p safe)). apply in_or_app. right. now left.
    + intros q Hq. apply (Hsc (EvHashed q)). apply in_or_app. right. now right.
Qed.

Lemma hashOrdering_nil : hashOrdering [].
Proof.
  split; [|split; [|split]].
  - intros l1 p l2 H. destruct l1; discriminate.
  - intros l1 name p l2 H. destruct l1; discriminate.
  - intros l1 p ok l2 H. destruct l1; discriminate.
  - intros name [].
Qed.

Lemma jobApplication_log (body : Body) (host : Host) (parts : list Part) (st : State) :
  exists new,
    st_log (snd (jobApplication body host parts st)) = (st_log st ++ new)%list /\
    hashOrdering new /\ scanAfterHash new.
Proof.
  assert (Hnone : forall o' : Outcome, exists new,
             st_log (snd (ret o' st)) = (st_log st ++ new)%list /\
             hashOrdering new /\ scanAfterHash new).
  { intros o'. exists []. unfold ret. cbn [snd]. rewrite app_nil_r.
    split; [reflexivity|]. split; [apply hashOrdering_nil|].
    apply scanAfterHash_none. intros p safe []. }
  unfold jobApplication.
  destruct (rateLimit body); cbn [bodyCheck]; [|apply Hnone|apply Hnone].
  destruct (wrapMulter_log _ _ None parts st
              (multer_single_stage (singleOptions "resumes" resumeConfig) "resume"))
    as (up & Hup & Hord & Hnoscan & Hnext & _).
  fold uploadResume in Hup, Hnext.
  destruct (uploadResume parts st) as [[o|e] st2] eqn:Hrun; cbn [fst snd] in Hup, Hnext.
  2:{ rewrite (bind_throw _ _ _ _ _ Hrun). exists up. cbn [snd].
      split; [exact Hup|]. split; [exact Hord | now apply scanAfterHash_none]. }
  rewrite (bind_ok _ _ _ _ _ Hrun).
  assert (Hdone : forall o' : Outcome, exists new,
             st_log (snd (ret o' st2)) = (st_log st ++ new)%list /\
             hashOrdering new /\ scanAfterHash new).
  { intros o'. exists up. unfold ret. cbn [snd]. split; [exact Hup|].
    split; [exact Hord | now apply scanAfterHash_none]. }
  destruct o as [req'| |]; [|apply Hdone|apply Hdone].
  destruct (validation body); cbn [bodyCheck]; [|apply Hdone|apply Hdone].
  destruct (xss body); cbn [bodyCheck]; [|apply Hdone|apply Hdone].
  destruct (sanitization body); cbn [bodyCheck]; [|apply Hdone|apply Hdone].
  destruct (checkDiskSpace_cases 2 host req') as [-> | ->]; [apply Hdone|].
  destruct (antivirusScan_emits req' st2) as [sc [Hsc Gsc]].
  exists (up ++ sc)%list. rewrite Hsc, Hup, app_assoc. split; [reflexivity|].
  split.
  - now apply (hashOrdering_scan up sc (map path (getAllFiles req'))).
  - apply (scanAfterHash_scan up sc (map path (getAllFiles req'))); auto.
    intros p Hp. apply in_map_iff in Hp. destruct Hp as [f [<- Hf]].
    now apply (Hnext req' eq_refl).
Qed.

(** C3, as the code has it. In every run of an upload middleware, a file
    is hashed only after multer has handed it over, stored, which it does
    only for a file its file filter accepted; nothing is hashed once the
    filter has rejected a file, nor in a request for which multer reports
    an error of any kind, a size or count limit included. But the
    magic-byte check of a file comes directly after its hash, and in the
    job application route the scanner runs on a file after its hash and
    nothing is hashed once the scanner has started. So a file that fails
    the type filter or a limit of multer is never hashed, while a file that
    fails the magic-byte check or the scan has been hashed already. *)
Theorem hash_ordering :
  (forall opts name maxTotalSize parts st, exists new,
     st_log (snd (wrapMulter (multer_single opts name) maxTotalSize parts st))
     = (st_log st ++ new)%list /\ hashOrdering new /\
     (forall e req st1, multer_single opts name parts st = (Ok (Some e, req), st1) ->
        Forall notHashed new)) /\
  (forall opts fields maxTotalSize parts st, exists new,
     st_log (snd (wrapMulter (multer_fields opts fields) maxTotalSize parts st))
     = (st_log st ++ new)%list /\ hashOrdering new /\
     (forall e req st1, multer_fields opts fields parts st = (Ok (Some e, req), st1) ->
        Forall notHashed new)) /\
  (forall body host parts st, exists new,
     st_log (snd (jobApplication body host parts st)) = (st_log st ++ new)%list /\
     hashOrdering new /\ scanAfterHash new).
Proof.
  split; [|split].
  - intros opts name mts parts st.
    destruct (wrapMulter_log _ _ mts parts st (multer_single_stage opts name))
      as (new & H1 & H2 & _ & _ & H5 & _).
    exists new. split; [exact H1|]. split; [exact H2|].
    intros e req st1 Hrun. now destruct (H5 e req st1 Hrun).
  - intros opts fields mts parts st.
    destruct (wrapMulter_log _ _ mts parts st (multer_fields_stage opts fields))
      as (new & H1 & H2 & _ & _ & H5 & _).
    exists new. split; [exact H1|]. split; [exact H2|].
    intros e req st1 Hrun. now destruct (H5 e req st1 Hrun).
  - apply jobApplication_log.
Qed.







(** ** The size ceiling *)







(** ** Sample runs *)

(** C3 fails as stated: a file declared [application/pdf] that starts with
    the bytes of a DOS executable is hashed, and only then fails the
    magic-byte check. *)
Lemma hashed_before_content_check :
  uploadResume [sample_fake_pdf] (initialState ∅)
  = (Ok (NextError (ValidationException (MsgInvalidContent "cv.pdf"))),
     {| st_fs := ∅;
        st_log := [ EvFiltered "cv.pdf" true;
                    EvStored "cv.pdf" "uploads/resumes/1700000000000_eeeeeeeeeeee.pdf";
                    EvHashed "uploads/resumes/1700000000000_eeeeeeeeeeee.pdf";
                    EvContentChecked "uploads/resumes/1700000000000_eeeeeeeeeeee.pdf" false;
                    EvUnlinked "uploads/resumes/1700000000000_eeeeeeeeeeee.pdf" ] |}).
Proof. vm_compute. reflexivity. Qed.

(** C6 fails as stated. DEL is a control character the pattern does not
    list: a name with DEL in it passes the checks and the resume filter.
    And the directory part of the filename a client sends is gone before
    the checks see the name: [dir/cv.pdf] is accepted, stored and moved to
    its content address as [cv.pdf]. *)
Lemma unsafe_names_accepted :
  isValid (performSecurityChecks sample_del) = true /\
  createFileFilter resumeConfig sample_del = Accept /\
  exists req' st',
    uploadResume [sample_nested] (initialState ∅) = (Ok (Next req'), st') /\
    option_map (map md_originalName) (fileMetadata req') = Some ["cv.pdf"] /\
    st_fs st' !! contentAddress "application/pdf" "cv.pdf" (part_content sample_nested)
    = Some (part_content sample_nested).
Proof.
  split; [vm_compute; reflexivity|]. split; [vm_compute; reflexivity|].
  eexists. eexists. split; [vm_compute; reflexivity|].
  split; vm_compute; reflexivity.
Qed.

(** The empty-file check of [performSecurityChecks] needs the size. *)
Lemma performSecurityChecks_empty (file : File) :
  file_size file = Some 0 -> isValid (performSecurityChecks file) = false.
Proof.
  intros H. apply (performSecurityChecks_invalid file EmptyFile).
  unfold performSecurityChecks. cbn [errors]. rewrite H.
  apply in_or_app. right. now left.
Qed.

(** C5 on a zero-byte voice message: when the file filter runs, multer has
    not stored the file and its size is not set, so the empty-file check
    does not fire; the type [audio/ogg] has no signature; the empty file is
    accepted and stored under the hash of the empty content. *)
Theorem zero_byte_upload_accepted :
  isValid (performSecurityChecks (fileInfo sample_empty_ogg)) = true /\
  exists req' st',
    voiceMessage [sample_empty_ogg] (initialState ∅) = (Ok (Next req'), st') /\
    option_map (map md_size) (fileMetadata req') = Some [Some 0] /\
    st_fs st' !! "uploads/audio/e3b0c44298fc1c149afbf4c8996fb92427ae41e4649b934ca495991b7852b855.ogg"
    = Some [].
Proof.
  split; [reflexivity|].
  eexists. eexists. split; [vm_compute; reflexivity|].
  split; vm_compute; reflexivity.
Qed.

(** A valid PDF through the job application route: hashed, checked and
    moved by [uploadResume]; the scanner then opens [file.path], the
    temporary path the file no longer has, and answers 400. *)
Example job_application_run :
  jobApplication bodyPasses sample_host [sample_real_pdf] (initialState ∅)
  = (Ok (Response 400),
     {| st_fs := {[ "uploads/resumes/38523c087796e5d5dd1cf9bad1fb026781a838dd9dd2cf8af58b9f6502a46778.pdf"
                    := [x25; x50; x44; x46; x2d] ]};
        st_log := [ EvFiltered "cv.pdf" true;
                    EvStored "cv.pdf" "uploads/resumes/1700000000000_ffffffffffff.pdf";
                    EvHashed "uploads/resumes/1700000000000_ffffffffffff.pdf";
                    EvContentChecked "uploads/resumes/1700000000000_ffffffffffff.pdf" true;
                    EvRenamed "uploads/resumes/1700000000000_ffffffffffff.pdf"
                      "uploads/resumes/38523c087796e5d5dd1cf9bad1fb026781a838dd9dd2cf8af58b9f6502a46778.pdf";
                    EvScanned "uploads/resumes/1700000000000_ffffffffffff.pdf" false ] |}).
Proof. vm_compute. reflexivity. Qed.

(** The digest on the two standard test messages. *)
Example sha256_empty :
  SHA256.sha256 [] = "e3b0c44298fc1c149afbf4c8996fb92427ae41e4649b934ca495991b7852b855".
Proof. vm_compute. reflexivity. Qed.

Example sha256_abc :
  SHA256.sha256 [x61; x62; x63]
  = "ba7816bf8f01cfea414140de5dae2223b00361a396177a9cb410ff61f20015ad".
Proof. vm_compute. reflexivity. Qed.

Example extname_samples :
  map Path.extname ["cv.pdf"; "resume.pdf.exe"; ".bashrc"; "a."; ".."; "archive"; "dir.d/file"]
  = [".pdf"; ".exe"; ""; "."; ""; ""; ""].
Proof. reflexivity. Qed.

(** ** The scanner and the job application route *)

Lemma wrapMulter_callback_next_run maxTotalSize error (req req' : Request) (st st' : State) :
  wrapMulter_callback maxTotalSize error req st = (Ok (Next req'), st') ->
  error = None /\
  exists files',
    processFiles (getAllFiles req) st = (Ok files', st') /\
    getAllFiles req' = getAllFiles (withFiles req files') /\
    fileMetadata req' = Some (extractFileMetadata (getAllFiles (withFiles req files'))).
Proof.
  unfold wrapMulter_callback. destruct error as [err|].
  - destruct (cleanupTempFiles_run req st) as [log' Hc].
    rewrite (bind_ok _ _ _ _ _ Hc). destruct err; discriminate.
  - intros H. split; [reflexivity|]. unfold try_catch in H.
    match type of H with context [if ?b then _ else _] => destruct b end.
    + destruct (cleanupTempFiles_run req st) as [log' Hc].
      rewrite (bind_ok _ _ _ _ _ Hc) in H. discriminate.
    + unfold processUploadedFiles in H.
      destruct (processFiles (getAllFiles req) st) as [[files'|e] st1] eqn:Hp.
      * rewrite (bind_ok _ _ _ _ _ Hp) in H. unfold ret in H. injection H as <- <-.
        exists files'. repeat split.
      * rewrite (bind_throw _ _ _ _ _ Hp) in H.
        destruct (cleanupTempFiles_run req st1) as [log' Hc].
        rewrite (bind_ok _ _ _ _ _ Hc) in H. discriminate.
Qed.

(** What a completed run of the loop body did to one file. *)
Lemma processFiles_one (f : File) (st st' : State) (files' : list File) :
  processFiles [f] st = (Ok files', st') ->
  exists c,
    st_fs st !! path f = Some c /\
    validateFileContent (st_fs st) f = true /\
    files' = [set_finalPath (contentAddress (mimetype f) (originalname f) c)
                            (set_hash (SHA256.sha256 c) f)] /\
    st_fs st' = match st_fs st !! contentAddress (mimetype f) (originalname f) c with
                | Some _ => delete (path f) (st_fs st)
                | None => <[contentAddress (mimetype f) (originalname f) c := c]>
                            (delete (path f) (st_fs st))
                end.
Proof.
  intros H.
  destruct (st_fs st !! path f) as [c|] eqn:E.
  2:{ rewrite processFiles_cons in H.
      pose proof (generateFileHash_run (path f) st) as Hh. rewrite E in Hh.
      rewrite (bind_throw _ _ _ _ _ Hh) in H. discriminate. }
  destruct (validateFileContent (st_fs st) f) eqn:Hv.
  2:{ rewrite processFiles_cons in H.
      pose proof (generateFileHash_run (path f) st) as Hh. rewrite E in Hh.
      rewrite (bind_ok _ _ _ _ _ Hh) in H. cbv zeta in H.
      rewrite (bind_ok _ _ _ _ _ (validateFileContentM_run _ _)) in H.
      cbn [st_fs] in H.
      rewrite (validateFileContent_ext (st_fs st) (st_fs st)
                 (set_hash (SHA256.sha256 c) f) f eq_refl eq_refl), Hv in H.
      discriminate. }
  destruct (processFiles_single f c st E Hv) as [log' Hp]. cbv zeta in Hp.
  rewrite Hp in H. injection H as <- <-. exists c. repeat split.
Qed.

Lemma processFiles_one_gone (f : File) (st st' : State) (files' : list File) :
  processFiles [f] st = (Ok files', st') ->
  st_fs st' !! path f = None /\
  exists g, files' = [g] /\ path g = path f.
Proof.
  intros H. destruct (processFiles_one f st st' files' H) as (c & Hc & Hv & -> & Hfs).
  set (dst := contentAddress (mimetype f) (originalname f) c) in *.
  split.
  - rewrite Hfs. destruct (st_fs st !! dst) eqn:E.
    + apply lookup_delete_eq.
    + rewrite lookup_insert_ne by congruence. apply lookup_delete_eq.
  - eexists. split; reflexivity.
Qed.

(** What [multer(opts).single(name)] leaves in the request: at most one
    file, in [req.file]. *)
Lemma multer_single_request opts name parts (st : State) :
  exists err stored st1,
    multer_single opts name parts st
    = (Ok (err, {| req_file := head stored; req_files := None; fileMetadata := None |}), st1).
Proof.
  unfold multer_single.
  destruct (multer_receive_spec opts parts [(name, 1)] 0 [] st)
    as (err & stored' & st' & new & Hrun & _).
  rewrite (bind_ok _ _ _ _ _ Hrun).
  rewrite (bind_ok _ _ _ _ _ (multer_done_run err stored' st')).
  unfold ret. cbn [fst snd]. eauto.
Qed.

(** After a single-file upload middleware has handed the request on, the
    file it carries (if any) is no longer under [file.path]. *)
Lemma single_upload_next opts name maxTotalSize parts (st st' : State) (req' : Request) :
  wrapMulter (multer_single opts name) maxTotalSize parts st = (Ok (Next req'), st') ->
  getAllFiles req' = [] \/
  exists g, getAllFiles req' = [g] /\ st_fs st' !! path g = None.
Proof.
  destruct (multer_single_request opts name parts st) as (err & stored & st1 & Hrun).
  rewrite (wrapMulter_run _ _ _ _ _ _ _ Hrun). intros H.
  destruct (wrapMulter_callback_next_run _ _ _ _ _ _ H) as (-> & files' & Hp & Hreq' & _).
  destruct stored as [|f stored]; cbn [head] in *.
  - left. cbn in Hp. unfold ret in Hp. injection Hp as <- <-. rewrite Hreq'. reflexivity.
  - right. change (getAllFiles _) with [f] in Hp.
    destruct (processFiles_one_gone f st1 st' files' Hp) as (Hgone & g & -> & Hpath).
    exists g. split; [rewrite Hreq'; reflexivity | now rewrite Hpath].
Qed.

Lemma antivirusScan_run (req : Request) (st : State) :
  antivirusScan req st = scanFiles req (getAllFiles req) st.
Proof.
  unfold antivirusScan, try_catch.
  destruct (scanFiles_total req (getAllFiles req) st) as (o & st' & ->). reflexivity.
Qed.

(** The loop of [antivirusScan] on files that all scan clean, and on a
    list with a first flagged file. *)
Lemma scanFiles_all_safe (req : Request) (files : list File) (st : State) :
  (forall f, In f files -> performAntivirusScan (st_fs st) f = true) ->
  exists log', scanFiles req files st = (Ok (Next req), {| st_fs := st_fs st; st_log := log' |}).
Proof.
  revert st. induction files as [|f files IH]; intros [fs log] Hsafe; cbn [scanFiles].
  - unfold ret. eauto.
  - unfold bind at 1, get_fs. cbn [st_fs] in *. rewrite emit_bind_run. cbn [st_fs st_log].
    rewrite (Hsafe f (or_introl eq_refl)). cbn [negb].
    apply (IH {| st_fs := fs; st_log := _ |}). intros g Hg. apply Hsafe. now right.
Qed.

Lemma scanFiles_flagged (req : Request) (files : list File) (st : State) (f : File) :
  In f files -> performAntivirusScan (st_fs st) f = false ->
  exists log', scanFiles req files st
    = (Ok (Response 400),
       {| st_fs := deleteAll (map path (getAllFiles req)) (st_fs st); st_log := log' |}).
Proof.
  revert st. induction files as [|g files IH]; intros [fs log] Hin Hf; [destruct Hin|].
  cbn [scanFiles]. unfold bind at 1, get_fs. cbn [st_fs]. rewrite emit_bind_run.
  cbn [st_fs st_log] in *.
  destruct (performAntivirusScan fs g) eqn:Hg; cbn [negb].
  - destruct Hin as [->|Hin]; [congruence|].
    apply (IH {| st_fs := fs; st_log := _ |} Hin Hf).
  - destruct (cleanupTempFiles_run req {| st_fs := fs;
        st_log := (log ++ [EvScanned (path g) false])%list |}) as [log' Hc].
    rewrite (bind_ok _ _ _ _ _ Hc). unfold ret. eauto.
Qed.

(** X1: the scanner hands the request on exactly when every file of the
    request scans clean, and then leaves the disk alone; as soon as one file
    is flagged it answers 400 and has removed the files of the request at
    the paths they arrived under. *)
Theorem antivirusScan_verdict (req : Request) (st : State) :
  (fst (antivirusScan req st) = Ok (Next req)
   <-> forall f, In f (getAllFiles req) -> performAntivirusScan (st_fs st) f = true) /\
  ((forall f, In f (getAllFiles req) -> performAntivirusScan (st_fs st) f = true) ->
   st_fs (snd (antivirusScan req st)) = st_fs st) /\
  ((exists f, In f (getAllFiles req) /\ performAntivirusScan (st_fs st) f = false) ->
   fst (antivirusScan req st) = Ok (Response 400) /\
   st_fs (snd (antivirusScan req st)) = deleteAll (map path (getAllFiles req)) (st_fs st)).
Proof.
  rewrite antivirusScan_run.
  assert (Hsafe : (forall f, In f (getAllFiles req) -> performAntivirusScan (st_fs st) f = true) ->
                  fst (scanFiles req (getAllFiles req) st) = Ok (Next req) /\
                  st_fs (snd (scanFiles req (getAllFiles req) st)) = st_fs st).
  { intros H. destruct (scanFiles_all_safe req _ st H) as [log' ->]. now split. }
  assert (Hflag : (exists f, In f (getAllFiles req) /\ performAntivirusScan (st_fs st) f = false) ->
                  fst (scanFiles req (getAllFiles req) st) = Ok (Response 400) /\
                  st_fs (snd (scanFiles req (getAllFiles req) st))
                  = deleteAll (map path (getAllFiles req)) (st_fs st)).
  { intros [f [Hin Hf]]. destruct (scanFiles_flagged req _ st f Hin Hf) as [log' ->]. now split. }
  split; [|split; [apply Hsafe | exact Hflag]].
  split; [|apply Hsafe].
  intros Hnext f Hin.
  destruct (performAntivirusScan (st_fs st) f) eqn:E; [reflexivity|].
  destruct Hflag as [H _]; [eauto|]. rewrite H in Hnext. discriminate.
Qed.

(** X2: whenever the job application route hands a request on to the
    controller, the request carries no file. *)
Theorem job_application_never_passes_a_file (body : Body) (host : Host) (parts : list Part)
    (st : State) (req' : Request) :
  fst (jobApplication body host parts st) = Ok (Next req') ->
  getAllFiles req' = [].
Proof.
  unfold jobApplication.
  destruct (rateLimit body); cbn [bodyCheck]; try discriminate.
  destruct (uploadResume parts st) as [[o|e] st1] eqn:Hup.
  2:{ rewrite (bind_throw _ _ _ _ _ Hup). discriminate. }
  rewrite (bind_ok _ _ _ _ _ Hup).
  destruct o as [req1| |]; try discriminate.
  destruct (validation body); cbn [bodyCheck]; try discriminate.
  destruct (xss body); cbn [bodyCheck]; try discriminate.
  destruct (sanitization body); cbn [bodyCheck]; try discriminate.
  destruct (checkDiskSpace_cases 2 host req1) as [-> | ->]; [discriminate|].
  destruct (single_upload_next _ _ _ _ _ _ _ Hup) as [Hnil|[g [Hg Hgone]]].
  - rewrite antivirusScan_run, Hnil. cbn. intros [= <-]. exact Hnil.
  - destruct (scanFiles_flagged req1 (getAllFiles req1) st1 g) as [log' Hs].
    + rewrite Hg. now left.
    + apply (performAntivirusScan_unreadable _ _ (FsError (path g))).
      unfold readHead. now rewrite Hgone.
    + rewrite antivirusScan_run, Hs. discriminate.
Qed.

(** X3: once [uploadResume] has accepted and stored a file, the job
    application route never reaches the controller: the request ends with
    the verdict of the first body middleware that does not pass, and when
    all of them pass, with 507 from the disk guard or 400 from the scanner.
    In each case the disk stays as [uploadResume] left it: the stored file
    is kept although the request failed. *)
Theorem job_application_refuses_accepted_file (body : Body) (host : Host)
    (parts : list Part) (st st1 : State) (req1 : Request) (g : File) :
  rateLimit body = BodyPass ->
  uploadResume parts st = (Ok (Next req1), st1) ->
  getAllFiles req1 = [g] ->
  (exists out,
     fst (jobApplication body host parts st) = Ok out /\
     rejected out /\
     (verdictOf (validation body) out \/
      (validation body = BodyPass /\ verdictOf (xss body) out) \/
      (validation body = BodyPass /\ xss body = BodyPass /\
       verdictOf (sanitization body) out) \/
      (validation body = BodyPass /\ xss body = BodyPass /\
       sanitization body = BodyPass /\ (out = Response 400 \/ out = Response 507)))) /\
  st_fs (snd (jobApplication body host parts st)) = st_fs st1.
Proof.
  intros Hrate Hup Hg. unfold jobApplication. rewrite Hrate. cbn [bodyCheck].
  rewrite (bind_ok _ _ _ _ _ Hup).
  destruct (validation body) as [|e|status]; cbn [bodyCheck];
    [|split; [eexists; split; [reflexivity|]; split; [exact I|]; left; reflexivity
             | reflexivity]..].
  destruct (xss body) as [|e|status]; cbn [bodyCheck];
    [|split; [eexists; split; [reflexivity|]; split; [exact I|];
              right; left; split; reflexivity
             | reflexivity]..].
  destruct (sanitization body) as [|e|status]; cbn [bodyCheck];
    [|split; [eexists; split; [reflexivity|]; split; [exact I|];
              right; right; left; repeat split; reflexivity
             | reflexivity]..].
  destruct (checkDiskSpace_cases 2 host req1) as [-> | ->].
  - split; [|reflexivity]. eexists. split; [reflexivity|]. split; [exact I|].
    right. right. right. repeat split. now right.
  - destruct (single_upload_next _ _ _ _ _ _ _ Hup) as [Hnil|[g' [Hg' Hgone]]];
      [congruence|].
    destruct (scanFiles_flagged req1 (getAllFiles req1) st1 g') as [log' Hs].
    + rewrite Hg'. now left.
    + apply (performAntivirusScan_unreadable _ _ (FsError (path g'))).
      unfold readHead. now rewrite Hgone.
    + rewrite antivirusScan_run, Hs. cbn [fst snd st_fs]. split.
      * eexists. split; [reflexivity|]. split; [exact I|].
        right. right. right. repeat split. now left.
      * rewrite Hg'. cbn. unfold deleteAll. cbn. now apply delete_id.
Qed.

Lemma job_application_never_passes_a_file_witness :
  getAllFiles {| req_file := None; req_files := None; fileMetadata := Some [] |} = [].
Proof.
  apply (job_application_never_passes_a_file bodyPasses sample_host [] (initialState ∅)
           {| req_file := None; req_files := None; fileMetadata := Some [] |}).
  vm_compute. reflexivity.
Defined.

Lemma job_application_refuses_accepted_file_witness :
  fst (jobApplication bodyPasses sample_host [sample_real_pdf] (initialState ∅))
  = Ok (Response 400) /\
  st_fs (snd (jobApplication bodyPasses sample_host [sample_real_pdf] (initialState ∅)))
  = st_fs (snd (uploadResume [sample_real_pdf] (initialState ∅))).
Proof.
  pose (content := part_content sample_real_pdf).
  pose (g := set_finalPath (contentAddress "application/pdf" "cv.pdf" content)
               (set_hash (SHA256.sha256 content) (storedFile "resumes" sample_real_pdf))).
  destruct (job_application_refuses_accepted_file bodyPasses sample_host [sample_real_pdf]
              (initialState ∅)
              (snd (uploadResume [sample_real_pdf] (initialState ∅)))
              {| req_file := Some g; req_files := None;
                 fileMetadata := Some (extractFileMetadata [g]) |} g)
    as [_ Hfs].
  - reflexivity.
  - vm_compute. reflexivity.
  - reflexivity.
  - split; [vm_compute; reflexivity | exact Hfs].
Defined.

(** ** What the scanner and the content check look at *)







Lemma magicBytes_short :
  Forall (Forall (fun magic => (length magic <= 8)%nat)) (map snd magicBytes).
Proof. repeat constructor; simpl; lia. Qed.

(** X6: the content check depends on the declared type and on the first
    eight bytes of the file only. *)
Theorem content_check_reads_eight_bytes (fs1 fs2 : FileSystem) (f1 f2 : File)
    (c1 c2 : list byte) :
  fs1 !! path f1 = Some c1 ->
  fs2 !! path f2 = Some c2 ->
  mimetype f1 = mimetype f2 ->
  firstn 8 c1 = firstn 8 c2 ->
  validateFileContent fs1 f1 = validateFileContent fs2 f2.
Proof.
  intros H1 H2 Hm H8.
  destruct (assoc magicBytes (mimetype f1)) as [sigs|] eqn:E.
  - assert (Hiff : forall c, (exists magic, In magic sigs /\ firstn (length magic) c = magic)
                     <-> (exists magic, In magic sigs /\
                            firstn (length magic) (firstn 8 c) = magic)).
    { pose proof magicBytes_short as Hs. rewrite List.Forall_forall in Hs.
      specialize (Hs sigs (assoc_In _ _ _ E)). rewrite List.Forall_forall in Hs.
      intros c. split; intros [magic [Hin H]]; exists magic; (split; [exact Hin|]);
        specialize (Hs magic Hin); rewrite firstn_firstn in *;
        replace (Nat.min (length magic) 8) with (length magic) in * by lia; exact H. }
    pose proof (validateFileContent_own fs1 f1 c1 sigs H1 E) as V1.
    rewrite Hm in E.
    pose proof (validateFileContent_own fs2 f2 c2 sigs H2 E) as V2.
    rewrite Hiff in V1, V2. rewrite H8 in V1. rewrite <- V2 in V1.
    destruct (validateFileContent fs1 f1), (validateFileContent fs2 f2);
      try reflexivity; [symmetry; now apply V1 | now apply V1].
  - unfold validateFileContent, validateFileContent_try, readHead, magicBytes_get.
    rewrite H1, H2, <- Hm, E. now destruct (JS.includes objectPrototypeKeys (mimetype f1)).
Qed.

Lemma content_check_reads_eight_bytes_witness :
  validateFileContent {[ path sample_pdf := [x25; x50; x44; x46; x2d; x31; x2e; x34; x0a] ]}
    sample_pdf
  = validateFileContent {[ path sample_pdf := [x25; x50; x44; x46; x2d; x31; x2e; x34; xff; xd9] ]}
      sample_pdf.
Proof.
  apply (content_check_reads_eight_bytes _ _ sample_pdf sample_pdf
           [x25; x50; x44; x46; x2d; x31; x2e; x34; x0a]
           [x25; x50; x44; x46; x2d; x31; x2e; x34; xff; xd9]).
  - apply lookup_singleton_eq.
  - apply lookup_singleton_eq.
  - reflexivity.
  - reflexivity.
Defined.

(** ** The shape of the hash and of the stored names *)

Lemma chars_app (a b : string) : chars (a +:+ b) = (chars a ++ chars b)%list.
Proof.
  unfold chars. induction a as [|c a IH]; [reflexivity|].
  change (String c a +:+ b) with (String c (a +:+ b)). cbn [list_ascii_of_string].
  rewrite IH. reflexivity.
Qed.

Lemma chars_length (s : string) : length (chars s) = String.length s.
Proof.
  unfold chars. induction s as [|c s IH]; [reflexivity|].
  cbn [list_ascii_of_string length String.length]. now rewrite IH.
Qed.

Lemma chars_inj (a b : string) : chars a = chars b -> a = b.
Proof.
  intros H. rewrite <- (string_of_list_ascii_of_string a), <- (string_of_list_ascii_of_string b).
  unfold chars in H. now rewrite H.
Qed.

Lemma chars_concat (l : list string) :
  chars (String.concat "" l) = concat (map chars l).
Proof.
  induction l as [|x l IH]; [reflexivity|].
  destruct l as [|y l].
  - cbn. now rewrite app_nil_r.
  - change (String.concat "" (x :: y :: l)) with (x +:+ "" +:+ String.concat "" (y :: l)).
    rewrite !chars_app, IH. reflexivity.
Qed.

Lemma round_length (st : list N) (kw : N * N) : length (SHA256.round st kw) = length st.
Proof.
  destruct st as [|a [|b [|c [|d [|e [|f [|g [|h [|i t]]]]]]]]]; reflexivity.
Qed.

Lemma rounds_length (kws : list (N * N)) (st : list N) :
  length (fold_left SHA256.round kws st) = length st.
Proof.
  revert st. induction kws as [|kw kws IH]; intros st; [reflexivity|].
  cbn. now rewrite IH, round_length.
Qed.

Lemma compress_length (h block : list N) :
  length h = 8%nat -> length (SHA256.compress h block) = 8%nat.
Proof.
  intros H. unfold SHA256.compress.
  rewrite List.length_map, List.length_combine, rounds_length, H. reflexivity.
Qed.

Lemma digest_length (msg : list N) : length (SHA256.digest msg) = 8%nat.
Proof.
  unfold SHA256.digest.
  generalize (SHA256.blocks (length (SHA256.pad msg))
                (SHA256.words (length (SHA256.pad msg)) (SHA256.pad msg))).
  assert (H : length SHA256.H0 = 8%nat) by reflexivity. revert H.
  generalize SHA256.H0. intros h H l. revert h H.
  induction l as [|b l IH]; intros h H; [exact H|].
  cbn. apply IH. now apply compress_length.
Qed.

Lemma hexdigit_hex (n : N) : (n < 16)%N -> hexChar (SHA256.hexdigit n) = true.
Proof.
  intros H.
  destruct n as [|p]; [reflexivity|].
  do 4 (try (destruct p as [p|p|]; try reflexivity)); lia.
Qed.

Lemma nibble_lt (x : N) : (N.land x 0xf < 16)%N.
Proof.
  change 0xf%N with (N.ones 4). rewrite N.land_ones.
  apply N.mod_lt. discriminate.
Qed.

Lemma hex32_chars (x : N) :
  length (chars (SHA256.hex32 x)) = 8%nat /\ Forall (fun c => hexChar c = true) (chars (SHA256.hex32 x)).
Proof.
  unfold SHA256.hex32, chars. rewrite list_ascii_of_string_of_list_ascii. split.
  - reflexivity.
  - apply List.Forall_forall. intros c Hc. apply in_map_iff in Hc as (i & <- & _).
    apply hexdigit_hex, nibble_lt.
Qed.

Lemma concat_hex (l : list N) :
  length (concat (map chars (map SHA256.hex32 l))) = (8 * length l)%nat /\
  Forall (fun c => hexChar c = true) (concat (map chars (map SHA256.hex32 l))).
Proof.
  induction l as [|x l [IHl IHf]]; [split; [reflexivity | constructor]|].
  destruct (hex32_chars x) as [Hl Hf]. cbn [map concat]. split.
  - rewrite List.length_app, Hl, IHl. cbn [length]. lia.
  - apply Forall_app. split; assumption.
Qed.

(** X7: the hash [generateFileHash] returns is 64 characters long, each a
    lower-case hexadecimal digit. *)
Theorem generateFileHash_hex (filePath : string) (st : State) (h : string) :
  fst (generateFileHash filePath st) = Ok h ->
  String.length h = 64%nat /\ Forall (fun c => hexChar c = true) (chars h).
Proof.
  rewrite generateFileHash_run. destruct (st_fs st !! filePath) as [content|]; [|discriminate].
  intros [= <-]. unfold SHA256.sha256.
  destruct (concat_hex (SHA256.digest (map Byte.to_N content))) as [Hl Hf].
  rewrite digest_length in Hl. rewrite <- chars_length, chars_concat. split; assumption.
Qed.


Lemma subdirOf_cases (m : string) :
  In (subdirOf m) ["images"; "audio"; "resumes"; "documents"].
Proof.
  unfold subdirOf.
  destruct (JS.startsWith m "image/"); [cbn; tauto|].
  destruct (JS.startsWith m "audio/"); [cbn; tauto|].
  destruct (_ || _); cbn; tauto.
Qed.



Lemma generateFileHash_hex_witness :
  String.length (SHA256.sha256 [x61; x62; x63]) = 64%nat /\
  Forall (fun c => hexChar c = true) (chars (SHA256.sha256 [x61; x62; x63])).
Proof.
  apply (generateFileHash_hex "uploads/temp/1_aa.txt" sample_batch_state).
  vm_compute. reflexivity.
Defined.

(** ** Single-file uploads from the request to the disk *)

Lemma createFileFilter_accept (cfg : FileTypeConfig) (file : File) :
  createFileFilter cfg file = Accept ->
  JS.includes (extensions cfg) (JS.toLowerCase (Path.extname (originalname file))) = true /\
  JS.includes (mimeTypes cfg) (JS.toLowerCase (mimetype file)) = true /\
  isValid (performSecurityChecks file) = true.
Proof.
  unfold createFileFilter.
  destruct (JS.includes (extensions cfg) _); [|discriminate].
  destruct (JS.includes (mimeTypes cfg) _); [|discriminate].
  destruct (isValid _); [auto | discriminate].
Qed.



Lemma contentAddress_not_empty m name c : String.eqb (contentAddress m name c) "" = false.
Proof. reflexivity. Qed.







(** ** Batches: what a failure leaves behind *)

(** [moveFileToFinalLocation] on a file that is on disk. *)
Lemma moveFile_lookup (file : File) (c : list byte) (st : State) :
  st_fs st !! path file = Some c ->
  exists st',
    moveFileToFinalLocation file st = (Ok (finalPathOf file), st') /\
    (forall p, p <> path file -> p <> finalPathOf file -> st_fs st' !! p = st_fs st !! p) /\
    (forall p x, p <> path file -> st_fs st !! p = Some x -> st_fs st' !! p = Some x) /\
    st_fs st' !! path file = None /\
    (path file <> finalPathOf file ->
     st_fs st' !! finalPathOf file
     = Some (match st_fs st !! finalPathOf file with Some x => x | None => c end)).
Proof.
  intros Hc. destruct (moveFile_run file c st Hc) as [log' Hm].
  eexists. split; [exact Hm|]. cbn [st_fs].
  destruct (st_fs st !! finalPathOf file) as [x|] eqn:E.
  - repeat split.
    + intros p Hp _. now apply lookup_delete_ne.
    + intros p y Hp Hy. rewrite lookup_delete_ne by congruence. exact Hy.
    + apply lookup_delete_eq.
    + intros Hne. rewrite lookup_delete_ne by exact Hne. exact E.
  - repeat split.
    + intros p Hp Hq. rewrite lookup_insert_ne by congruence. now apply lookup_delete_ne.
    + intros p y Hp Hy. rewrite lookup_insert_ne by congruence.
      rewrite lookup_delete_ne by congruence. exact Hy.
    + rewrite lookup_insert_ne by congruence. apply lookup_delete_eq.
    + intros _. apply lookup_insert_eq.
Qed.

(** One turn of the loop of [processUploadedFiles], on a file that fails
    and on a file that passes. *)
Lemma processFiles_step_fail (file : File) (rest : list File) (st : State) :
  st_fs st !! path file = None \/ validateFileContent (st_fs st) file = false ->
  exists e st1, processFiles (file :: rest) st = (Throw e, st1) /\ st_fs st1 = st_fs st.
Proof.
  intros H. rewrite processFiles_cons.
  pose proof (generateFileHash_run (path file) st) as Hh.
  destruct (st_fs st !! path file) as [c|] eqn:E.
  2:{ rewrite (bind_throw _ _ _ _ _ Hh). eauto. }
  destruct H as [H|Hv]; [discriminate|].
  rewrite (bind_ok _ _ _ _ _ Hh). cbv zeta.
  rewrite (bind_ok _ _ _ _ _ (validateFileContentM_run _ _)). cbn [st_fs].
  rewrite (validateFileContent_ext (st_fs st) (st_fs st)
             (set_hash (SHA256.sha256 c) file) file eq_refl eq_refl), Hv.
  eexists. eexists. split; reflexivity.
Qed.

Lemma processFiles_step_ok (file : File) (rest : list File) (st : State) (c : list byte) :
  let dst := contentAddress (mimetype file) (originalname file) c in
  st_fs st !! path file = Some c ->
  validateFileContent (st_fs st) file = true ->
  exists st1,
    processFiles (file :: rest) st
    = (do rest' <- processFiles rest ;
       ret (set_finalPath dst (set_hash (SHA256.sha256 c) file) :: rest')) st1 /\
    (forall p x, p <> path file -> st_fs st !! p = Some x -> st_fs st1 !! p = Some x) /\
    st_fs st1 !! path file = None /\
    (path file <> dst ->
     st_fs st1 !! dst = Some (match st_fs st !! dst with Some x => x | None => c end)).
Proof.
  intros dst Hc Hv. rewrite processFiles_cons.
  pose proof (generateFileHash_run (path file) st) as Hh. rewrite Hc in Hh.
  rewrite (bind_ok _ _ _ _ _ Hh). cbv zeta.
  rewrite (bind_ok _ _ _ _ _ (validateFileContentM_run _ _)). cbn [st_fs].
  rewrite (validateFileContent_ext (st_fs st) (st_fs st)
             (set_hash (SHA256.sha256 c) file) file eq_refl eq_refl), Hv.
  cbn [negb].
  destruct (moveFile_lookup (set_hash (SHA256.sha256 c) file) c
              {| st_fs := st_fs st;
                 st_log := ((st_log st ++ [EvHashed (path file)]) ++
                            [EvContentChecked (path file) true])%list |} Hc)
    as (st1 & Hm & _ & Hkeep & Hgone & Hdst).
  exists st1. rewrite (bind_ok _ _ _ _ _ Hm). split; [reflexivity|].
  split; [exact Hkeep|]. split; [exact Hgone|]. exact Hdst.
Qed.

(** The loop leaves alone every file that is not one of its temporary files. *)
Lemma processFiles_frame (files : list File) (st : State) (p : string) (x : list byte) :
  ~ In p (map path files) ->
  st_fs st !! p = Some x ->
  st_fs (snd (processFiles files st)) !! p = Some x.
Proof.
  revert st. induction files as [|file rest IH]; intros st Hnin Hp; [exact Hp|].
  destruct (st_fs st !! path file) as [c|] eqn:Hc.
  2:{ destruct (processFiles_step_fail file rest st (or_introl Hc)) as (e & st1 & -> & Hfs).
      cbn [snd]. now rewrite Hfs. }
  destruct (validateFileContent (st_fs st) file) eqn:Hv.
  2:{ destruct (processFiles_step_fail file rest st (or_intror Hv)) as (e & st1 & -> & Hfs).
      cbn [snd]. now rewrite Hfs. }
  destruct (processFiles_step_ok file rest st c Hc Hv) as (st1 & -> & Hkeep & _).
  assert (H1 : st_fs st1 !! p = Some x).
  { apply Hkeep; [|exact Hp]. intros ->. apply Hnin. now left. }
  assert (H2 : st_fs (snd (processFiles rest st1)) !! p = Some x).
  { apply IH; [|exact H1]. intros Hin. apply Hnin. now right. }
  unfold bind. destruct (processFiles rest st1) as [[rest'|e] st2]; exact H2.
Qed.

Lemma withinTotal_guard (maxTotalSize : option Z) (req : Request) :
  withinTotal maxTotalSize req ->
  match maxTotalSize, req_files req with
  | Some limit, Some files => truthy maxTotalSize && js_gt (calculateTotalSize files) limit
  | _, _ => false
  end = false.
Proof.
  unfold withinTotal, totalOf. intros H.
  destruct maxTotalSize as [limit|]; [|reflexivity].
  destruct (req_files req) as [files|]; [|reflexivity].
  rewrite (H limit eq_refl). apply andb_false_r.
Qed.

(** X11: there is no rollback: when the first file of a batch has been
    stored and a later file fails, the request ends with that error, the
    temporary files of the batch are gone, and the first file stays under its
    content address. *)
Theorem stored_files_survive_later_failure (maxTotalSize : option Z) (req : Request)
    (first : File) (rest : list File) (content : list byte) (st : State) (e : Exn) :
  let dst := contentAddress (mimetype first) (originalname first) content in
  getAllFiles req = first :: rest ->
  withinTotal maxTotalSize req ->
  st_fs st !! path first = Some content ->
  validateFileContent (st_fs st) first = true ->
  ~ In dst (map path (first :: rest)) ->
  fst (processUploadedFiles req st) = Throw e ->
  exists st',
    wrapMulter_callback maxTotalSize None req st = (Ok (NextError e), st') /\
    st_fs st' !! dst = Some (match st_fs st !! dst with
                             | Some existing => existing
                             | None => content
                             end) /\
    (forall file, In file (getAllFiles req) -> st_fs st' !! path file = None).
Proof.
  intros dst Hfiles Hguard Hc Hv Hnin Hthrow.
  destruct (processUploadedFiles req st) as [r st2] eqn:Hp. cbn [fst] in Hthrow. subst r.
  assert (Hdst : st_fs st2 !! dst = Some (match st_fs st !! dst with
                                          | Some existing => existing
                                          | None => content
                                          end)).
  { unfold processUploadedFiles in Hp. rewrite Hfiles in Hp.
    destruct (processFiles_step_ok first rest st content Hc Hv) as (st1 & Hrun & _ & _ & Hd).
    fold dst in Hrun, Hd. rewrite Hrun in Hp.
    assert (Hd1 : st_fs st1 !! dst = Some (match st_fs st !! dst with
                                           | Some existing => existing
                                           | None => content
                                           end)).
    { apply Hd. intros Heq. apply Hnin. left. exact Heq. }
    pose proof (processFiles_frame rest st1 dst _
                  (fun H => Hnin (or_intror H)) Hd1) as Hframe.
    unfold bind in Hp. destruct (processFiles rest st1) as [[rest'|e'] st3].
    - discriminate.
    - injection Hp as _ <-. exact Hframe. }
  unfold wrapMulter_callback, try_catch.
  rewrite (withinTotal_guard _ _ Hguard).
  rewrite (bind_throw _ _ _ _ _ Hp).
  destruct (cleanupTempFiles_run req st2) as [log' Hclean].
  rewrite (bind_ok _ _ _ _ _ Hclean). unfold ret. eexists. split; [reflexivity|].
  cbn [st_fs]. split.
  - rewrite lookup_deleteAll_notin; [exact Hdst|]. now rewrite Hfiles.
  - intros file Hin. apply lookup_deleteAll_in. now apply in_map.
Qed.

Lemma stored_files_survive_later_failure_witness :
  exists st',
    wrapMulter_callback (Some 10) None sample_pair sample_batch_state
    = (Ok (NextError (FsError "uploads/temp/9_zz.txt")), st') /\
    st_fs st' !! contentAddress "text/plain" "a.txt" [x61; x62; x63]
    = Some [x61; x62; x63].
Proof.
  assert (Hnew : st_fs sample_batch_state !! contentAddress "text/plain" "a.txt" [x61; x62; x63]
                 = None) by (vm_compute; reflexivity).
  destruct (stored_files_survive_later_failure (Some 10) sample_pair
              (sample_txt "a.txt" "uploads/temp/1_aa.txt" 3) [sample_lost]
              [x61; x62; x63] sample_batch_state
              (FsError "uploads/temp/9_zz.txt"))
    as (st' & Hrun & Hdst & _).
  - reflexivity.
  - intros limit [= <-]. reflexivity.
  - vm_compute. reflexivity.
  - vm_compute. reflexivity.
  - vm_compute. intuition discriminate.
  - vm_compute. reflexivity.
  - exists st'. split; [exact Hrun|].
    cbn [mimetype originalname sample_txt] in Hdst. rewrite Hnew in Hdst. exact Hdst.
Defined.

(** ** The total size, the directories and the move *)

Lemma js_add_sizeSum (init : option Z) (l : list File) :
  sum_sizes init l = js_add init (sizeSum l).
Proof.
  unfold sum_sizes, sizeSum. revert init.
  induction l as [|f l IH]; intros init; cbn [fold_left].
  - destruct init; cbn; [f_equal; lia | reflexivity].
  - rewrite IH. cbn [mapM]. destruct init as [a|], (file_size f) as [n|]; cbn.
    + destruct (mapM file_size l) as [sizes|]; cbn; [f_equal; lia | reflexivity].
    + reflexivity.
    + reflexivity.
    + reflexivity.
Qed.

Lemma sizeSum_app (l1 l2 : list File) :
  sizeSum (l1 ++ l2) = js_add (sizeSum l1) (sizeSum l2).
Proof.
  rewrite <- js_add_sizeSum. unfold sum_sizes. 
  transitivity (sum_sizes (Some 0) (l1 ++ l2)).
  - rewrite js_add_sizeSum. destruct (sizeSum (l1 ++ l2)); reflexivity.
  - unfold sum_sizes. rewrite fold_left_app. f_equal.
    change (fold_left _ l1 (Some 0)) with (sum_sizes (Some 0) l1).
    rewrite js_add_sizeSum. destruct (sizeSum l1); reflexivity.
Qed.

(** X12: [calculateTotalSize] is the sum of the sizes of all files of
    [req.files], whether they come as an array or grouped by field, and NaN
    as soon as one size is missing. *)
Theorem calculateTotalSize_sum (files : ReqFiles) :
  calculateTotalSize files = sizeSum (flatten files).
Proof.
  destruct files as [l|m]; cbn [calculateTotalSize flatten].
  - rewrite js_add_sizeSum. destruct (sizeSum l); reflexivity.
  - assert (H : forall init,
               fold_left (fun totalSize fileArray =>
                            js_add totalSize (sum_sizes (Some 0) fileArray))
                         (map snd m) init
               = js_add init (sizeSum (concat (map snd m)))).
    { induction m as [|[k l] m IH]; intros init; cbn [map fold_left concat snd].
      - destruct init; cbn; [f_equal; lia | reflexivity].
      - rewrite IH, sizeSum_app, js_add_sizeSum.
        destruct init, (sizeSum l), (sizeSum (concat (map snd m))); cbn;
          try reflexivity; f_equal; lia. }
    rewrite H. destruct (sizeSum _); reflexivity.
Qed.

(** X13: for the three single-file middlewares, a file the filter accepts
    under a lower-case declared type is moved into the directory its storage
    wrote it to. *)
Theorem upload_directory_agrees (cfg : FileTypeConfig) (subdir : string) (file : File) :
  In (cfg, subdir) singleUploads ->
  createFileFilter cfg file = Accept ->
  mimetype file = JS.toLowerCase (mimetype file) ->
  subdirOf (mimetype file) = subdir.
Proof.
  intros Hin Hacc Hlow.
  destruct (createFileFilter_accept cfg file Hacc) as (_ & Hmime & _).
  rewrite <- Hlow in Hmime. apply includes_In in Hmime.
  cbn in Hin. destruct Hin as [[= <- <-] | [[= <- <-] | [[= <- <-] | []]]];
    cbn in Hmime; repeat (destruct Hmime as [<- | Hmime]; [reflexivity|]); destruct Hmime.
Qed.

Lemma upload_directory_agrees_witness :
  subdirOf (mimetype (fileInfo sample_real_pdf)) = "resumes".
Proof.
  apply (upload_directory_agrees resumeConfig "resumes" (fileInfo sample_real_pdf)).
  - cbn. tauto.
  - vm_compute. reflexivity.
  - vm_compute. reflexivity.
Defined.

(** X14: [moveFileToFinalLocation] on a file that already sits at its final
    path deletes it, and still returns that path. *)
Theorem move_onto_itself_deletes (file : File) (content : list byte) (st : State) :
  st_fs st !! path file = Some content ->
  path file = finalPathOf file ->
  exists st',
    moveFileToFinalLocation file st = (Ok (path file), st') /\
    st_fs st' !! path file = None.
Proof.
  intros Hc Heq. destruct (moveFile_lookup file content st Hc) as (st' & Hm & _ & _ & Hgone & _).
  exists st'. rewrite Heq at 1. split; [exact Hm | exact Hgone].
Qed.

Lemma move_onto_itself_deletes_witness :
  exists st',
    moveFileToFinalLocation sample_in_place (initialState {[ path sample_in_place := [x61] ]})
    = (Ok (path sample_in_place), st') /\
    st_fs st' !! path sample_in_place = None.
Proof.
  apply (move_onto_itself_deletes sample_in_place [x61]).
  - apply lookup_singleton_eq.
  - reflexivity.
Defined.

(** ** The sweep of old temporary files *)

Lemma unlink_quiet_run (p : string) (st : State) :
  exists log',
    try_catch (unlinkSync p) (fun _ => ret tt) st
    = (Ok tt, {| st_fs := delete p (st_fs st); st_log := log' |}).
Proof.
  destruct st as [fs log].
  unfold try_catch, unlinkSync, bind, get_fs, put_fs, emit, throw, ret. cbn [st_fs st_log].
  destruct (fs !! p) as [c|] eqn:E.
  - eexists. reflexivity.
  - exists log. now rewrite delete_id.
Qed.

Lemma sweepFiles_cons_ok now_ maxAge mtime_ (file : string) (modified : Z) (st : State) :
  mtime_ (Path.join tempDir file) = Some modified ->
  exists st1,
    st_fs st1 = (if maxAge <? now_ - modified
                 then delete (Path.join tempDir file) (st_fs st)
                 else st_fs st) /\
    forall rest,
      sweepFiles now_ maxAge mtime_ (file :: rest) st
      = sweepFiles now_ maxAge mtime_ rest st1.
Proof.
  intros Hm. cbn [sweepFiles]. cbv zeta. rewrite Hm.
  destruct (maxAge <? now_ - modified).
  - destruct (unlink_quiet_run (Path.join tempDir file) st) as [log' Hu].
    eexists. split; [|intros rest; now rewrite (bind_ok _ _ _ _ _ Hu)]. reflexivity.
  - exists st. split; reflexivity.
Qed.

Lemma sweepFiles_cons_throw now_ maxAge mtime_ (file : string) (rest : list string)
    (st : State) :
  mtime_ (Path.join tempDir file) = None ->
  sweepFiles now_ maxAge mtime_ (file :: rest) st
  = (Throw (FsError (Path.join tempDir file)), st).
Proof. intros Hm. cbn [sweepFiles]. cbv zeta. now rewrite Hm. Qed.

(** Every path the loop changes is an expired entry, and it is removed. *)
Lemma sweepFiles_safe now_ maxAge mtime_ (files : list string) (st : State) (p : string) :
  st_fs (snd (sweepFiles now_ maxAge mtime_ files st)) !! p = st_fs st !! p \/
  (st_fs (snd (sweepFiles now_ maxAge mtime_ files st)) !! p = None /\
   exists file modified,
     In file files /\ p = Path.join tempDir file /\
     mtime_ p = Some modified /\ maxAge < now_ - modified).
Proof.
  revert st. induction files as [|file rest IH]; intros st; [now left|].
  destruct (mtime_ (Path.join tempDir file)) as [modified|] eqn:Hm.
  2:{ rewrite (sweepFiles_cons_throw _ _ _ _ _ _ Hm). now left. }
  destruct (sweepFiles_cons_ok now_ maxAge mtime_ file modified st Hm) as (st1 & Hfs & ->).
  destruct (IH st1) as [Hsame | [Hnone (f & t & Hin & Hp & Ht & Hage)]].
  - rewrite Hsame, Hfs.
    destruct (maxAge <? now_ - modified) eqn:Hage; [|now left].
    destruct (String.string_dec p (Path.join tempDir file)) as [->|Hne].
    + right. split; [apply lookup_delete_eq|].
      exists file, modified. apply Z.ltb_lt in Hage.
      repeat split; [now left | exact Hm | exact Hage].
    + left. apply lookup_delete_ne. congruence.
  - right. split; [exact Hnone|]. exists f, t.
    repeat split; [now right | exact Hp | exact Ht | exact Hage].
Qed.

(** When every entry can be stat'ed the loop completes and has removed the
    expired entries, nothing else. *)
Lemma sweepFiles_exact now_ maxAge mtime_ (files : list string) (st : State) :
  (forall file, In file files -> is_Some (mtime_ (Path.join tempDir file))) ->
  exists st',
    sweepFiles now_ maxAge mtime_ files st = (Ok tt, st') /\
    st_fs st'
    = deleteAll
        (map (Path.join tempDir)
           (List.filter (fun file =>
                           match mtime_ (Path.join tempDir file) with
                           | Some modified => maxAge <? now_ - modified
                           | None => false
                           end) files))
        (st_fs st).
Proof.
  revert st. induction files as [|file rest IH]; intros st Hstat.
  - exists st. split; reflexivity.
  - destruct (Hstat file (or_introl eq_refl)) as [modified Hm].
    destruct (sweepFiles_cons_ok now_ maxAge mtime_ file modified st Hm) as (st1 & Hfs & ->).
    destruct (IH st1 (fun f Hf => Hstat f (or_intror Hf))) as (st' & -> & Hfs').
    exists st'. split; [reflexivity|]. rewrite Hfs', Hfs. cbn [List.filter]. rewrite Hm.
    destruct (maxAge <? now_ - modified); reflexivity.
Qed.

(** The loop ends at the first entry that cannot be stat'ed. *)
Lemma sweepFiles_stops now_ maxAge mtime_ (before after : list string) (bad : string)
    (st : State) :
  mtime_ (Path.join tempDir bad) = None ->
  snd (sweepFiles now_ maxAge mtime_ (before ++ bad :: after) st)
  = snd (sweepFiles now_ maxAge mtime_ before st).
Proof.
  intros Hbad. revert st. induction before as [|file rest IH]; intros st.
  - cbn [app]. now rewrite (sweepFiles_cons_throw _ _ _ _ _ _ Hbad).
  - cbn [app]. destruct (mtime_ (Path.join tempDir file)) as [modified|] eqn:Hm.
    + destruct (sweepFiles_cons_ok now_ maxAge mtime_ file modified st Hm) as (st1 & _ & Hrun).
      rewrite !Hrun. apply IH.
    + now rewrite !(sweepFiles_cons_throw _ _ _ _ _ _ Hm).
Qed.

Lemma cleanupOldFiles_run (maxAgeHours : Z) (env : Sweep) (req : Request) (st : State) :
  cleanupOldFiles maxAgeHours env req st
  = (Ok (Next req),
     if drawSkips env then st
     else if tempDirExists env
          then snd (sweepFiles (now env) (maxAgeHours * 60 * 60 * 1000) (mtime env)
                      (entries env) st)
          else st).
Proof.
  unfold cleanupOldFiles, try_catch. destruct (drawSkips env); [reflexivity|].
  cbv zeta. destruct (tempDirExists env); [|reflexivity].
  unfold bind. destruct (sweepFiles _ _ _ _ st) as [[[]|e] st']; reflexivity.
Qed.

(** X15: the sweep always hands the request on; it adds nothing to the disk,
    and a path it changes is an entry of the temporary directory older than
    the age limit, in a run where the draw did not skip the sweep. *)
Theorem cleanupOldFiles_safe (maxAgeHours : Z) (env : Sweep) (req : Request) (st : State) :
  exists st',
    cleanupOldFiles maxAgeHours env req st = (Ok (Next req), st') /\
    st_fs st' ⊆ st_fs st /\
    (forall p, st_fs st' !! p <> st_fs st !! p ->
       drawSkips env = false /\ tempDirExists env = true /\ expired maxAgeHours env p).
Proof.
  rewrite cleanupOldFiles_run. eexists. split; [reflexivity|].
  assert (H : forall p,
            st_fs (if drawSkips env then st
                   else if tempDirExists env
                        then snd (sweepFiles (now env) (maxAgeHours * 60 * 60 * 1000)
                                    (mtime env) (entries env) st)
                        else st) !! p = st_fs st !! p \/
            (st_fs (if drawSkips env then st
                    else if tempDirExists env
                         then snd (sweepFiles (now env) (maxAgeHours * 60 * 60 * 1000)
                                     (mtime env) (entries env) st)
                         else st) !! p = None /\
             drawSkips env = false /\ tempDirExists env = true /\ expired maxAgeHours env p)).
  { intros p. destruct (drawSkips env); [now left|].
    destruct (tempDirExists env); [|now left].
    destruct (sweepFiles_safe (now env) (maxAgeHours * 60 * 60 * 1000) (mtime env)
                (entries env) st p) as [Hs | [Hn Hex]]; [now left|].
    right. split; [exact Hn|]. split; [reflexivity|]. split; [reflexivity|]. exact Hex. }
  split.
  - apply map_subseteq_spec. intros p c Hp.
    destruct (H p) as [Hs | [Hn _]]; congruence.
  - intros p Hne. destruct (H p) as [Hs | [_ Hex]]; [contradiction | exact Hex].
Qed.

(** X16: when the draw does not skip the sweep, the temporary directory
    exists and every listed entry has a modification time, the disk afterwards
    is the disk before without the entries older than the age limit. *)
Theorem cleanupOldFiles_exact (maxAgeHours : Z) (env : Sweep) (req : Request) (st : State) :
  drawSkips env = false ->
  tempDirExists env = true ->
  (forall file, In file (entries env) -> is_Some (mtime env (Path.join tempDir file))) ->
  st_fs (snd (cleanupOldFiles maxAgeHours env req st))
  = deleteAll (map (Path.join tempDir) (List.filter (expiredb maxAgeHours env) (entries env)))
      (st_fs st).
Proof.
  intros Hdraw Hdir Hstat. rewrite cleanupOldFiles_run, Hdraw, Hdir. cbn [snd].
  destruct (sweepFiles_exact (now env) (maxAgeHours * 60 * 60 * 1000) (mtime env)
              (entries env) st Hstat) as (st' & -> & Hfs).
  exact Hfs.
Qed.

Lemma cleanupOldFiles_exact_witness :
  st_fs (snd (cleanupOldFiles 24 sample_sweep sample_batch sample_batch_state))
  = deleteAll ["uploads/temp/1_aa.txt"] (st_fs sample_batch_state).
Proof.
  apply (cleanupOldFiles_exact 24 sample_sweep sample_batch sample_batch_state).
  - reflexivity.
  - reflexivity.
  - intros file [<- | [<- | []]]; vm_compute; eauto.
Defined.

(** X17: an entry without modification time ends the sweep: the outcome
    is that of a sweep over the entries listed before it, so the entries
    listed after it stay, however old. *)
Theorem cleanupOldFiles_stops_at_unreadable (maxAgeHours : Z) (env : Sweep)
    (before after : list string) (bad : string) (req : Request) (st : State) :
  entries env = (before ++ bad :: after)%list ->
  mtime env (Path.join tempDir bad) = None ->
  cleanupOldFiles maxAgeHours env req st
  = cleanupOldFiles maxAgeHours (withEntries env before) req st.
Proof.
  intros Hentries Hbad. rewrite !cleanupOldFiles_run.
  cbn [withEntries drawSkips tempDirExists entries now mtime].
  rewrite Hentries, (sweepFiles_stops _ _ _ _ _ _ _ Hbad). reflexivity.
Qed.

Lemma cleanupOldFiles_stops_at_unreadable_witness :
  st_fs (snd (cleanupOldFiles 24 (withEntries sample_sweep ["9_zz.txt"; "1_aa.txt"])
                sample_batch sample_batch_state))
  = st_fs sample_batch_state.
Proof.
  rewrite (cleanupOldFiles_stops_at_unreadable 24
             (withEntries sample_sweep ["9_zz.txt"; "1_aa.txt"]) [] ["1_aa.txt"] "9_zz.txt");
    reflexivity.
Defined.

Lemma tempDir_not_contentAddress (file mimetype_ name : string) (content : list byte) :
  Path.join tempDir file <> contentAddress mimetype_ name content.
Proof.
  unfold contentAddress, tempDir, Path.join, uploadDir.
  pose proof (subdirOf_cases mimetype_) as Hsub. cbn [In] in Hsub.
  destruct Hsub as [<- | [<- | [<- | [<- | []]]]]; discriminate.
Qed.

Lemma tempDir_not_storagePath (file subdir : string) (part : Part) :
  In subdir ["resumes"; "images"; "audio"] ->
  Path.join tempDir file <> storagePath subdir part.
Proof.
  unfold storagePath, tempDir, Path.join, uploadDir. cbv zeta. cbn [In].
  intros [<- | [<- | [<- | []]]]; discriminate.
Qed.

(** X18: the sweep never touches a content address, nor a temporary file
    of the single-file middlewares, which write to their own directories. *)
Theorem cleanupOldFiles_spares_stored_files (maxAgeHours : Z) (env : Sweep) (req : Request)
    (st : State) (p : string) :
  (exists mimetype_ name content, p = contentAddress mimetype_ name content) \/
  (exists cfg subdir part, In (cfg, subdir) singleUploads /\ p = storagePath subdir part) ->
  st_fs (snd (cleanupOldFiles maxAgeHours env req st)) !! p = st_fs st !! p.
Proof.
  intros Hp. rewrite cleanupOldFiles_run. cbn [snd].
  destruct (drawSkips env); [reflexivity|]. destruct (tempDirExists env); [|reflexivity].
  destruct (sweepFiles_safe (now env) (maxAgeHours * 60 * 60 * 1000) (mtime env)
              (entries env) st p) as [Hs | [_ (file & t & _ & Hpath & _)]]; [exact Hs|].
  exfalso. destruct Hp as [(m & name & content & ->) | (cfg & subdir & part & Hin & ->)].
  - exact (tempDir_not_contentAddress _ _ _ _ (eq_sym Hpath)).
  - apply (tempDir_not_storagePath file subdir part); [|now symmetry].
    cbn in Hin. destruct Hin as [[= _ <-] | [[= _ <-] | [[= _ <-] | []]]]; cbn; tauto.
Qed.

Lemma cleanupOldFiles_spares_stored_files_witness :
  st_fs (snd (cleanupOldFiles 24 sample_sweep sample_batch sample_batch_state))
    !! contentAddress "text/plain" "a.txt" [x61; x62; x63]
  = st_fs sample_batch_state !! contentAddress "text/plain" "a.txt" [x61; x62; x63].
Proof.
  apply (cleanupOldFiles_spares_stored_files 24 sample_sweep sample_batch sample_batch_state).
  left. exists "text/plain", "a.txt", [x61; x62; x63]. reflexivity.
Defined.

(** ** The report of df *)

Lemma app_cons_s (c : ascii) (a b : string) : String c a +:+ b = String c (a +:+ b).
Proof. reflexivity. Qed.

Lemma app_nil_s (b : string) : "" +:+ b = b.
Proof. reflexivity. Qed.

Lemma app_nil_r_s (a : string) : a +:+ "" = a.
Proof.
  induction a as [|x a IH]; [reflexivity|]. rewrite app_cons_s. now rewrite IH.
Qed.

Lemma app_assoc_s (a b c : string) : (a +:+ b) +:+ c = a +:+ b +:+ c.
Proof.
  induction a as [|x a IH]; [reflexivity|].
  change (String x ((a +:+ b) +:+ c) = String x (a +:+ b +:+ c)). now rewrite IH.
Qed.

Lemma noneOf_app (f : ascii -> bool) (a b : string) :
  noneOf f (a +:+ b) <-> noneOf f a /\ noneOf f b.
Proof.
  unfold noneOf. induction a as [|c a IH]; rewrite ?app_cons_s, ?app_nil_s; cbn [JS.test_class].
  - tauto.
  - destruct (f c); cbn [orb]; [|exact IH].
    split; [intros H | intros [H _]]; discriminate H.
Qed.

Lemma noneOf_weaken (f g : ascii -> bool) (s : string) :
  (forall c, g c = true -> f c = true) -> noneOf f s -> noneOf g s.
Proof.
  unfold noneOf. intros Hfg. induction s as [|c s IH]; [reflexivity|].
  cbn [JS.test_class]. intros H. apply orb_false_elim in H as [Hc Hs].
  rewrite (IH Hs), orb_false_r. destruct (g c) eqn:E; [|reflexivity].
  rewrite (Hfg c E) in Hc. discriminate.
Qed.

Lemma newline_white (c : ascii) : isNewline c = true -> isWhiteSpace c = true.
Proof. unfold isNewline. intros H. apply Ascii.eqb_eq in H. now subst c. Qed.

(** [split] walks over a piece without the separator. *)
Lemma split_aux_clean (sep : ascii) (a s cur : string) :
  noneOf (fun c => Ascii.eqb c sep) a ->
  JS.split_aux sep (a +:+ s) cur = JS.split_aux sep s (cur +:+ a).
Proof.
  revert cur. induction a as [|c a IH]; intros cur H.
  - rewrite app_nil_s. now rewrite app_nil_r_s.
  - unfold noneOf in H. cbn [JS.test_class] in H. apply orb_false_elim in H as [Hc Ha].
    rewrite app_cons_s. cbn [JS.split_aux]. rewrite Hc.
    rewrite (IH _ Ha), app_assoc_s. reflexivity.
Qed.

Lemma split_second_line (header line more : string) :
  noneOf isNewline header -> noneOf isNewline line -> ledBy isNewline more ->
  nth_error (JS.split newline (header +:+ String newline (line +:+ more))) 1 = Some line.
Proof.
  intros Hh Hl Hm. unfold JS.split. rewrite (split_aux_clean newline _ _ _ Hh).
  cbn [JS.split_aux]. rewrite Ascii.eqb_refl. cbn [nth_error].
  rewrite (split_aux_clean newline _ _ _ Hl), app_nil_s.
  destruct more as [|c more]; [reflexivity|].
  cbn [ledBy] in Hm. unfold isNewline in Hm. cbn [JS.split_aux]. now rewrite Hm.
Qed.

(** [split(/\s+/)] walks over a column, and over blanks. *)
Lemma splitWhite_column (a s cur : string) (gap : bool) :
  column a ->
  splitWhite_aux (a +:+ s) cur gap = splitWhite_aux s (cur +:+ a) false.
Proof.
  intros [Hne Hw]. destruct a as [|c a]; [contradiction|]. clear Hne.
  revert c cur gap Hw. induction a as [|d a IH]; intros c cur gap Hw;
    unfold noneOf in Hw; cbn [JS.test_class] in Hw; apply orb_false_elim in Hw as [Hc Ha];
    rewrite app_cons_s; cbn [splitWhite_aux]; rewrite Hc.
  - reflexivity.
  - rewrite (IH d _ false Ha), app_assoc_s. reflexivity.
Qed.

Lemma splitWhite_gap (a s cur : string) :
  allOf isWhiteSpace a ->
  splitWhite_aux (a +:+ s) cur true = splitWhite_aux s cur true.
Proof.
  unfold allOf. induction a as [|c a IH]; intros H; [reflexivity|].
  cbn [JS.test_class] in H. apply orb_false_elim in H as [Hc Ha].
  apply negb_false_iff in Hc. rewrite app_cons_s. cbn [splitWhite_aux]. rewrite Hc. now apply IH.
Qed.

Lemma splitWhite_blanks (a s cur : string) :
  blanks a ->
  splitWhite_aux (a +:+ s) cur false = cur :: splitWhite_aux s "" true.
Proof.
  intros (Hne & Hw & _). destruct a as [|c a]; [contradiction|].
  unfold allOf in Hw. cbn [JS.test_class] in Hw. apply orb_false_elim in Hw as [Hc Ha].
  apply negb_false_iff in Hc. rewrite app_cons_s. cbn [splitWhite_aux]. rewrite Hc.
  f_equal. now apply splitWhite_gap.
Qed.

(** The digit characters. *)
Lemma digit_cases (d : Z) : 0 <= d <= 9 ->
  In d [0; 1; 2; 3; 4; 5; 6; 7; 8; 9].
Proof. cbn. lia. Qed.

Ltac each_digit H :=
  apply digit_cases in H; cbn [In] in H;
  repeat (destruct H as [<- | H]); [.. | destruct H].

Lemma digit_char (d : Z) :
  0 <= d <= 9 ->
  let c := ascii_of_N (Z.to_N (48 + d)) in
  isWhiteSpace c = false /\ isNewline c = false /\ digitValue 10 c = Some d /\
  digitValue 16 c = Some d /\
  c <> "-"%char /\ c <> "+"%char /\ c <> "x"%char /\ c <> "X"%char.
Proof. intros H. each_digit H; repeat split; discriminate. Qed.

Lemma digitsString_column (ds : list Z) : isDecimal ds -> column (digitsString ds).
Proof.
  intros [Hne Hall]. split.
  - destruct ds; [contradiction | discriminate].
  - clear Hne. unfold noneOf, digitsString. induction Hall as [|d ds Hd _ IH]; [reflexivity|].
    cbn [map string_of_list_ascii JS.test_class].
    destruct (digit_char d Hd) as (-> & _). exact IH.
Qed.

Lemma digitsString_noNewline (ds : list Z) : isDecimal ds -> noneOf isNewline (digitsString ds).
Proof.
  intros H. apply (noneOf_weaken isWhiteSpace); [exact newline_white|].
  now apply digitsString_column.
Qed.

Lemma parseDigits_decimal (ds : list Z) (a : Z) :
  Forall (fun d => 0 <= d <= 9) ds ->
  parseDigits 10 (digitsString ds) (Some a) = Some (fold_left (fun a d => 10 * a + d) ds a).
Proof.
  intros Hall. revert a. induction Hall as [|d ds Hd _ IH]; intros a; [reflexivity|].
  unfold digitsString. cbn [map string_of_list_ascii parseDigits fold_left].
  destruct (digit_char d Hd) as (_ & _ & -> & _). apply IH.
Qed.

Lemma parseInt_decimal (ds : list Z) :
  isDecimal ds -> parseInt (digitsString ds) = Some (decimal ds).
Proof.
  intros [Hne Hall]. destruct ds as [|d ds]; [contradiction|]. clear Hne.
  inversion Hall as [|? ? Hd Hrest]; subst.
  assert (Hdigits : parseDigits 10 (digitsString (d :: ds)) None
                    = Some (decimal (d :: ds))).
  { unfold digitsString, decimal. cbn [map string_of_list_ascii parseDigits fold_left].
    destruct (digit_char d Hd) as (_ & _ & -> & _).
    apply (parseDigits_decimal ds _ Hrest). }
  assert (Hshape : parseInt (digitsString (d :: ds))
                   = match parseDigits 10 (digitsString (d :: ds)) None with
                     | Some n => Some (1 * n)
                     | None => None
                     end).
  { unfold digitsString. cbn [map string_of_list_ascii].
    destruct ds as [|d2 ds].
    - each_digit Hd; reflexivity.
    - inversion Hrest as [|? ? Hd2 _]; subst. cbn [map string_of_list_ascii].
      each_digit Hd; try reflexivity.
      each_digit Hd2; reflexivity. }
  rewrite Hshape, Hdigits. f_equal. lia.
Qed.

Lemma column_noNewline (s : string) : column s -> noneOf isNewline s.
Proof. intros [_ H]. exact (noneOf_weaken isWhiteSpace _ s newline_white H). Qed.

Lemma blanks_noNewline (s : string) : blanks s -> noneOf isNewline s.
Proof. now intros (_ & _ & H). Qed.

(** X19: on a well-formed report of [df -k] whose fourth column of the
    second line is a safe integer, the probe yields 1024 times that column,
    and the guard, with a safe integer as threshold in gigabytes, answers
    507 exactly when that is below its threshold. *)
Theorem disk_guard_reads_available (minFreeSpaceGB : Z) (host : Host) (req : Request)
    (stdout : string) (ds : list Z) :
  uploadDirExists host = true ->
  isWindows host = false ->
  execResult host = ExecOutput stdout ->
  dfReport stdout ds ->
  safeInteger (decimal ds) ->
  safeInteger minFreeSpaceGB ->
  getFreeDiskSpace false (ExecOutput stdout) = Ok (Some (decimal ds * 1024)) /\
  checkDiskSpace minFreeSpaceGB host req
  = (if decimal ds * 1024 <? minFreeSpaceGB * 1024 * 1024 * 1024
     then Response 507 else Next req).
Proof.
  intros Hdir Hunix Hexec Hreport _ _. revert Hreport.
  intros (header & c0 & b0 & c1 & b1 & c2 & b2 & tail & more & -> &
          Hh & Hc0 & Hb0 & Hc1 & Hb1 & Hc2 & Hb2 & Hds & Htl & Htn & Hm).
  set (line := c0 +:+ b0 +:+ c1 +:+ b1 +:+ c2 +:+ b2 +:+ digitsString ds +:+ tail) in *.
  assert (Hline : noneOf isNewline line).
  { unfold line.
    repeat (apply noneOf_app; split);
      first [ apply column_noNewline; assumption
            | apply blanks_noNewline; assumption
            | apply digitsString_noNewline; assumption
            | assumption ]. }
  assert (Hparts : exists more', splitWhite line
                                 = c0 :: c1 :: c2 :: digitsString ds :: more').
  { unfold splitWhite, line.
    rewrite (splitWhite_column _ _ _ _ Hc0), app_nil_s.
    rewrite (splitWhite_blanks _ _ _ Hb0).
    rewrite (splitWhite_column _ _ _ _ Hc1), app_nil_s.
    rewrite (splitWhite_blanks _ _ _ Hb1).
    rewrite (splitWhite_column _ _ _ _ Hc2), app_nil_s.
    rewrite (splitWhite_blanks _ _ _ Hb2).
    rewrite <- (app_nil_r_s tail).
    rewrite (splitWhite_column _ _ _ _ (digitsString_column ds Hds)), app_nil_s.
    rewrite app_nil_r_s.
    destruct tail as [|c tail]; [exists []; reflexivity|].
    cbn [ledBy] in Htl. cbn [splitWhite_aux]. rewrite Htl. eexists. reflexivity. }
  destruct Hparts as [more' Hparts].
  assert (Hprobe : getFreeDiskSpace false
                     (ExecOutput (header +:+ String newline (line +:+ more)))
                   = Ok (Some (decimal ds * 1024))).
  2:{ split; [exact Hprobe|].
      unfold checkDiskSpace, checkDiskSpace_try. rewrite Hdir, Hunix, Hexec. cbn [negb].
      rewrite Hprobe. cbn [js_lt]. now destruct (_ <? _). }
  unfold getFreeDiskSpace. cbv zeta.
  rewrite (split_second_line header line more Hh Hline Hm).
  assert (Hnonempty : truthyString (Some line) = true).
  { unfold line. destruct Hc0 as [Hne _]. destruct c0; [contradiction | reflexivity]. }
  rewrite Hnonempty. cbn [negb]. rewrite Hparts.
  assert (Hfield : truthyString (Some (digitsString ds)) = true).
  { destruct (digitsString_column ds Hds) as [Hne _].
    destruct (digitsString ds); [contradiction | reflexivity]. }
  cbn [nth_error length]. rewrite Hfield.
  replace (Z.of_nat (S (S (S (S (length more'))))) <? 4) with false
    by (symmetry; apply Z.ltb_ge; lia).
  cbn [orb negb]. rewrite (parseInt_decimal ds Hds). reflexivity.
Qed.

Lemma disk_guard_reads_available_witness :
  getFreeDiskSpace false (execResult sample_host) = Ok (Some (18462524 * 1024)) /\
  checkDiskSpace 2 sample_host emptyRequest = Next emptyRequest.
Proof.
  apply (disk_guard_reads_available 2 sample_host emptyRequest _ [1; 8; 4; 6; 2; 5; 2; 4]);
    try reflexivity; try (unfold safeInteger; cbn; lia).
  exists "Filesystem     1K-blocks     Used Available Use% Mounted on",
    "/dev/sda1", "       ", "41151808", " ", "20575904", "  ", "  53% /",
    (String newline "").
  repeat split; try discriminate; try reflexivity.
  repeat constructor; lia.
Defined.

(** ** Filename checks: what the denylist sees *)

Lemma split_two (base ext : string) :
  noneOf isDot base -> noneOf isDot ext ->
  JS.split "." (base +:+ "." +:+ ext) = [base; ext].
Proof.
  intros Hb He. unfold JS.split. rewrite (split_aux_clean "." _ _ _ Hb), app_nil_s.
  rewrite app_cons_s, app_nil_s. cbn [JS.split_aux]. rewrite Ascii.eqb_refl.
  rewrite <- (app_nil_r_s ext) at 1. rewrite (split_aux_clean "." _ _ _ He). reflexivity.
Qed.

Lemma split_aux_nonempty (sep : ascii) (s cur : string) :
  (1 <= length (JS.split_aux sep s cur))%nat.
Proof.
  revert cur. induction s as [|c s IH]; intros cur; cbn [JS.split_aux]; [cbn; lia|].
  destruct (Ascii.eqb c sep); [cbn; lia | apply IH].
Qed.

Lemma split_aux_two (sep : ascii) (s cur : string) :
  JS.test_class (fun c => Ascii.eqb c sep) s = true ->
  (2 <= length (JS.split_aux sep s cur))%nat.
Proof.
  revert cur. induction s as [|c s IH]; intros cur; cbn [JS.split_aux JS.test_class];
    [discriminate|].
  destruct (Ascii.eqb c sep); cbn [orb].
  - intros _. cbn [length]. pose proof (split_aux_nonempty sep s ""). lia.
  - apply IH.
Qed.

(** X20: a name with one dot, without dangerous characters and at most 255
    long, passes the security checks whatever its extension is: the
    executable denylist is consulted for names with two dots or more only. *)
Theorem single_extension_not_screened (file : File) (base ext : string) :
  originalname file = base +:+ "." +:+ ext ->
  noneOf isDot base -> noneOf isDot ext ->
  noneOf dangerousChar (originalname file) ->
  (String.length (originalname file) <= 255)%nat ->
  file_size file <> Some 0 ->
  errors (performSecurityChecks file) = [] /\
  isValid (performSecurityChecks file) = true.
Proof.
  intros Hname Hb He Hsafe Hlen Hsize.
  assert (Herrs : errors (performSecurityChecks file) = []).
  { unfold performSecurityChecks, nameErrors. cbv zeta. cbn [errors].
    unfold noneOf in Hsafe. rewrite Hsafe.
    replace (255 <? Z.of_nat (String.length (originalname file))) with false
      by (symmetry; apply Z.ltb_ge; lia).
    rewrite Hname, (split_two base ext Hb He). cbn [length].
    change (2 <? Z.of_nat 2) with false. cbn [app].
    destruct (file_size file) as [[|p|p]|]; try reflexivity. now contradiction Hsize. }
  split; [exact Herrs|].
  unfold performSecurityChecks in *. cbv zeta in *. cbn [errors isValid] in *.
  now rewrite Herrs.
Qed.

Lemma single_extension_not_screened_witness :
  errors (performSecurityChecks sample_plain_exe) = [] /\
  isValid (performSecurityChecks sample_plain_exe) = true.
Proof.
  apply (single_extension_not_screened sample_plain_exe "payload" "exe");
    try reflexivity; [cbn; lia | discriminate].
Defined.

(** X21: in a name with two dots or more the text before the first dot
    counts as an extension: when it is on the executable denylist the name
    is refused. *)
Theorem leading_segment_counts_as_extension (file : File) (word rest : string) :
  originalname file = word +:+ "." +:+ rest ->
  noneOf isDot word ->
  JS.test_class isDot rest = true ->
  In ("." +:+ JS.toLowerCase word) suspiciousExtensions ->
  In ExecutableExtension (errors (performSecurityChecks file)) /\
  isValid (performSecurityChecks file) = false.
Proof.
  intros Hname Hw Hrest Hdeny.
  assert (Hin : In ExecutableExtension (nameErrors (originalname file))).
  { unfold nameErrors. cbv zeta. apply in_or_app. right. apply in_or_app. right.
    rewrite Hname. unfold JS.split.
    rewrite (split_aux_clean "." _ _ _ Hw), app_nil_s, app_cons_s, app_nil_s.
    cbn [JS.split_aux]. rewrite Ascii.eqb_refl.
    pose proof (split_aux_two "." rest "" Hrest) as Hlen. cbn [length].
    replace (2 <? Z.of_nat (S (length (JS.split_aux "." rest "")))) with true
      by (symmetry; apply Z.ltb_lt; lia).
    unfold JS.some. cbn [existsb].
    apply includes_In in Hdeny. rewrite Hdeny. cbn [orb]. now left. }
  unfold performSecurityChecks. cbv zeta. cbn [errors isValid].
  split; [apply in_or_app; now left|].
  destruct (nameErrors (originalname file)) as [|e l]; [destruct Hin|].
  apply Z.eqb_neq. cbn [app length]. lia.
Qed.

Lemma leading_segment_counts_as_extension_witness :
  In ExecutableExtension (errors (performSecurityChecks sample_dotted)) /\
  isValid (performSecurityChecks sample_dotted) = false.
Proof.
  apply (leading_segment_counts_as_extension sample_dotted "com" "acme.cv.pdf");
    try reflexivity. cbn. tauto.
Defined.
